(** * The dashboard updater [scripts/update_dashboard_from_excel.py]

    A shallow embedding of the extractor (spreadsheet rows to records and
    totals) and of the renderer (records to HTML fragments, spliced into an
    existing document), followed by the properties of the specification.

    Modelling conventions.
    - A Python [str] is a list of 8-bit characters.  Codes below 128 are the
      ASCII characters; case mapping, white space and digits are the ASCII
      ones.
    - A Python [int] is a [Z].
    - A Python [float] is [pyfloat]: a finite value is the rational it
      denotes, next to the negative zero, the two infinities and NaN.  An
      operation rounds its exact result to binary64: to the nearest number
      of 53 bits, ties to even, with the subnormal numbers, and to an
      infinity from [2^1024 - 2^970] on.
    - An exception is a value of [exn]; code that can raise returns in
      [result]. *)

From Stdlib Require Import ZArith QArith Qabs Qround Qpower Ascii String List
  Lia Lqa.
From Stdlib Require Import DecimalString DecimalPos Sorting.Sorted
  Sorting.Permutation.
From stdpp Require Import base option list gmap strings.

(** ** Text *)

Definition str : Type := list ascii.

(** A literal. *)
Definition L (s : string) : str := list_ascii_of_string s.

Definition dquote : ascii := ascii_of_nat 34.

(** A literal of markup: each backquote stands for a double quote. *)
Definition H (s : string) : str :=
  List.map (fun c => if Ascii.eqb c "`"%char then dquote else c) (L s).

Definition code (c : ascii) : N := N_of_ascii c.

Definition in_range (lo hi : N) (c : ascii) : bool :=
  (lo <=? code c)%N && (code c <=? hi)%N.

Definition is_digit : ascii -> bool := in_range 48 57.
Definition is_octdigit : ascii -> bool := in_range 48 55.
Definition is_upper : ascii -> bool := in_range 65 90.
Definition is_lower : ascii -> bool := in_range 97 122.
Definition is_letter (c : ascii) : bool := is_upper c || is_lower c.

(** [str.isspace] on ASCII: tab, line feed, vertical tab, form feed, carriage
    return, the four separators 28..31 and the space. *)
Definition is_space (c : ascii) : bool :=
  in_range 9 13 c || in_range 28 32 c.

Definition lower_char (c : ascii) : ascii :=
  if is_upper c then ascii_of_N (code c + 32) else c.

Definition lower (s : str) : str := List.map lower_char s.

Fixpoint lstrip (s : str) : str :=
  match s with
  | c :: s' => if is_space c then lstrip s' else s
  | [] => []
  end.

Definition rstrip (s : str) : str := rev (lstrip (rev s)).

Definition strip (s : str) : str := rstrip (lstrip s).

Definition str_eqb (a b : str) : bool := bool_decide (a = b).

(** [s.replace(c, "")] for a one-character [c]. *)
Definition remove_char (c : ascii) (s : str) : str :=
  List.filter (fun x => negb (Ascii.eqb x c)) s.

(** [s.replace(c, d)] for one-character [c] and [d]. *)
Definition replace_char (c d : ascii) (s : str) : str :=
  List.map (fun x => if Ascii.eqb x c then d else x) s.

Fixpoint starts_with (p s : str) : bool :=
  match p, s with
  | [], _ => true
  | a :: p', b :: s' => Ascii.eqb a b && starts_with p' s'
  | _ :: _, [] => false
  end.

(** [text.find(pat, 0)] on the suffix [s]: the offset of the first
    occurrence. *)
Fixpoint find_from (pat s : str) : option nat :=
  if starts_with pat s then Some 0%nat
  else match s with
       | [] => None
       | _ :: s' => S <$> find_from pat s'
       end.

(** [text.find(pat, start)], with [None] for Python's [-1]. *)
Definition find (pat text : str) (start : nat) : option nat :=
  (fun i => (start + i)%nat) <$> find_from pat (drop start text).

(** [pat in text]. *)
Definition contains (pat text : str) : bool :=
  bool_decide (is_Some (find_from pat text)).

(** [sep.join(parts)]. *)
Fixpoint join (sep : str) (parts : list str) : str :=
  match parts with
  | [] => []
  | [p] => p
  | p :: ps => p ++ sep ++ join sep ps
  end.

(** ** Exceptions *)

Inductive exn : Set :=
| ValueError
| OverflowError
| IndexError
| ReError
| KeyError
| FileNotFoundError
| SystemExit.

Inductive result (A : Type) : Type :=
| Ok (a : A)
| Raise (e : exn).
Arguments Ok {A} a.
Arguments Raise {A} e.

Global Instance result_ret : MRet result := fun _ a => Ok a.
Global Instance result_bind : MBind result := fun _ _ f m =>
  match m with
  | Ok a => f a
  | Raise e => Raise e
  end.

Global Instance result_fmap : FMap result := fun _ _ f m =>
  match m with
  | Ok a => Ok (f a)
  | Raise e => Raise e
  end.

Definition raises {A} (m : result A) : Prop := ∃ e, m = Raise e.

(** ** Numbers *)

Inductive pyfloat : Type :=
| Finite (q : Q)
| NegZero
| Inf (negative : bool)
| NaN.

(** Round half to even, as [round(x)] does on a float. *)
Definition round_half_even (q : Q) : Z :=
  let f := Qfloor q in
  match (q - inject_Z f ?= 1 # 2)%Q with
  | Lt => f
  | Gt => (f + 1)%Z
  | Eq => if Z.even f then f else (f + 1)%Z
  end.

(** The least magnitude that rounds to an infinity. *)
Definition float_overflow : Z := (2 ^ 1024 - 2 ^ 970)%Z.

Definition overflows (q : Q) : bool :=
  Qle_bool (inject_Z float_overflow) (Qabs q).

Definition pow2 (e : Z) : Q := (2 ^ e)%Q.

(** The exponent of the last binary place of the binary64 numbers next to a
    magnitude [m]: 52 places below the leading bit of [m], and not below
    the last place of the subnormal numbers. *)
Definition ulp_exponent (m : Q) : Z :=
  let k := (Z.log2 (Qnum m) - Z.log2 (Zpos (Qden m)))%Z in
  let lead := if Qle_bool (pow2 k) m then k else (k - 1)%Z in
  Z.max (lead - 52) (-1074).

(** The binary64 magnitude nearest to [m], ties to even. *)
Definition round_b64 (m : Q) : Q :=
  let e := ulp_exponent m in
  Qred (inject_Z (round_half_even (m / pow2 e)) * pow2 e).

(** The float of sign [neg] whose magnitude is the exact [m], rounded. *)
Definition b64 (neg : bool) (m : Q) : pyfloat :=
  if overflows m then Inf neg
  else
    let r := round_b64 m in
    if Qeq_bool r 0 then (if neg then NegZero else Finite 0)
    else Finite (if neg then - r else r).

Definition is_negative (x : pyfloat) : bool :=
  match x with
  | Finite q => negb (Qle_bool 0 q)
  | NegZero => true
  | Inf neg => neg
  | NaN => false
  end.

(** The magnitude of a finite float. *)
Definition magnitude (x : pyfloat) : option Q :=
  match x with
  | Finite q => Some (Qabs q)
  | NegZero => Some 0%Q
  | _ => None
  end.

(** A float from the exact value of an operation, which is not a negative
    zero. *)
Definition fl (q : Q) : pyfloat := b64 (negb (Qle_bool 0 q)) (Qabs q).

(** [float(n)] for an [int]. *)
Definition float_of_int (n : Z) : result pyfloat :=
  if overflows (inject_Z n) then Raise OverflowError
  else Ok (fl (inject_Z n)).

(** [x * y] on floats. *)
Definition float_mul (x y : pyfloat) : pyfloat :=
  let neg := xorb (is_negative x) (is_negative y) in
  match x, y with
  | NaN, _ | _, NaN => NaN
  | _, _ =>
      match magnitude x, magnitude y with
      | Some a, Some b => b64 neg (a * b)
      | Some a, None | None, Some a => if Qeq_bool a 0 then NaN else Inf neg
      | None, None => Inf neg
      end
  end.

(** [int(round(x))]. *)
Definition int_round (x : pyfloat) : result Z :=
  match x with
  | Finite q => Ok (round_half_even q)
  | NegZero => Ok 0%Z
  | Inf _ => Raise OverflowError
  | NaN => Raise ValueError
  end.

(** The multiple of a hundredth nearest to [q], ties to even. *)
Definition round2_q (q : Q) : Q :=
  Qred (round_half_even (q * 100) # 100).

(** [round(x, 2)]: the float nearest to the hundredth nearest to [x], with
    the sign of [x]. *)
Definition round2 (x : pyfloat) : pyfloat :=
  match x with
  | Finite q => b64 (is_negative x) (Qabs (round2_q q))
  | _ => x
  end.

(** *** [float(text)] *)

Definition digit_val (c : ascii) : Z := Z.of_N (code c - 48).

Definition digits_val (ds : str) : Z :=
  fold_left (fun acc c => (10 * acc + digit_val c)%Z) ds 0%Z.

(** The rest of a digit part: digits, each optionally preceded by one
    underscore. *)
Fixpoint digitpart_rest (s : str) : str * str :=
  match s with
  | c :: s' =>
      if is_digit c then
        let '(ds, r) := digitpart_rest s' in (c :: ds, r)
      else if Ascii.eqb c "_"%char then
        match s' with
        | d :: s'' =>
            if is_digit d then
              let '(ds, r) := digitpart_rest s'' in (d :: ds, r)
            else ([], s)
        | [] => ([], s)
        end
      else ([], s)
  | [] => ([], [])
  end.

Definition digitpart (s : str) : option (str * str) :=
  match s with
  | c :: s' =>
      if is_digit c then
        let '(ds, r) := digitpart_rest s' in Some (c :: ds, r)
      else None
  | [] => None
  end.

Definition opt_digitpart (s : str) : str * str :=
  match digitpart s with
  | Some r => r
  | None => ([], s)
  end.

(** An optional sign: [true] for minus. *)
Definition take_sign (s : str) : bool * str :=
  match s with
  | c :: s' =>
      if Ascii.eqb c "-"%char then (true, s')
      else if Ascii.eqb c "+"%char then (false, s')
      else (false, s)
  | [] => (false, [])
  end.

(** The exponent part [e[+-]digits]; [None] when the text goes on with
    something else. *)
Definition exponent (s : str) : option Z :=
  match s with
  | [] => Some 0%Z
  | c :: s' =>
      if Ascii.eqb (lower_char c) "e"%char then
        let '(neg, s1) := take_sign s' in
        match digitpart s1 with
        | Some (ds, []) =>
            Some (if neg then (- digits_val ds)%Z else digits_val ds)
        | _ => None
        end
      else None
  end.

Definition pow10 (e : Z) : Q :=
  if (0 <=? e)%Z then inject_Z (10 ^ e) else / inject_Z (10 ^ (- e)).

(** An unsigned decimal number: [digits[.digits]][exponent] or
    [.digits[exponent]]. *)
Definition decimal (s : str) : option Q :=
  let '(ip, s1) := opt_digitpart s in
  let '(fp, s2) :=
    match s1 with
    | c :: s1' =>
        if Ascii.eqb c "."%char then opt_digitpart s1' else ([], s1)
    | [] => ([], [])
    end in
  match ip ++ fp with
  | [] => None
  | m =>
      e ← exponent s2;
      Some (inject_Z (digits_val m) * pow10 (e - Z.of_nat (length fp)))%Q
  end.

(** The white space [float] skips around a number. *)
Definition is_float_space (c : ascii) : bool :=
  in_range 9 13 c || Ascii.eqb c " "%char.

Fixpoint skip_float_space (s : str) : str :=
  match s with
  | c :: s' => if is_float_space c then skip_float_space s' else s
  | [] => []
  end.

Definition float_strip (s : str) : str :=
  rev (skip_float_space (rev (skip_float_space s))).

(** [float(text)]: white space around the number is skipped; a text that is
    no number raises [ValueError]. *)
Definition float_of_str (text : str) : result pyfloat :=
  let '(neg, body) := take_sign (float_strip text) in
  let w := lower body in
  if str_eqb w (L "inf") || str_eqb w (L "infinity") then Ok (Inf neg)
  else if str_eqb w (L "nan") then Ok NaN
  else match decimal body with
       | Some q => Ok (b64 neg q)
       | None => Raise ValueError
       end.

(** [str(n)] for an [int]. *)
Definition str_of_Z (n : Z) : str :=
  L (DecimalString.NilZero.string_of_int (Z.to_int n)).

(** [f"{x:.2f}"]. *)
Definition format_2f (x : pyfloat) : str :=
  match x with
  | Finite q =>
      let a := round_half_even (Qabs q * 100) in
      (if is_negative x then L "-" else []) ++ str_of_Z (a / 100) ++ L "."
      ++ str_of_Z (a mod 100 / 10) ++ str_of_Z (a mod 10)
  | NegZero => L "-0.00"
  | Inf neg => if neg then L "-inf" else L "inf"
  | NaN => L "nan"
  end.

(** [x >= n] for a float [x] and an integer literal [n]. *)
Definition float_ge (x : pyfloat) (n : Z) : bool :=
  match x with
  | Finite q => Qle_bool (inject_Z n) q
  | NegZero => (n <=? 0)%Z
  | Inf neg => negb neg
  | NaN => false
  end.

(** ** Dates *)

Record date : Type := Date { year : Z; month : Z; day : Z }.

Definition is_leap (y : Z) : bool :=
  ((y mod 4 =? 0) && (negb (y mod 100 =? 0) || (y mod 400 =? 0)))%Z.

Definition days_in_month (y m : Z) : Z :=
  if (m =? 2)%Z then (if is_leap y then 29 else 28)%Z
  else if ((m =? 4) || (m =? 6) || (m =? 9) || (m =? 11))%Z then 30%Z
  else 31%Z.

(** [dt.date(year, month, day)]. *)
Definition make_date (y m d : Z) : result date :=
  if ((1 <=? y) && (y <=? 9999) && (1 <=? m) && (m <=? 12)
      && (1 <=? d) && (d <=? days_in_month y m))%Z
  then Ok (Date y m d) else Raise ValueError.

Record clock : Type :=
  Clock { hour : Z; minute : Z; second : Z; microsecond : Z }.

(** [str(n).zfill(width)] for a non-negative [n]. *)
Definition zero_pad (width : nat) (n : Z) : str :=
  let s := str_of_Z n in
  repeat "0"%char (width - length s) ++ s.

(** [str(d)] for a [dt.date]. *)
Definition str_of_date (d : date) : str :=
  zero_pad 4 (year d) ++ L "-" ++ zero_pad 2 (month d) ++ L "-"
  ++ zero_pad 2 (day d).

(** [str(d)] for a [dt.datetime]. *)
Definition str_of_datetime (d : date) (t : clock) : str :=
  str_of_date d ++ L " " ++ zero_pad 2 (hour t) ++ L ":"
  ++ zero_pad 2 (minute t) ++ L ":" ++ zero_pad 2 (second t)
  ++ (if (microsecond t =? 0)%Z then []
      else L "." ++ zero_pad 6 (microsecond t)).

Definition month_names : list string :=
  ["January"; "February"; "March"; "April"; "May"; "June"; "July";
   "August"; "September"; "October"; "November"; "December"]%string.

(** [strftime('%B')] in the C locale. *)
Definition month_name (m : Z) : str :=
  L (nth (Z.to_nat (m - 1)) month_names ""%string).

(** [strftime('%b')] in the C locale. *)
Definition month_abbr (m : Z) : str := take 3 (month_name m).

(** ** Spreadsheet cells

    The values [iter_rows(values_only=True)] yields. *)

Inductive cell : Type :=
| CNone
| CBool (b : bool)
| CInt (n : Z)
| CFloat (x : pyfloat)
| CStr (s : str)
| CDateTime (d : date) (t : clock)
| CDate (d : date).

Definition row : Type := list cell.

(** ** Global tables *)

Definition CANONICAL_ORDER : list str :=
  [L "Raikot"; L "Khanna"; L "Ludhiana (East)"; L "Payal"; L "Jagraon";
   L "Samrala"; L "Ludhiana (West)"].

Definition DISPLAY_NAME_MAP : gmap str str :=
  list_to_map
    [(L "raikot", L "Raikot"); (L "khanna", L "Khanna");
     (L "payal", L "Payal"); (L "jagraon", L "Jagraon");
     (L "samrala", L "Samrala"); (L "ludhianaeast", L "Ludhiana (East)");
     (L "ludhianawest", L "Ludhiana (West)")].

(** ** Names and numbers *)

(** [re.sub(r"[^a-z0-9]", "", value.lower())]. *)
Definition normalize_name (value : str) : str :=
  List.filter (fun c => is_lower c || is_digit c) (lower value).

Definition display_name (raw_name : str) : str :=
  default (strip raw_name) (DISPLAY_NAME_MAP !! normalize_name raw_name).

(** The textual branch of [parse_number], on [str(value)]. *)
Definition parse_number_text (s : str) : result pyfloat :=
  let text := remove_char ","%char (strip s) in
  if str_eqb text [] || str_eqb text (L "-") then Ok (Finite 0)
  else match float_of_str text with
       | Ok x => Ok x
       | Raise ValueError => Ok (Finite 0)
       | Raise e => Raise e
       end.

Definition parse_number (value : cell) : result pyfloat :=
  match value with
  | CNone => Ok (Finite 0)
  | CBool b => float_of_int (if b then 1 else 0)
  | CInt n => float_of_int n
  | CFloat x => Ok x
  | CStr s => parse_number_text s
  | CDateTime d t => parse_number_text (str_of_datetime d t)
  | CDate d => parse_number_text (str_of_date d)
  end.

Definition to_int (value : cell) : result Z :=
  parse_number value ≫= int_round.

Definition to_percent (value : cell) : result pyfloat :=
  round2 <$> parse_number value.

(** ** Formatting *)

(** The loop of [format_indian_number]: while more than two characters are
    left in [head], its last two move to [parts].  [fuel] bounds the number of
    iterations. *)
Fixpoint group_pairs (fuel : nat) (head : str) (parts : list str)
  : option (str * list str) :=
  if (2 <? length head)%nat then
    match fuel with
    | O => None
    | S fuel' =>
        group_pairs fuel' (take (length head - 2) head)
          (parts ++ [drop (length head - 2) head])
    end
  else Some (head, parts).

(** [format_indian_number] on an [int], for which [int(round(value))] is the
    value itself. *)
Definition format_indian_number (n : Z) : str :=
  let sign := if (n <? 0)%Z then L "-" else [] in
  let s := str_of_Z (Z.abs n) in
  if (length s <=? 3)%nat then sign ++ s
  else
    let tail := drop (length s - 3) s in
    let head := take (length s - 3) s in
    match group_pairs (length head) head [] with
    | Some (head, parts) =>
        let parts := match head with [] => parts | _ => parts ++ [head] end in
        sign ++ join (L ",") (rev parts) ++ L "," ++ tail
    | None => []
    end.

Definition ordinal_suffix (n : Z) : str :=
  if ((10 <=? n mod 100) && (n mod 100 <=? 20))%Z then L "th"
  else if (n mod 10 =? 1)%Z then L "st"
  else if (n mod 10 =? 2)%Z then L "nd"
  else if (n mod 10 =? 3)%Z then L "rd"
  else L "th".

Definition ordinal (n : Z) : str := str_of_Z n ++ ordinal_suffix n.

(** [strftime('%Y')] is taken to print the year as [str] does, which is so
    for the years from 1000 on. *)
Definition format_as_of_date (d : date) : str :=
  ordinal (day d) ++ L " " ++ month_name (month d) ++ L " "
  ++ str_of_Z (year d).

Definition format_surveyed_header_date (d : date) : str :=
  let y := str_of_Z (year d) in
  str_of_Z (day d) ++ L "-" ++ str_of_Z (month d) ++ L "-"
  ++ drop (length y - 2) y.

Definition format_daily_chart_label (d : date) : str :=
  ordinal (day d) ++ L " " ++ month_abbr (month d).

Definition survey_bar_class (percent : pyfloat) : str :=
  if float_ge percent 10 then L "high"
  else if float_ge percent 7 then L "medium"
  else L "low".

Definition approval_bar_class (percent : pyfloat) : str :=
  if float_ge percent 15 then L "high"
  else if float_ge percent 10 then L "medium"
  else L "low".

Definition survey_badge_class (percent : pyfloat) : str :=
  if float_ge percent 10 then L "success"
  else if float_ge percent 7 then L "warning"
  else L "danger".

Definition approval_badge_class (percent : pyfloat) : str :=
  if float_ge percent 20 then L "success"
  else if float_ge percent 10 then L "warning"
  else L "danger".

(** ** Regular expressions

    Every pattern of the program is a sequence of character classes, each
    with a greedy repetition count. *)

Record atom : Type :=
  Atom { accepts : ascii -> bool; at_least : nat; at_most : option nat }.

Definition regex : Type := list atom.

Definition lit (c : ascii) : atom := Atom (Ascii.eqb c) 1 (Some 1%nat).
Definition lits (s : str) : regex := List.map lit s.
Definition not_char (c : ascii) : ascii -> bool := fun x => negb (Ascii.eqb x c).

Fixpoint run (p : ascii -> bool) (s : str) : nat :=
  match s with
  | c :: s' => if p c then S (run p s') else O
  | [] => O
  end.

Definition run_length (a : atom) (s : str) : nat :=
  match at_most a with
  | Some m => Nat.min m (run (accepts a) s)
  | None => run (accepts a) s
  end.

(** A greedy repetition that took [k] characters of [s]: the rest of the
    pattern, [rest], is tried on what follows; when it fails one character is
    given back, down to [least] characters. *)
Fixpoint backtrack (least : nat) (rest : str -> option (list str)) (s : str)
    (k : nat) : option (list str) :=
  if (k <? least)%nat then None
  else match rest (drop k s) with
       | Some ps => Some (take k s :: ps)
       | None => match k with
                 | O => None
                 | S k' => backtrack least rest s k'
                 end
       end.

(** A match of [re] at the start of [s]: the text each atom took.  An atom
    takes the longest run first. *)
Fixpoint match_here (re : regex) (s : str) : option (list str) :=
  match re with
  | [] => Some []
  | a :: re' => backtrack (at_least a) (match_here re') s (run_length a s)
  end.

(** [re.search]: the offset of the leftmost match and its pieces. *)
Fixpoint search (re : regex) (s : str) : option (nat * list str) :=
  match match_here re s with
  | Some ps => Some (O, ps)
  | None =>
      match s with
      | [] => None
      | _ :: s' => (fun '(i, ps) => (S i, ps)) <$> search re s'
      end
  end.

(** *** Replacement templates

    [re.sub] reads its replacement as a template: a backslash starts an
    escape or a group reference.  The patterns substituted here have no
    groups, so the only valid reference is [\g<0>], the whole match.  (Group
    names are read as Python 3.12 does.) *)

Inductive piece : Type :=
| PChar (c : ascii)
| PMatch.

Definition backslash : ascii := ascii_of_nat 92.

Definition escape_char (c : ascii) : option ascii :=
  if Ascii.eqb c "a"%char then Some (ascii_of_nat 7)
  else if Ascii.eqb c "b"%char then Some (ascii_of_nat 8)
  else if Ascii.eqb c "f"%char then Some (ascii_of_nat 12)
  else if Ascii.eqb c "n"%char then Some (ascii_of_nat 10)
  else if Ascii.eqb c "r"%char then Some (ascii_of_nat 13)
  else if Ascii.eqb c "t"%char then Some (ascii_of_nat 9)
  else if Ascii.eqb c "v"%char then Some (ascii_of_nat 11)
  else if Ascii.eqb c backslash then Some backslash
  else None.

(** The text before the first [c] and the text after it. *)
Fixpoint until_char (c : ascii) (s : str) : option (str * str) :=
  match s with
  | [] => None
  | x :: s' =>
      if Ascii.eqb x c then Some ([], s')
      else (fun '(a, b) => (x :: a, b)) <$> until_char c s'
  end.

Definition is_identifier (s : str) : bool :=
  match s with
  | [] => false
  | c :: s' =>
      (is_letter c || Ascii.eqb c "_"%char)
      && forallb (fun x => is_letter x || is_digit x || Ascii.eqb x "_"%char) s'
  end.

Definition octal_val (ds : str) : N :=
  fold_left (fun acc c => (8 * acc + (code c - 48))%N) ds 0%N.

Fixpoint take_oct (n : nat) (s : str) : str * str :=
  match n, s with
  | S n', c :: s' =>
      if is_octdigit c then let '(ds, r) := take_oct n' s' in (c :: ds, r)
      else ([], s)
  | _, _ => ([], s)
  end.

Fixpoint parse_template (fuel : nat) (s : str) : result (list piece) :=
  match s, fuel with
  | [], _ => Ok []
  | _ :: _, O => Raise ReError
  | c :: s1, S fuel =>
      if negb (Ascii.eqb c backslash) then
        cons (PChar c) <$> parse_template fuel s1
      else
        match s1 with
        | [] => Raise ReError
        | e :: s2 =>
            if Ascii.eqb e "g"%char then
              match s2 with
              | [] => Raise ReError
              | b :: s3 =>
                  if negb (Ascii.eqb b "<"%char) then Raise ReError
                  else match until_char ">"%char s3 with
                       | None => Raise ReError
                       | Some (name, s4) =>
                           if str_eqb name [] then Raise ReError
                           else if is_identifier name then Raise IndexError
                           else if forallb is_digit name
                                   && (digits_val name =? 0)%Z
                           then cons PMatch <$> parse_template fuel s4
                           else Raise ReError
                       end
              end
            else if Ascii.eqb e "0"%char then
              let '(ds, s3) := take_oct 2 s2 in
              cons (PChar (ascii_of_N (octal_val ds mod 256)))
                <$> parse_template fuel s3
            else if is_digit e then
              match s2 with
              | d :: o :: s4 =>
                  if is_octdigit e && is_octdigit d && is_octdigit o then
                    let v := octal_val [e; d; o] in
                    if (255 <? v)%N then Raise ReError
                    else cons (PChar (ascii_of_N v)) <$> parse_template fuel s4
                  else Raise ReError
              | _ => Raise ReError
              end
            else
              match escape_char e with
              | Some x => cons (PChar x) <$> parse_template fuel s2
              | None =>
                  if is_letter e then Raise ReError
                  else (fun ps => PChar c :: PChar e :: ps)
                         <$> parse_template fuel s2
              end
        end
  end.

Definition expand (tpl : list piece) (m : str) : str :=
  concat (List.map (fun p => match p with PChar c => [c] | PMatch => m end) tpl).

(** [re.sub(re, repl, text, count=1)]: the template is compiled first; a text
    without a match comes back as it is. *)
Definition re_sub_first (re : regex) (repl text : str) : result str :=
  tpl ← parse_template (length repl) repl;
  match search re text with
  | None => Ok text
  | Some (i, ps) =>
      let m := concat ps in
      Ok (take i text ++ expand tpl m ++ drop (i + length m) text)
  end.

(** ** Extractor *)

Record record : Type := Record_ {
  name : str;
  uploaded_villages : Z;
  uploaded_plots : Z;
  daily_target : Z;
  surveyed_today : Z;
  total_surveyed : Z;
  survey_percent : pyfloat;
  approved : Z;
  approval_percent : pyfloat;
  total_surveyors : Z;
  in_field : Z
}.

Record data : Type := Data {
  report_date : date;
  subdivisions : list record;
  totals : record
}.

(** [s.split()]: the maximal runs of characters that are not white space. *)
Fixpoint split_ws (cur : str) (s : str) : list str :=
  match s with
  | [] => match cur with [] => [] | _ => [rev cur] end
  | c :: s' =>
      if is_space c then
        match cur with
        | [] => split_ws [] s'
        | _ => rev cur :: split_ws [] s'
        end
      else split_ws (c :: cur) s'
  end.

(** [(\d{1,2})[-/](\d{1,2})[-/](\d{2,4})] *)
Definition date_re : regex :=
  let sep := Atom (fun c => Ascii.eqb c "-"%char || Ascii.eqb c "/"%char)
               1 (Some 1%nat) in
  [Atom is_digit 1 (Some 2%nat); sep; Atom is_digit 1 (Some 2%nat); sep;
   Atom is_digit 2 (Some 4%nat)].

Definition parse_date_tokens (text : str) : option date :=
  match search date_re text with
  | Some (_, [d; _; m; _; y]) =>
      let year := digits_val y in
      let year := if (year <? 100)%Z then (year + 2000)%Z else year in
      match make_date year (digits_val m) (digits_val d) with
      | Ok dt => Some dt
      | Raise _ => None
      end
  | _ => None
  end.

(** Python's comparison of strings: lexicographic on the character codes. *)
Fixpoint str_ltb (a b : str) : bool :=
  match a, b with
  | _, [] => false
  | [], _ :: _ => true
  | x :: a', y :: b' =>
      if (code x <? code y)%N then true
      else if (code y <? code x)%N then false
      else str_ltb a' b'
  end.

Definition str_leb (a b : str) : bool := negb (str_ltb b a).

(** An element goes before the first one whose key is strictly greater, hence
    after its equals. *)
Fixpoint insert_sorted (x : record) (l : list record) : list record :=
  match l with
  | [] => [x]
  | y :: l' =>
      if str_ltb (name x) (name y) then x :: l else y :: insert_sorted x l'
  end.

(** [l.sort(key=lambda x: x["name"])]: ascending and stable. *)
Definition sort_by_name (l : list record) : list record :=
  fold_left (fun acc x => insert_sorted x acc) l [].

Definition sum_of (f : record -> Z) (l : list record) : Z :=
  fold_left (fun acc r => (acc + f r)%Z) l 0%Z.

(** [a / b] on [int]s, [b] not zero: the quotient rounded once. *)
Definition true_div (a b : Z) : result pyfloat :=
  let m := Qabs (inject_Z a / inject_Z b)%Q in
  if overflows m then Raise OverflowError
  else Ok (b64 (xorb (a <? 0)%Z (b <? 0)%Z) m).

(** [x * n] for a float [x] and an [int] [n] that [float] takes. *)
Definition float_mul_int (x : pyfloat) (n : Z) : pyfloat :=
  float_mul x (fl (inject_Z n)).

(** [round((a / b) * 100, 2) if b else 0.0] *)
Definition percent_of (a b : Z) : result pyfloat :=
  if (b =? 0)%Z then Ok (Finite 0)
  else x ← true_div a b; Ok (round2 (float_mul_int x 100)).

(** [l[i]] for an index that is not negative. *)
Definition row_get {A} (l : list A) (i : nat) : result A :=
  match l !! i with
  | Some c => Ok c
  | None => Raise IndexError
  end.

(** [col[key]] *)
Definition col_get (col : gmap str nat) (key : string) : result nat :=
  match col !! L key with
  | Some i => Ok i
  | None => Raise KeyError
  end.

(** [{row["name"]: row for row in subdivisions}]: a later row replaces an
    earlier one of the same name. *)
Definition index_by_name (rows : list record) : gmap str record :=
  fold_left (fun m r => <[name r := r]> m) rows ∅.

Definition required_columns : list string :=
  ["name"; "uploaded_villages"; "uploaded_plots"; "daily_target";
   "surveyed_today"; "total_surveyed"; "survey_percent"; "approved";
   "approval_percent"; "total_surveyors"; "in_field"]%string.

Section Extractor.

(** [repr] of a float, which [str(cell)] needs for a numeric cell, is left
    open. *)
Variable float_repr : pyfloat -> str.

(** [str(value)] *)
Definition py_str (value : cell) : str :=
  match value with
  | CNone => L "None"
  | CBool b => if b then L "True" else L "False"
  | CInt n => str_of_Z n
  | CFloat x => float_repr x
  | CStr s => s
  | CDateTime d t => str_of_datetime d t
  | CDate d => str_of_date d
  end.

Definition normalize_text (value : cell) : str :=
  match value with
  | CNone => []
  | _ =>
      lower (strip (join (L " ")
        (split_ws [] (replace_char (ascii_of_nat 10) " "%char (py_str value)))))
  end.

Definition is_header (joined : str) : bool :=
  (contains (L "sub district") joined || contains (L "tehsil") joined)
  && contains (L "uploaded village") joined
  && contains (L "uploaded plots") joined
  && contains (L "surveyed") joined
  && contains (L "approved") joined.

Fixpoint detect_header_from (i : nat) (rows : list row) : result nat :=
  match rows with
  | [] => Raise ValueError
  | r :: rows' =>
      let cells :=
        List.filter (fun t => negb (str_eqb t []))
          (List.map normalize_text r) in
      match cells with
      | [] => detect_header_from (S i) rows'
      | _ =>
          if is_header (join (L " | ") cells) then Ok i
          else detect_header_from (S i) rows'
      end
  end.

Definition detect_header_row (rows : list row) : result nat :=
  detect_header_from 0 rows.

(** The field a header text names, if any: the first test that holds. *)
Definition column_key (h : str) : option string :=
  if (contains (L "sub district") h || contains (L "tehsil") h)
     && contains (L "name") h then Some "name"%string
  else if contains (L "targeted plots") h then Some "targeted_plots"%string
  else if contains (L "uploaded village") h then Some "uploaded_villages"%string
  else if contains (L "uploaded plots") h then Some "uploaded_plots"%string
  else if contains (L "required target plots") h then Some "daily_target"%string
  else if contains (L "surveyed plots on") h then Some "surveyed_today"%string
  else if contains (L "total surveyed plots") h then Some "total_surveyed"%string
  else if contains (L "percentage") h && contains (L "surveyed") h
          && negb (contains (L "approved") h) then Some "survey_percent"%string
  else if contains (L "approved by supervisor") h then Some "approved"%string
  else if contains (L "percentage") h && contains (L "approved") h
       then Some "approval_percent"%string
  else if contains (L "total private surveyors") h
       then Some "total_surveyors"%string
  else if contains (L "surveyors in fields on") h then Some "in_field"%string
  else None.

Fixpoint map_columns_from (idx : nat) (cells : row) (col : gmap str nat)
  : gmap str nat :=
  match cells with
  | [] => col
  | c :: cells' =>
      let h := normalize_text c in
      let col :=
        if str_eqb h [] then col
        else match column_key h with
             | Some k => <[L k := idx]> col
             | None => col
             end in
      map_columns_from (S idx) cells' col
  end.

Definition map_columns (header_row : row) : result (gmap str nat) :=
  let col := map_columns_from 0 header_row ∅ in
  let missing :=
    List.filter (fun k => bool_decide (col !! L k = None)) required_columns in
  match missing with
  | [] => Ok col
  | _ => Raise ValueError
  end.

Fixpoint first_date_in_row (r : row) : option date :=
  match r with
  | [] => None
  | c :: r' =>
      let found :=
        match c with
        | CDateTime d _ => Some d
        | CDate d => Some d
        | CNone => None
        | _ => parse_date_tokens (py_str c)
        end in
      match found with
      | Some d => Some d
      | None => first_date_in_row r'
      end
  end.

Fixpoint first_date_in_rows (rows : list row) : option date :=
  match rows with
  | [] => None
  | r :: rows' =>
      match first_date_in_row r with
      | Some d => Some d
      | None => first_date_in_rows rows'
      end
  end.

Definition extract_report_date (rows : list row) (header_row : row)
    (col_map : gmap str nat) : result date :=
  match first_date_in_rows (take 5 rows) with
  | Some d => Ok d
  | None =>
      i ← col_get col_map "surveyed_today";
      c ← row_get header_row i;
      match parse_date_tokens (py_str c) with
      | Some d => Ok d
      | None => Raise ValueError
      end
  end.

(** One row of the loop body of [read_excel_data]: nothing for a row without
    a name, else the key of the name and the record. *)
Definition read_row (col : gmap str nat) (r : row)
  : result (option (str * record)) :=
  name_idx ← col_get col "name";
  let name_cell := if (name_idx <? length r)%nat
                   then default CNone (r !! name_idx) else CNone in
  match name_cell with
  | CNone => Ok None
  | _ =>
      if str_eqb (strip (py_str name_cell)) [] then Ok None
      else
        let raw_name := strip (py_str name_cell) in
        let key := normalize_name raw_name in
        let field (k : string) := i ← col_get col k; row_get r i in
        uv ← field "uploaded_villages" ≫= to_int;
        up ← field "uploaded_plots" ≫= to_int;
        dtg ← field "daily_target" ≫= to_int;
        st ← field "surveyed_today" ≫= to_int;
        ts ← field "total_surveyed" ≫= to_int;
        sp ← field "survey_percent" ≫= to_percent;
        ap ← field "approved" ≫= to_int;
        app ← field "approval_percent" ≫= to_percent;
        tsv ← field "total_surveyors" ≫= to_int;
        inf ← field "in_field" ≫= to_int;
        Ok (Some (key, Record_ (display_name raw_name) uv up dtg st ts sp ap
                          app tsv inf))
  end.

(** The loop over the data rows: the subdivision records in row order and the
    last row whose key is [total]. *)
Fixpoint read_rows (col : gmap str nat) (rows : list row)
    (subs : list record) (tot : option record)
  : result (list record * option record) :=
  match rows with
  | [] => Ok (subs, tot)
  | r :: rows' =>
      x ← read_row col r;
      match x with
      | None => read_rows col rows' subs tot
      | Some (key, rec) =>
          if str_eqb key (L "total") then read_rows col rows' subs (Some rec)
          else read_rows col rows' (subs ++ [rec]) tot
      end
  end.

Definition is_canonical (n : str) : bool := bool_decide (n ∈ CANONICAL_ORDER).

(** The canonical names present, each with its record, in canonical order. *)
Definition ordered_part (subs : list record) : list record :=
  let by_name := index_by_name subs in
  omap (fun n => by_name !! n) CANONICAL_ORDER.

Definition extras_part (subs : list record) : list record :=
  sort_by_name (List.filter (fun r => negb (is_canonical (name r))) subs).

Definition compute_totals (subs : list record) : result record :=
  let ts := sum_of total_surveyed subs in
  let up := sum_of uploaded_plots subs in
  let ap := sum_of approved subs in
  sp ← percent_of ts up;
  app ← percent_of ap ts;
  Ok (Record_ (L "Total") (sum_of uploaded_villages subs) up
        (sum_of daily_target subs) (sum_of surveyed_today subs) ts sp ap app
        (sum_of total_surveyors subs) (sum_of in_field subs)).

(** [read_excel_data], from the rows of the active sheet. *)
Definition read_excel_data (rows : list row) : result data :=
  header_idx ← detect_header_row rows;
  header_row ← row_get rows header_idx;
  col ← map_columns header_row;
  report_date ← extract_report_date rows header_row col;
  '(subs, tot) ← read_rows col (drop (S header_idx) rows) [] None;
  match subs with
  | [] => Raise ValueError
  | _ =>
      let subs := ordered_part subs ++ extras_part subs in
      tot ← match tot with
            | Some t => Ok t
            | None => compute_totals subs
            end;
      Ok (Data report_date subs tot)
  end.

End Extractor.

Definition nl : str := [ascii_of_nat 10].

(** ** Renderer *)

Definition build_stats_html (totals : record) : str :=
  H "    <div class=`stats-grid`>
        <div class=`stat-card`>
            <div class=`stat-label`>Total Uploaded Plots</div>
            <div class=`stat-value`>"
  ++ format_indian_number (uploaded_plots totals)
  ++ H "</div>
            <div class=`stat-subtext`>Across all sub-divisions</div>
        </div>
        <div class=`stat-card success`>
            <div class=`stat-label`>Total Surveyed</div>
            <div class=`stat-value`>"
  ++ format_indian_number (total_surveyed totals)
  ++ H "</div>
            <div class=`stat-subtext`>"
  ++ format_2f (survey_percent totals)
  ++ H "% completion</div>
        </div>
        <div class=`stat-card warning`>
            <div class=`stat-label`>Approved by Supervisor</div>
            <div class=`stat-value`>"
  ++ format_indian_number (approved totals)
  ++ H "</div>
            <div class=`stat-subtext`>"
  ++ format_2f (approval_percent totals)
  ++ H "% of surveyed</div>
        </div>
        <div class=`stat-card danger`>
            <div class=`stat-label`>Daily Target Required</div>
            <div class=`stat-value`>"
  ++ format_indian_number (daily_target totals)
  ++ H "</div>
            <div class=`stat-subtext`>To complete by 31st March</div>
        </div>
    </div>".

Definition subdivision_card (row : record) : str :=
  let survey_class := survey_bar_class (survey_percent row) in
  let approval_class := approval_bar_class (approval_percent row) in
  H "        <div class=`subdivision-card`>
            <h3>"
  ++ name row
  ++ H "</h3>
            <div class=`progress-section`>
                <div class=`progress-label`>
                    <span>Survey Progress</span>
                    <span><strong>"
  ++ format_2f (survey_percent row)
  ++ H "%</strong></span>
                </div>
                <div class=`progress-bar`>
                    <div class=`progress-fill "
  ++ survey_class
  ++ H "` style=`width: "
  ++ format_2f (survey_percent row)
  ++ H "%;`></div>
                </div>
            </div>
            <div class=`progress-section`>
                <div class=`progress-label`>
                    <span>Approval Rate</span>
                    <span><strong>"
  ++ format_2f (approval_percent row)
  ++ H "%</strong></span>
                </div>
                <div class=`progress-bar`>
                    <div class=`progress-fill "
  ++ approval_class
  ++ H "` style=`width: "
  ++ format_2f (approval_percent row)
  ++ H "%;`></div>
                </div>
            </div>
            <div class=`detail-grid`>
                <div class=`detail-item`>
                    <span class=`detail-label`>Total Plots</span>
                    <span class=`detail-value`>"
  ++ format_indian_number (uploaded_plots row)
  ++ H "</span>
                </div>
                <div class=`detail-item`>
                    <span class=`detail-label`>Surveyed Plots</span>
                    <span class=`detail-value`>"
  ++ format_indian_number (total_surveyed row)
  ++ H "</span>
                </div>
                <div class=`detail-item`>
                    <span class=`detail-label`>Approved</span>
                    <span class=`detail-value`>"
  ++ format_indian_number (approved row)
  ++ H "</span>
                </div>
                <div class=`detail-item`>
                    <span class=`detail-label`>Surveyors</span>
                    <span class=`detail-value`>"
  ++ str_of_Z (total_surveyors row)
  ++ H "</span>
                </div>
                <div class=`detail-item`>
                    <span class=`detail-label`>In Field</span>
                    <span class=`detail-value`>"
  ++ str_of_Z (in_field row)
  ++ H "</span>
                </div>
            </div>
        </div>".

Definition build_subdivision_cards_html (rows : list record) : str :=
  join nl
    ([H "    <div class=`subdivision-grid`>"] ++ List.map subdivision_card rows
     ++ [L "    </div>"]).

Definition table_row (row : record) : str :=
  let survey_badge := survey_badge_class (survey_percent row) in
  let approval_badge := approval_badge_class (approval_percent row) in
  H "                <tr>
                    <td><strong>"
  ++ name row
  ++ H "</strong></td>
                    <td>"
  ++ str_of_Z (uploaded_villages row)
  ++ H "</td>
                    <td>"
  ++ format_indian_number (uploaded_plots row)
  ++ H "</td>
                    <td>"
  ++ format_indian_number (daily_target row)
  ++ H "</td>
                    <td>"
  ++ format_indian_number (surveyed_today row)
  ++ H "</td>
                    <td>"
  ++ format_indian_number (total_surveyed row)
  ++ H "</td>
                    <td><span class=`badge "
  ++ survey_badge
  ++ H "`>"
  ++ format_2f (survey_percent row)
  ++ H "%</span></td>
                    <td>"
  ++ format_indian_number (approved row)
  ++ H "</td>
                    <td><span class=`badge "
  ++ approval_badge
  ++ H "`>"
  ++ format_2f (approval_percent row)
  ++ H "%</span></td>
                    <td>"
  ++ str_of_Z (total_surveyors row)
  ++ H "</td>
                    <td>"
  ++ str_of_Z (in_field row)
  ++ H "</td>
                </tr>".

Definition table_total_row (totals : record) : str :=
  H "                <tr>
                    <td><strong>Total</strong></td>
                    <td><strong>"
  ++ str_of_Z (uploaded_villages totals)
  ++ H "</strong></td>
                    <td><strong>"
  ++ format_indian_number (uploaded_plots totals)
  ++ H "</strong></td>
                    <td><strong>"
  ++ format_indian_number (daily_target totals)
  ++ H "</strong></td>
                    <td><strong>"
  ++ format_indian_number (surveyed_today totals)
  ++ H "</strong></td>
                    <td><strong>"
  ++ format_indian_number (total_surveyed totals)
  ++ H "</strong></td>
                    <td><span class=`badge "
  ++ survey_badge_class (survey_percent totals)
  ++ H "`>"
  ++ format_2f (survey_percent totals)
  ++ H "%</span></td>
                    <td><strong>"
  ++ format_indian_number (approved totals)
  ++ H "</strong></td>
                    <td><span class=`badge "
  ++ approval_badge_class (approval_percent totals)
  ++ H "`>"
  ++ format_2f (approval_percent totals)
  ++ H "%</span></td>
                    <td><strong>"
  ++ str_of_Z (total_surveyors totals)
  ++ H "</strong></td>
                    <td><strong>"
  ++ str_of_Z (in_field totals)
  ++ H "</strong></td>
                </tr>".

Definition build_table_body_html (rows : list record) (totals : record) : str :=
  join nl
    ([L "            <tbody>"] ++ List.map table_row rows
     ++ [table_total_row totals; L "            </tbody>"]).

(** [replace_between] *)
Definition replace_between (text start_marker end_marker replacement : str)
  : result str :=
  match find start_marker text 0 with
  | None => Raise ValueError
  | Some start_idx =>
      match find end_marker text start_idx with
      | None => Raise ValueError
      | Some end_idx =>
          Ok (take start_idx text ++ replacement ++ drop end_idx text)
      end
  end.

(** [const NAME = \[[^\]]*];] where [re.escape] makes [NAME] literal. *)
Definition array_re (const_name : str) : regex :=
  lits (L "const " ++ const_name ++ L " = [")
  ++ [Atom (not_char "]"%char) 0 None] ++ lits (L "];").

Definition replace_array_const (text const_name values_js : str) : result str :=
  match search (array_re const_name) text with
  | None => Raise ValueError
  | Some _ =>
      re_sub_first (array_re const_name)
        (L "const " ++ const_name ++ L " = [" ++ values_js ++ L "];") text
  end.

(** [<p>Ludhiana District \| Data as of [^<]+</p>] *)
Definition as_of_re : regex :=
  lits (L "<p>Ludhiana District | Data as of ")
  ++ [Atom (not_char "<"%char) 1 None] ++ lits (L "</p>").

(** [<th>Surveyed \([^)]+\)</th>] *)
Definition surveyed_header_re : regex :=
  lits (L "<th>Surveyed (") ++ [Atom (not_char ")"%char) 1 None]
  ++ lits (L ")</th>").

(** [label: 'Plots Surveyed \([^']+\)'] *)
Definition daily_label_re : regex :=
  lits (L "label: 'Plots Surveyed (") ++ [Atom (not_char "'"%char) 1 None]
  ++ lits (L ")'").

Definition stats_start : str := H "    <div class=`stats-grid`>".
Definition stats_end : str :=
  H "

    <h2 style=`margin: 30px 0 20px 0; padding-left: 10px;`>".
Definition cards_start : str := H "    <div class=`subdivision-grid`>".
Definition cards_end : str :=
  L "

    <!-- Charts: survey, approval, surveyors, daily progress -->".
Definition tbody_open : str := L "            <tbody>".
Definition tbody_close : str := L "            </tbody>".

(** The replacement of the table body in [update_html]. *)
Definition replace_tbody (html tbody_html : str) : result str :=
  match find tbody_open html 0 with
  | None => Raise ValueError
  | Some tbody_start =>
      match find tbody_close html tbody_start with
      | None => Raise ValueError
      | Some tbody_end =>
          let tbody_end := (tbody_end + length tbody_close)%nat in
          Ok (take tbody_start html ++ tbody_html ++ drop tbody_end html)
      end
  end.

Definition quoted (s : str) : str := L "'" ++ s ++ L "'".

(** The part of [update_html] between reading and writing the file: every
    substitution, on the text in memory. *)
Definition substitute (d : data) (html : str) : result str :=
  let report_date := report_date d in
  let as_of := format_as_of_date report_date in
  let surveyed_header := format_surveyed_header_date report_date in
  let daily_label := format_daily_chart_label report_date in
  let rows := subdivisions d in
  let totals := totals d in
  let stats_html := build_stats_html totals in
  let cards_html := build_subdivision_cards_html rows in
  let tbody_html := build_table_body_html rows totals in
  html ← re_sub_first as_of_re
            (L "<p>Ludhiana District | Data as of " ++ as_of ++ L "</p>") html;
  html ← replace_between html stats_start stats_end stats_html;
  html ← replace_between html cards_start cards_end cards_html;
  html ← re_sub_first surveyed_header_re
            (L "<th>Surveyed (" ++ surveyed_header ++ L ")</th>") html;
  html ← replace_tbody html tbody_html;
  let subdivisions := List.map name rows in
  let survey_pcts := List.map (fun r => format_2f (survey_percent r)) rows in
  let approval_pcts :=
    List.map (fun r => format_2f (approval_percent r)) rows in
  let total_surveyors := List.map (fun r => str_of_Z (total_surveyors r)) rows in
  let in_field := List.map (fun r => str_of_Z (in_field r)) rows in
  let daily_progress := List.map (fun r => str_of_Z (surveyed_today r)) rows in
  html ← replace_array_const html (L "subdivisions")
            (join (L ", ") (List.map quoted subdivisions));
  html ← replace_array_const html (L "surveyPercentages")
            (join (L ", ") survey_pcts);
  html ← replace_array_const html (L "approvalPercentages")
            (join (L ", ") approval_pcts);
  html ← replace_array_const html (L "totalSurveyors")
            (join (L ", ") total_surveyors);
  html ← replace_array_const html (L "inField") (join (L ", ") in_field);
  html ← replace_array_const html (L "dailyProgress")
            (join (L ", ") daily_progress);
  re_sub_first daily_label_re
    (L "label: 'Plots Surveyed (" ++ daily_label ++ L ")'") html.

(** ** Files

    The files the program reads and writes, and the paths written so far. *)

Record world : Type := World {
  workbooks : gmap str (list row);
  files : gmap str str;
  written : list str
}.

(** A computation on files: an outcome and the world it leaves. *)
Definition io (A : Type) : Type := world -> result A * world.

Definition io_ret {A} (a : A) : io A := fun w => (Ok a, w).

Definition io_bind {A B} (m : io A) (f : A -> io B) : io B := fun w =>
  match m w with
  | (Ok a, w') => f a w'
  | (Raise e, w') => (Raise e, w')
  end.

(** A computation in memory. *)
Definition io_pure {A} (r : result A) : io A := fun w => (r, w).

Definition read_text (path : str) : io str := fun w =>
  match files w !! path with
  | Some text => (Ok text, w)
  | None => (Raise FileNotFoundError, w)
  end.

Definition write_text (path text : str) : io unit := fun w =>
  (Ok tt, World (workbooks w) (<[path := text]> (files w)) (written w ++ [path])).

Definition update_html (index_path : str) (d : data) : io unit :=
  io_bind (read_text index_path) (fun html =>
  io_bind (io_pure (substitute d html)) (fun html =>
  write_text index_path html)).

(** [load_workbook(excel_path)] and the rows of its active sheet. *)
Definition load_rows (excel_path : str) : io (list row) := fun w =>
  match workbooks w !! excel_path with
  | Some rows => (Ok rows, w)
  | None => (Raise FileNotFoundError, w)
  end.

Definition exists_file (path : str) : io bool := fun w =>
  (Ok (bool_decide (is_Some (files w !! path))), w).

Definition exists_workbook (path : str) : io bool := fun w =>
  (Ok (bool_decide (is_Some (workbooks w !! path))), w).

(** [main], after the arguments are parsed. *)
Definition main (float_repr : pyfloat -> str) (excel_path index_path : str)
  : io unit :=
  io_bind (exists_workbook excel_path) (fun found =>
  if negb found then io_pure (Raise SystemExit) else
  io_bind (exists_file index_path) (fun found =>
  if negb found then io_pure (Raise SystemExit) else
  io_bind (load_rows excel_path) (fun rows =>
  io_bind (io_pure (read_excel_data float_repr rows)) (fun d =>
  update_html index_path d)))).

(** ** Vocabulary of the properties *)

(** The order of [sort_by_name]. *)
Definition name_le (a b : record) : Prop := str_leb (name a) (name b) = true.

(** The record a data row contributes to the subdivisions, if any. *)
Definition row_record (float_repr : pyfloat -> str) (col : gmap str nat)
    (r : row) : option record :=
  match read_row float_repr col r with
  | Ok (Some (key, rec)) => if str_eqb key (L "total") then None else Some rec
  | _ => None
  end.

(** The first occurrence of [m] in [pre ++ m] is the one at the end. *)
Definition first_at (m pre : str) : Prop :=
  find_from m (pre ++ m) = Some (length pre).

(** [m[^e]{least,}suf] *)
Definition shape_re (m : str) (e : ascii) (least : nat) (suf : str) : regex :=
  lits m ++ Atom (not_char e) least None :: lits suf.

(** ** The substitutions of [update_html], one after the other *)

Inductive op : Type :=
| OpSub (m : str) (e : ascii) (least : nat) (suf v : str)
| OpArray (const_name values_js : str)
| OpBetween (start_marker end_marker replacement : str)
| OpTbody (tbody_html : str).

Definition apply_op (o : op) (text : str) : result str :=
  match o with
  | OpSub m e least suf v =>
      re_sub_first (shape_re m e least suf) (m ++ v ++ suf) text
  | OpArray n v => replace_array_const text n v
  | OpBetween s e r => replace_between text s e r
  | OpTbody r => replace_tbody text r
  end.

Fixpoint run_ops (os : list op) (text : str) : result str :=
  match os with
  | [] => Ok text
  | o :: os' => apply_op o text ≫= run_ops os'
  end.

Definition array_open (n : str) : str := L "const " ++ n ++ L " = [".

(** The text an operation puts in the place of its region. *)
Definition new_region (o : op) : str :=
  match o with
  | OpSub m _ _ suf v => m ++ v ++ suf
  | OpArray n v => array_open n ++ v ++ L "];"
  | OpBetween _ _ r => r
  | OpTbody r => r
  end.

Definition ops (d : data) : list op :=
  let rows := subdivisions d in
  let values f := join (L ", ") (List.map f rows) in
  [ OpSub (L "<p>Ludhiana District | Data as of ") "<"%char 1 (L "</p>")
      (format_as_of_date (report_date d));
    OpBetween stats_start stats_end (build_stats_html (totals d));
    OpBetween cards_start cards_end (build_subdivision_cards_html rows);
    OpSub (L "<th>Surveyed (") ")"%char 1 (L ")</th>")
      (format_surveyed_header_date (report_date d));
    OpTbody (build_table_body_html rows (totals d));
    OpArray (L "subdivisions") (values (fun r => quoted (name r)));
    OpArray (L "surveyPercentages")
      (values (fun r => format_2f (survey_percent r)));
    OpArray (L "approvalPercentages")
      (values (fun r => format_2f (approval_percent r)));
    OpArray (L "totalSurveyors") (values (fun r => str_of_Z (total_surveyors r)));
    OpArray (L "inField") (values (fun r => str_of_Z (in_field r)));
    OpArray (L "dailyProgress") (values (fun r => str_of_Z (surveyed_today r)));
    OpSub (L "label: 'Plots Surveyed (") "'"%char 1 (L ")'")
      (format_daily_chart_label (report_date d)) ].

Definition first_atb (m P : str) : bool :=
  bool_decide (find_from m (P ++ m) = Some (length P)).

(** What a region [c] holds between its opening [m] and its closing [suf]. *)
Definition inner (m suf c : str) : str :=
  take (length c - length m - length suf) (drop (length m) c).

Definition shaped (m : str) (e : ascii) (least : nat) (suf c : str) : bool :=
  str_eqb c (m ++ inner m suf c ++ suf)
  && forallb (not_char e) (inner m suf c)
  && (least <=? length (inner m suf c)).

(** The region [c] after the text [P] and before the text [g] is the one the
    operation finds, and it has the form the operation writes. *)
Definition fits (o : op) (P c g : str) : bool :=
  match o with
  | OpSub m e least suf _ => first_atb m P && shaped m e least suf c
  | OpArray n _ => first_atb (array_open n) P
                   && shaped (array_open n) "]"%char 0 (L "];") c
  | OpBetween s e _ =>
      first_atb s P && starts_with s c && first_atb e c && starts_with e g
  | OpTbody _ =>
      first_atb tbody_open P
      && str_eqb c (tbody_open ++ inner tbody_open tbody_close c ++ tbody_close)
      && first_atb tbody_close (tbody_open ++ inner tbody_open tbody_close c)
  end.

(** The replacement is free of backslashes, so that the template is the text
    itself, and the closing text of a pattern holds the excluded character. *)
Definition plain (o : op) : bool :=
  match o with
  | OpSub m e _ suf v =>
      bool_decide (backslash ∉ m ++ v ++ suf) && bool_decide (e ∈ suf)
  | OpArray n v => bool_decide (backslash ∉ array_open n ++ v ++ L "];")
  | _ => true
  end.

(** A document in regions: the text before the first region and, in the
    order of the document, the regions, each with the number of the operation
    that replaces it (counted from 0 in the order of the program) and with the
    text from its end to the next region. *)
Definition placed : Type := nat * (str * str).

(** The text of a region and of what follows it, once the first [done]
    operations have run. *)
Definition region_text (os : list op) (done : nat) (r : placed) : str :=
  let '(k, (c, g)) := r in
  (if (k <? done)%nat then from_option new_region c (os !! k) else c) ++ g.

Definition layout_text (os : list op) (done : nat) (rs : list placed) : str :=
  concat (List.map (region_text os done) rs).

(** The first region of operation [k], between the regions before it and
    those after it. *)
Fixpoint find_region (k : nat) (rs : list placed)
  : option (list placed * (str * str) * list placed) :=
  match rs with
  | [] => None
  | (k', cg) :: rs' =>
      if (k' =? k)%nat then Some ([], cg, rs')
      else (fun '(before, x, after) => ((k', cg) :: before, x, after))
             <$> find_region k rs'
  end.

(** Operation [k] finds its own region in the text as the first [done]
    operations have left it, and is [plain]. *)
Definition fits_at (os : list op) (g0 : str) (rs : list placed)
    (done k : nat) : bool :=
  match os !! k, find_region k rs with
  | Some o, Some (before, (c, g), _) =>
      fits o (g0 ++ layout_text os done before)
        (if (k <? done)%nat then new_region o else c) g
      && plain o
  | _, _ => false
  end.

(** The regions are well placed for the data: no operation has two regions,
    each operation finds its own region when its turn comes, and finds what
    it has written there when all have run. *)
Definition well_placed (d : data) (g0 : str) (rs : list placed) : bool :=
  let os := ops d in
  bool_decide (NoDup (List.map fst rs))
  && forallb (fun k => fits_at os g0 rs k k) (seq 0 (length os))
  && forallb (fun k => fits_at os g0 rs (length os) k) (seq 0 (length os)).

Definition document (g0 : str) (rs : list placed) : str :=
  g0 ++ concat (List.map (fun '(_, (c, g)) => c ++ g) rs).

(** Every anchor of [update_html] occurs in the document. *)
Definition markers_intact (html : str) : bool :=
  let found {A} (x : option A) := bool_decide (is_Some x) in
  found (search as_of_re html)
  && found (find stats_start html 0) && found (find stats_end html 0)
  && found (find cards_start html 0) && found (find cards_end html 0)
  && found (search surveyed_header_re html)
  && found (find tbody_open html 0) && found (find tbody_close html 0)
  && forallb (fun n => found (search (array_re (L n)) html))
       ["subdivisions"; "surveyPercentages"; "approvalPercentages";
        "totalSurveyors"; "inField"; "dailyProgress"]%string
  && found (search daily_label_re html).

(** The record a data row gives the totals, if its key is [total]. *)
Definition row_total (float_repr : pyfloat -> str) (col : gmap str nat)
    (r : row) : option record :=
  match read_row float_repr col r with
  | Ok (Some (key, rec)) => if str_eqb key (L "total") then Some rec else None
  | _ => None
  end.

(** The text of a row in which [detect_header_row] looks for the header
    words. *)
Definition header_text (float_repr : pyfloat -> str) (r : row) : str :=
  join (L " | ")
    (List.filter (fun t => negb (str_eqb t []))
       (List.map (normalize_text float_repr) r)).

(** The characters [normalize_name] keeps. *)
Definition is_alnum (c : ascii) : bool := is_lower c || is_digit c.

(** One step of [digits_val]. *)
Definition digit_step (acc : Z) (c : ascii) : Z := (10 * acc + digit_val c)%Z.

(** The decimal text of a day or a month: one or two digits that denote
    it. *)
Definition short_number (n : Z) : bool :=
  let s := str_of_Z n in
  (1 <=? length s)%nat && (length s <=? 2)%nat && forallb is_digit s
  && (digits_val s =? n)%Z.

(** The two last characters of the decimal text of a year: two digits that
    denote the year within its century. *)
Definition short_year (y : Z) : bool :=
  let s := str_of_Z y in
  let yy := drop (length s - 2) s in
  (length yy =? 2)%nat && forallb is_digit yy
  && (digits_val yy =? y mod 100)%Z.

(** The characters of the numbers and dates the program prints. *)
Definition is_plain_char (c : ascii) : bool :=
  is_letter c || is_digit c || Ascii.eqb c "-"%char || Ascii.eqb c " "%char
  || Ascii.eqb c "."%char || Ascii.eqb c ","%char.

Definition plain_text (s : str) : Prop :=
  Forall (λ c, is_plain_char c = true) s.

Definition is_nl (c : ascii) : bool := Ascii.eqb c (ascii_of_nat 10).

(** A scan for a blank line, two line feeds in a row: nothing when there is
    one, else whether the text ends in a line feed.  [prev] tells whether a
    line feed comes just before the text. *)
Fixpoint scan (prev : bool) (s : str) : option bool :=
  match s with
  | [] => Some prev
  | c :: s' =>
      if is_nl c then (if prev then None else scan true s')
      else scan false s'
  end.

(** One step of a scan for the text [</tb]: [s] characters of it have just
    been read; nothing when [c] completes it. *)
Definition step_tag (s : nat) (c : ascii) : option nat :=
  let restart := if Ascii.eqb c "<"%char then 1 else 0 in
  match s with
  | 0 => Some restart
  | 1 => if Ascii.eqb c "/"%char then Some 2 else Some restart
  | 2 => if Ascii.eqb c "t"%char then Some 3 else Some restart
  | _ => if Ascii.eqb c "b"%char then None else Some restart
  end.

Fixpoint scan_tag (s : nat) (t : str) : option nat :=
  match t with
  | [] => Some s
  | c :: t' => step_tag s c ≫= λ s', scan_tag s' t'
  end.


(** ** Sample inputs *)

Definition sample_repr (x : pyfloat) : str := format_2f x.

Definition sample_header : row :=
  List.map (fun s => CStr (L s))
    ["Sub District / Tehsil Name"; "No. of Uploaded Villages";
     "Uploaded Plots"; "Daily Required Target Plots";
     "Surveyed Plots on 1-3-25"; "Total Surveyed Plots";
     "Percentage of Surveyed plots"; "Approved by Supervisor";
     "Percentage of Approved"; "Total Private Surveyors";
     "Surveyors in fields on 1-3-25"]%string.

Definition sample_zeta : row :=
  [CStr (L "Zeta"); CInt 1; CStr (L "1,500"); CInt 50; CInt 10; CInt 100;
   CStr (L "6.666"); CInt 50; CStr (L "-"); CInt 5; CInt 3].

Definition sample_raikot_old : row :=
  [CStr (L "Raikot"); CInt 2; CInt 400; CInt 40; CInt 8; CInt 80;
   CFloat (Finite 20); CInt 40; CFloat (Finite 50); CInt 4; CInt 2].

Definition sample_khanna : row :=
  [CStr (L "khanna "); CInt 3; CInt 700; CInt 70; CInt 12; CInt 140;
   CFloat (Finite 20); CInt 35; CFloat (Finite 25); CInt 6; CInt 4].

Definition sample_raikot : row :=
  [CStr (L " RAIKOT"); CInt 2; CInt 500; CInt 50; CInt 10; CInt 100;
   CFloat (Finite 20); CInt 50; CFloat (Finite 10); CInt 5; CInt 3].

Definition sample_total : row :=
  [CStr (L "Total"); CInt 2; CInt 500; CInt 50; CInt 10; CInt 100;
   CFloat (Finite 20); CInt 50; CFloat (Finite 10); CInt 5; CInt 3].

(** A sheet without a totals row; Raikot occurs twice. *)
Definition sample_sheet : list row :=
  [[CStr (L "DCS status report"); CNone]; sample_header; sample_zeta;
   sample_raikot_old; sample_khanna; sample_raikot].

(** The sheet of the end-to-end example of the specification. *)
Definition sample_sheet_total : list row :=
  [sample_header; sample_raikot; sample_total].

Definition sample_col : gmap str nat :=
  map_columns_from sample_repr 0 sample_header ∅.

Definition sample_raikot_record : record :=
  Record_ (L "Raikot") 2 500 50 10 100 (Finite 20) 50 (Finite 10) 5 3.

Definition sample_data : data :=
  Data (Date 2025 3 1) [sample_raikot_record] sample_raikot_record.

(** A document with every anchor. *)
Definition sample_html : str :=
  H "<html><p>Ludhiana District | Data as of 1st Jan 2020</p>
    <div class=`stats-grid`>old stats

    <h2 style=`margin: 30px 0 20px 0; padding-left: 10px;`>Sub</h2>
    <div class=`subdivision-grid`>old cards

    <!-- Charts: survey, approval, surveyors, daily progress -->
<th>Surveyed (1-1-20)</th>
            <tbody>
old rows
            </tbody>
<script>
const subdivisions = ['a', 'b'];
const surveyPercentages = [1, 2];
const approvalPercentages = [];
const totalSurveyors = [1];
const inField = [2];
const dailyProgress = [3];
label: 'Plots Surveyed (1st Jan)'
</script></html>".

(** The same document without the three anchors that [re.sub] looks for. *)
Definition sample_html_bare : str :=
  H "<html>
    <div class=`stats-grid`>old stats

    <h2 style=`margin: 30px 0 20px 0; padding-left: 10px;`>Sub</h2>
    <div class=`subdivision-grid`>old cards

    <!-- Charts: survey, approval, surveyors, daily progress -->
            <tbody>
old rows
            </tbody>
<script>
const subdivisions = ['a', 'b'];
const surveyPercentages = [1, 2];
const approvalPercentages = [];
const totalSurveyors = [1];
const inField = [2];
const dailyProgress = [3];
</script></html>".

Definition sample_world (html : str) : world :=
  World ∅ {[L "index.html" := html]} [].

(** The regions of [sample_html]: the text before the first region, then
    each region with the number of its operation and the text that follows
    it. *)
Definition sample_start : str := H "<html>".

Definition sample_regions : list placed :=
  [(0, (H "<p>Ludhiana District | Data as of 1st Jan 2020</p>",
        H "
"));
   (1, (H "    <div class=`stats-grid`>old stats",
        H "

    <h2 style=`margin: 30px 0 20px 0; padding-left: 10px;`>Sub</h2>
"));
   (2, (H "    <div class=`subdivision-grid`>old cards",
        H "

    <!-- Charts: survey, approval, surveyors, daily progress -->
"));
   (3, (H "<th>Surveyed (1-1-20)</th>",
        H "
"));
   (4, (H "            <tbody>
old rows
            </tbody>",
        H "
<script>
"));
   (5, (H "const subdivisions = ['a', 'b'];",
        H "
"));
   (6, (H "const surveyPercentages = [1, 2];",
        H "
"));
   (7, (H "const approvalPercentages = [];",
        H "
"));
   (8, (H "const totalSurveyors = [1];",
        H "
"));
   (9, (H "const inField = [2];",
        H "
"));
   (10, (H "const dailyProgress = [3];",
        H "
"));
   (11, (H "label: 'Plots Surveyed (1st Jan)'",
        H "
</script></html>"))].

(** [sample_html] with the label of the chart before the arrays, which the
    program substitutes after them. *)
Definition sample_html_label_first : str :=
  H "<html><p>Ludhiana District | Data as of 1st Jan 2020</p>
    <div class=`stats-grid`>old stats

    <h2 style=`margin: 30px 0 20px 0; padding-left: 10px;`>Sub</h2>
    <div class=`subdivision-grid`>old cards

    <!-- Charts: survey, approval, surveyors, daily progress -->
<th>Surveyed (1-1-20)</th>
            <tbody>
old rows
            </tbody>
<script>
label: 'Plots Surveyed (1st Jan)'
const subdivisions = ['a', 'b'];
const surveyPercentages = [1, 2];
const approvalPercentages = [];
const totalSurveyors = [1];
const inField = [2];
const dailyProgress = [3];
</script></html>".

Definition sample_regions_label_first : list placed :=
  [(0, (H "<p>Ludhiana District | Data as of 1st Jan 2020</p>",
        H "
"));
   (1, (H "    <div class=`stats-grid`>old stats",
        H "

    <h2 style=`margin: 30px 0 20px 0; padding-left: 10px;`>Sub</h2>
"));
   (2, (H "    <div class=`subdivision-grid`>old cards",
        H "

    <!-- Charts: survey, approval, surveyors, daily progress -->
"));
   (3, (H "<th>Surveyed (1-1-20)</th>",
        H "
"));
   (4, (H "            <tbody>
old rows
            </tbody>",
        H "
<script>
"));
   (11, (H "label: 'Plots Surveyed (1st Jan)'",
        H "
"));
   (5, (H "const subdivisions = ['a', 'b'];",
        H "
"));
   (6, (H "const surveyPercentages = [1, 2];",
        H "
"));
   (7, (H "const approvalPercentages = [];",
        H "
"));
   (8, (H "const totalSurveyors = [1];",
        H "
"));
   (9, (H "const inField = [2];",
        H "
"));
   (10, (H "const dailyProgress = [3];",
        H "
</script></html>"))].

(** A document with every anchor and a second as-of line; the first one lies
    between the markers of the summary cards. *)
Definition sample_html_two_dates : str :=
  H "<html>
    <div class=`stats-grid`><p>Ludhiana District | Data as of 1st Jan 2020</p>

    <h2 style=`margin: 30px 0 20px 0; padding-left: 10px;`>Sub</h2>
<p>Ludhiana District | Data as of 2nd Jan 2020</p>
    <div class=`subdivision-grid`>old cards

    <!-- Charts: survey, approval, surveyors, daily progress -->
<th>Surveyed (1-1-20)</th>
            <tbody>
old rows
            </tbody>
<script>
const subdivisions = ['a', 'b'];
const surveyPercentages = [1, 2];
const approvalPercentages = [];
const totalSurveyors = [1];
const inField = [2];
const dailyProgress = [3];
label: 'Plots Surveyed (1st Jan)'
</script></html>".

Definition sample_payal : row :=
  [CStr (L "Payal"); CInt 1; CInt 160; CInt 16; CInt 4; CInt 23;
   CStr (L "14.375"); CInt 7; CFloat (Finite 30); CInt 2; CInt 1].

(** A sheet without a totals row in which 23 of 160 plots are surveyed:
    14.375 per cent before the operations on floats round. *)
Definition sample_sheet_near_tie : list row := [sample_header; sample_payal].

(** A sheet whose totals row does not hold the sums of the rows above it. *)
Definition sample_sheet_stale_total : list row :=
  [sample_header; sample_raikot; sample_khanna; sample_total].

Definition sample_zeta_late : row :=
  [CStr (L "Zeta"); CInt 1; CInt 1600; CInt 50; CInt 20; CInt 120;
   CFloat (Finite 7); CInt 60; CFloat (Finite 50); CInt 5; CInt 4].

(** A sheet in which a name outside the canonical ones occurs twice. *)
Definition sample_sheet_twice : list row :=
  [sample_header; sample_zeta; sample_raikot; sample_zeta_late].

(** * Properties *)

Arguments join : simpl never.
Arguments L : simpl never.
Arguments H : simpl never.

(** ** Numeric coercion *)

Lemma round_half_even_close (q : Q) :
  (Qabs (q - inject_Z (round_half_even q)) <= 1 # 2)%Q.
Proof.
  unfold round_half_even.
  pose proof (Qfloor_le q) as Hlo.
  pose proof (Qlt_floor q) as Hhi.
  set (f := Qfloor q) in *.
  rewrite inject_Z_plus in Hhi. change (inject_Z 1) with 1%Q in Hhi.
  apply Qabs_Qle_condition.
  destruct (q - inject_Z f ?= 1 # 2)%Q eqn:E.
  - apply Qeq_alt in E.
    destruct (Z.even f); rewrite ?inject_Z_plus;
      change (inject_Z 1) with 1%Q; split; lra.
  - apply Qlt_alt in E. split; lra.
  - apply Qgt_alt in E. rewrite inject_Z_plus.
    change (inject_Z 1) with 1%Q. split; lra.
Qed.

Lemma round2_q_hundredths (q : Q) :
  ∃ h : Z, (round2_q q == h # 100)%Q ∧ (Qabs (q * 100 - inject_Z h) <= 1 # 2)%Q.
Proof.
  exists (round_half_even (q * 100)). split.
  - unfold round2_q. apply Qred_correct.
  - apply round_half_even_close.
Qed.

Lemma parse_number_text_numeric (s : str) (x : pyfloat) :
  float_of_str (remove_char ","%char (strip s)) = Ok x → parse_number_text s = Ok x.
Proof.
  unfold parse_number_text.  intros Hf.
  destruct (str_eqb (remove_char ","%char (strip s)) []) eqn:E1.
  { apply bool_decide_eq_true in E1. rewrite E1 in Hf. discriminate. }
  destruct (str_eqb (remove_char ","%char (strip s)) (L "-")) eqn:E2.
  { apply bool_decide_eq_true in E2. rewrite E2 in Hf. discriminate. }
  simpl. by rewrite Hf.
Qed.

(** C6, at inputs where it fails: [float] reads the texts [nan] and [inf] as
    numbers, so they are not coerced to 0: the percentage is NaN or an
    infinity, and the integer coercion raises. *)
Theorem non_finite_text_is_not_zero :
  parse_number (CStr (L "nan")) = Ok NaN
  ∧ to_percent (CStr (L "nan")) = Ok NaN
  ∧ to_int (CStr (L "nan")) = Raise ValueError
  ∧ to_percent (CStr (L "-inf")) = Ok (Inf true)
  ∧ to_int (CStr (L "Infinity")) = Raise OverflowError.
Proof. repeat split; vm_compute; reflexivity. Qed.

(** C10, at inputs where it fails: the texts [NaN] and [inf] are numbers for
    [float], and [int(round(...))] raises on them. *)
Theorem to_int_raises_on_inf_nan :
  to_int (CStr (L "NaN")) = Raise ValueError
  ∧ to_int (CStr (L "inf")) = Raise OverflowError
  ∧ to_int (CStr (L "1e999")) = Raise OverflowError
  ∧ to_int (CFloat NaN) = Raise ValueError.
Proof. repeat split; vm_compute; reflexivity. Qed.

(** ** Formatting *)

Lemma join_snoc (sep : str) (l : list str) (x : str) :
  l ≠ [] → join sep (l ++ [x]) = join sep l ++ sep ++ x.
Proof.
  induction l as [|a l IH]; [done|]. intros _.
  destruct l as [|b l].
  - reflexivity.
  - change (join sep ((a :: b :: l) ++ [x]))
      with (a ++ sep ++ join sep ((b :: l) ++ [x])).
    rewrite IH by done.
    change (join sep (a :: b :: l)) with (a ++ sep ++ join sep (b :: l)).
    by rewrite <- !app_assoc.
Qed.

Lemma group_pairs_spec (fuel : nat) (head : str) (parts : list str) :
  length head ≤ fuel →
  ∃ h new,
    group_pairs fuel head parts = Some (h, parts ++ new)
    ∧ h ++ concat (rev new) = head
    ∧ Forall (λ g, length g = 2) new
    ∧ length h ≤ 2
    ∧ (head ≠ [] → h ≠ []).
Proof.
  revert head parts.
  induction fuel as [|fuel IH]; intros head parts Hlen.
  - destruct head; [|simpl in Hlen; lia].
    exists [], []. simpl. rewrite app_nil_r. repeat split; auto.
  - simpl. destruct (2 <? length head) eqn:E.
    + apply Nat.ltb_lt in E.
      destruct (IH (take (length head - 2) head)
                  (parts ++ [drop (length head - 2) head]))
        as (h & new & Hg & Hcat & Hall & Hh & Hne).
      { rewrite length_take. lia. }
      exists h, (drop (length head - 2) head :: new).
      rewrite Hg. split.
      { by rewrite <- app_assoc. }
      split.
      { simpl. rewrite concat_app. simpl. rewrite app_nil_r, app_assoc, Hcat.
        apply take_drop. }
      split.
      { constructor; [|done]. rewrite length_drop. lia. }
      split; [done|].
      intros _. apply Hne. intros Hnil.
      apply (f_equal length) in Hnil. rewrite length_take in Hnil.
      simpl in Hnil. lia.
    + apply Nat.ltb_ge in E. exists head, [].
      simpl. rewrite !app_nil_r. repeat split; auto.
Qed.

Lemma format_indian_number_groups (n : Z) :
  ∃ front last3,
    format_indian_number n = (if (n <? 0)%Z then L "-" else []) ++ join (L ",") (front ++ [last3])
    ∧ concat front ++ last3 = str_of_Z (Z.abs n)
    ∧ (length last3 = 3 ∨ front = [] ∧ length last3 ≤ 3)
    ∧ (∀ g, head front = Some g → 1 ≤ length g ≤ 2)
    ∧ Forall (λ g, length g = 2) (tail front).
Proof.
  unfold format_indian_number.
  set (s := str_of_Z (Z.abs n)).
  destruct (length s <=? 3) eqn:E.
  - apply Nat.leb_le in E. exists [], s. simpl.
    repeat split; auto; discriminate.
  - apply Nat.leb_gt in E.
    set (hd := take (length s - 3) s).
    destruct (group_pairs_spec (length hd) hd [] (le_n _))
      as (h & new & Hg & Hcat & Hall & Hh & Hne).
    rewrite Hg. rewrite app_nil_l.
    assert (Hhd : hd ≠ []).
    { intros Hnil. apply (f_equal length) in Hnil.
      unfold hd in Hnil. rewrite length_take in Hnil. simpl in Hnil. lia. }
    specialize (Hne Hhd).
    exists (h :: rev new), (drop (length s - 3) s).
    destruct h as [|c h]; [done|].
    rewrite rev_app_distr. simpl rev. simpl app at 2.
    rewrite join_snoc by done.
    split; [by rewrite <- ?app_assoc|].
    split.
    { change (concat ((c :: h) :: rev new)) with ((c :: h) ++ concat (rev new)).
      rewrite Hcat. apply take_drop. }
    split.
    { left. rewrite length_drop. lia. }
    split.
    { intros g [= <-]. simpl in *. lia. }
    simpl. by apply Forall_rev.
Qed.

Lemma format_indian_number_neg (n : Z) :
  (n < 0)%Z → format_indian_number n = L "-" ++ format_indian_number (- n).
Proof.
  intros Hn. unfold format_indian_number.
  rewrite Z.abs_opp.
  destruct (n <? 0)%Z eqn:E1; [|lia].
  destruct (- n <? 0)%Z eqn:E2; [lia|].
  destruct (length (str_of_Z (Z.abs n)) <=? 3); [reflexivity|].
  destruct (group_pairs_spec (length (take (length (str_of_Z (Z.abs n)) - 3) (str_of_Z (Z.abs n))))
     (take (length (str_of_Z (Z.abs n)) - 3) (str_of_Z (Z.abs n))) [] (le_n _))
      as (h & new & -> & _).
  reflexivity.
Qed.

(** C7.  The five examples; the digits of the absolute value are cut into a
    last group of three and, before it, groups of two of which only the first
    may have one digit, joined by commas; a negative number has the grouping
    of its absolute value after a minus sign. *)
Theorem format_indian_number_grouping :
  format_indian_number 0 = L "0"
  ∧ format_indian_number 999 = L "999"
  ∧ format_indian_number 1000 = L "1,000"
  ∧ format_indian_number 100000 = L "1,00,000"
  ∧ format_indian_number 1234567 = L "12,34,567"
  ∧ (∀ n, ∃ front last3,
       format_indian_number n
       = (if (n <? 0)%Z then L "-" else []) ++ join (L ",") (front ++ [last3])
       ∧ concat front ++ last3 = str_of_Z (Z.abs n)
       ∧ (length last3 = 3 ∨ front = [] ∧ length last3 ≤ 3)
       ∧ (∀ g, head front = Some g → 1 ≤ length g ≤ 2)
       ∧ Forall (λ g, length g = 2) (tail front))
  ∧ (∀ n, (n < 0)%Z →
       format_indian_number n = L "-" ++ format_indian_number (Z.abs n)).
Proof.
  do 5 (split; [vm_compute; reflexivity|]).
  split; [exact format_indian_number_groups|].
  intros n Hn. rewrite Z.abs_neq by lia. by apply format_indian_number_neg.
Qed.

Lemma format_indian_number_grouping_witness :
  format_indian_number (-1234567) = L "-" ++ format_indian_number 1234567.
Proof.
  destruct format_indian_number_grouping as (_ & _ & _ & _ & _ & _ & Hneg).
  apply (Hneg (-1234567)%Z). lia.
Defined.

Lemma ordinal_suffix_teens (n : Z) :
  (11 <= n <= 20)%Z → ordinal_suffix n = L "th".
Proof.
  intros Hn. unfold ordinal_suffix.
  rewrite (Z.mod_small n 100) by lia.
  destruct (10 <=? n)%Z eqn:E1; [|lia].
  destruct (n <=? 20)%Z eqn:E2; [|lia]. reflexivity.
Qed.

Lemma ordinal_suffix_other (n : Z) :
  (1 <= n <= 31)%Z → ¬ (11 <= n <= 20)%Z →
  ordinal_suffix n =
    if (n mod 10 =? 1)%Z then L "st"
    else if (n mod 10 =? 2)%Z then L "nd"
    else if (n mod 10 =? 3)%Z then L "rd"
    else L "th".
Proof.
  intros Hn Ht. unfold ordinal_suffix.
  rewrite (Z.mod_small n 100) by lia.
  destruct (10 <=? n)%Z eqn:E1, (n <=? 20)%Z eqn:E2; simpl; try reflexivity.
  assert (n = 10)%Z as -> by lia. reflexivity.
Qed.

(** C8.  [ordinal] appends a suffix to the number: [th] for 11 to 20, and
    for any other day of the month [st], [nd] or [rd] when the last digit is
    1, 2 or 3 and [th] otherwise; with the seven examples of the
    specification. *)
Theorem ordinal_rule :
  (∀ n, ordinal n = str_of_Z n ++ ordinal_suffix n) ∧
  (∀ n, (11 <= n <= 20)%Z → ordinal_suffix n = L "th") ∧
  (∀ n, (1 <= n <= 31)%Z → ¬ (11 <= n <= 20)%Z →
     ((n mod 10 = 1)%Z → ordinal_suffix n = L "st") ∧
     ((n mod 10 = 2)%Z → ordinal_suffix n = L "nd") ∧
     ((n mod 10 = 3)%Z → ordinal_suffix n = L "rd") ∧
     ((n mod 10 ≠ 1)%Z → (n mod 10 ≠ 2)%Z → (n mod 10 ≠ 3)%Z →
        ordinal_suffix n = L "th")) ∧
  ordinal 1 = L "1st" ∧ ordinal 2 = L "2nd" ∧ ordinal 3 = L "3rd" ∧
  ordinal 4 = L "4th" ∧ ordinal 11 = L "11th" ∧ ordinal 12 = L "12th" ∧
  ordinal 21 = L "21st".
Proof.
  split; [reflexivity|].
  split; [exact ordinal_suffix_teens|].
  split; [|repeat split; reflexivity].
  intros n Hn Ht. rewrite (ordinal_suffix_other n Hn Ht).
  repeat split.
  - intros ->. reflexivity.
  - intros ->. reflexivity.
  - intros ->. reflexivity.
  - intros H1 H2 H3.
    destruct (n mod 10 =? 1)%Z eqn:E1; [lia|].
    destruct (n mod 10 =? 2)%Z eqn:E2; [lia|].
    destruct (n mod 10 =? 3)%Z eqn:E3; [lia|]. reflexivity.
Qed.

Lemma ordinal_rule_witness :
  ordinal_suffix 12 = L "th" ∧ ordinal_suffix 23 = L "rd".
Proof.
  destruct ordinal_rule as (_ & Hteens & Hother & _).
  split.
  - apply Hteens. lia.
  - destruct (Hother 23%Z) as (_ & _ & Hrd & _); [lia | lia |].
    apply Hrd. reflexivity.
Defined.

(** ** Extraction *)

(** *** The result monad *)

Lemma bind_Ok {A B} (m : result A) (f : A → result B) (b : B) :
  m ≫= f = Ok b → ∃ a, m = Ok a ∧ f a = Ok b.
Proof. destruct m as [a|e]; [|done]. intros Hf. by exists a. Qed.

Lemma fmap_Ok {A B} (m : result A) (f : A → B) (b : B) :
  f <$> m = Ok b → ∃ a, m = Ok a ∧ f a = b.
Proof. destruct m as [a|e]; [|done]. intros [= <-]. by exists a. Qed.

(** *** Sorting by name *)

Lemma str_ltb_asym (a b : str) : str_ltb a b = true → str_ltb b a = false.
Proof.
  revert b. induction a as [|x a IH]; intros [|y b]; simpl; try done.
  destruct (code x <? code y)%N eqn:E1, (code y <? code x)%N eqn:E2; try done.
  - apply N.ltb_lt in E1, E2. lia.
  - apply IH.
Qed.


Lemma insert_sorted_perm (x : record) (l : list record) :
  Permutation (insert_sorted x l) (x :: l).
Proof.
  induction l as [|y l IH]; simpl; [done|].
  destruct (str_ltb (name x) (name y)); [done|].
  rewrite IH. apply perm_swap.
Qed.

Lemma insert_sorted_sorted (x : record) (l : list record) :
  Sorted name_le l → Sorted name_le (insert_sorted x l).
Proof.
  induction l as [|y l IH]; simpl; intros Hs.
  - repeat constructor.
  - destruct (str_ltb (name x) (name y)) eqn:E.
    + constructor; [done|]. constructor. unfold name_le, str_leb.
      by rewrite (str_ltb_asym _ _ E).
    + apply Sorted_inv in Hs as [Hs Hhd]. constructor; [by apply IH|].
      destruct l as [|z l]; simpl.
      * constructor. unfold name_le, str_leb. by rewrite E.
      * destruct (str_ltb (name x) (name z)).
        -- constructor. unfold name_le, str_leb. by rewrite E.
        -- constructor. by apply HdRel_inv in Hhd.
Qed.

Lemma sort_by_name_spec (l : list record) :
  Permutation (sort_by_name l) l ∧ Sorted name_le (sort_by_name l).
Proof.
  unfold sort_by_name.
  enough (H : ∀ acc, Sorted name_le acc →
            Permutation (fold_left (λ acc x, insert_sorted x acc) l acc) (l ++ acc)
            ∧ Sorted name_le (fold_left (λ acc x, insert_sorted x acc) l acc)).
  { destruct (H [] (Sorted_nil _)) as [Hp Hs]. by rewrite app_nil_r in Hp. }
  induction l as [|x l IH]; intros acc Hacc; simpl; [done|].
  destruct (IH (insert_sorted x acc) (insert_sorted_sorted x acc Hacc))
    as [Hp Hs].
  split; [|done]. rewrite Hp, insert_sorted_perm.
  by rewrite Permutation_middle.
Qed.

(** *** The name index *)

Lemma index_by_name_fold (subs : list record) (m : gmap str record) (n : str) :
  fold_left (λ m r, <[name r := r]> m) subs m !! n
  = match last (filter (λ r, name r = n) subs) with
    | Some r => Some r
    | None => m !! n
    end.
Proof.
  revert m. induction subs as [|x subs IH]; intros m; simpl; [done|].
  rewrite IH. rewrite filter_cons.
  destruct (decide (name x = n)) as [Hx|Hx].
  - rewrite last_cons.
    destruct (last (filter (λ r, name r = n) subs)); [done|].
    by rewrite <- Hx, lookup_insert_eq.
  - destruct (last (filter (λ r, name r = n) subs)); [done|].
    by rewrite lookup_insert_ne.
Qed.

Lemma index_by_name_lookup (subs : list record) (n : str) :
  index_by_name subs !! n = last (filter (λ r, name r = n) subs).
Proof.
  unfold index_by_name. rewrite index_by_name_fold.
  by destruct (last _).
Qed.

Lemma index_by_name_Some (subs : list record) (n : str) (r : record) :
  index_by_name subs !! n = Some r → name r = n ∧ r ∈ subs.
Proof.
  rewrite index_by_name_lookup. intros Hl.
  apply last_Some_elem_of in Hl. by apply list_elem_of_filter in Hl.
Qed.

Lemma index_by_name_None (subs : list record) (n : str) :
  index_by_name subs !! n = None ↔ n ∉ List.map name subs.
Proof.
  rewrite index_by_name_lookup, last_None. split.
  - intros Hf Hin. apply list_elem_of_In, in_map_iff in Hin as (r & Hr & Hin).
    assert (r ∈ filter (λ r, name r = n) subs) as Hin'.
    { apply list_elem_of_filter. split; [done|]. by apply list_elem_of_In. }
    rewrite Hf in Hin'. by apply not_elem_of_nil in Hin'.
  - intros Hn. destruct (filter (λ r, name r = n) subs) as [|r l] eqn:E; [done|].
    exfalso. apply Hn.
    assert (r ∈ filter (λ r, name r = n) subs) as Hin by (rewrite E; left).
    apply list_elem_of_filter in Hin as [<- Hin].
    apply list_elem_of_In, in_map. by apply list_elem_of_In.
Qed.

Lemma ordered_names_gen (subs : list record) (ns : list str) :
  List.map name (omap (λ n, index_by_name subs !! n) ns)
  = filter (λ n, n ∈ List.map name subs) ns.
Proof.
  induction ns as [|n ns IH]; simpl; [done|].
  rewrite filter_cons.
  destruct (index_by_name subs !! n) as [r|] eqn:E.
  - apply index_by_name_Some in E as E'. destruct E' as [Hn Hin].
    rewrite decide_True.
    + rewrite <- IH. simpl. by rewrite Hn.
    + rewrite <- Hn. apply list_elem_of_In, in_map. by apply list_elem_of_In.
  - apply index_by_name_None in E. rewrite decide_False by done. by rewrite <- IH.
Qed.

Lemma ordered_filter_gen (subs : list record) (ns : list str) (n : str) :
  NoDup ns → n ∈ ns →
  filter (λ x, name x = n) (omap (λ n, index_by_name subs !! n) ns)
  = option_list (index_by_name subs !! n).
Proof.
  assert (Hout : ∀ ms, n ∉ ms →
    filter (λ x, name x = n) (omap (λ n, index_by_name subs !! n) ms) = []).
  { induction ms as [|m ms IH]; intros Hn; simpl; [done|].
    apply not_elem_of_cons in Hn as [Hne Hn].
    destruct (index_by_name subs !! m) as [r|] eqn:E; [|by apply IH].
    apply index_by_name_Some in E as [Hr _].
    rewrite filter_cons, decide_False by congruence. by apply IH. }
  induction ns as [|m ns IH]; intros Hnd Hin; [by apply elem_of_nil in Hin|].
  apply NoDup_cons in Hnd as [Hm Hnd]. simpl.
  destruct (decide (m = n)) as [->|Hne].
  - destruct (index_by_name subs !! n) as [r|] eqn:E.
    + apply index_by_name_Some in E as [Hr _].
      rewrite filter_cons, decide_True by done. by rewrite Hout.
    + by rewrite Hout.
  - apply elem_of_cons in Hin as [?|Hin]; [congruence|].
    destruct (index_by_name subs !! m) as [r|] eqn:E; [|by apply IH].
    apply index_by_name_Some in E as [Hr _].
    rewrite filter_cons, decide_False by congruence. by apply IH.
Qed.

Lemma CANONICAL_ORDER_NoDup : NoDup CANONICAL_ORDER.
Proof. apply (bool_decide_unpack (NoDup CANONICAL_ORDER)). vm_compute. exact I. Qed.

Lemma is_canonical_true (n : str) : is_canonical n = true ↔ n ∈ CANONICAL_ORDER.
Proof. unfold is_canonical. apply bool_decide_eq_true. Qed.

Lemma ordered_part_canonical (subs : list record) (r : record) :
  r ∈ ordered_part subs → name r ∈ CANONICAL_ORDER ∧ r ∈ subs.
Proof.
  unfold ordered_part. intros Hin.
  apply list_elem_of_omap in Hin as (n & Hn & Hl).
  apply index_by_name_Some in Hl as [<- Hr]. done.
Qed.

Lemma extras_part_perm (subs : list record) :
  Permutation (extras_part subs)
    (List.filter (fun r => negb (is_canonical (name r))) subs).
Proof. apply sort_by_name_spec. Qed.

Lemma extras_part_not_canonical (subs : list record) (r : record) :
  r ∈ extras_part subs → (name r ∉ CANONICAL_ORDER) ∧ r ∈ subs.
Proof.
  intros Hin. rewrite extras_part_perm in Hin.
  apply list_elem_of_In, filter_In in Hin as [Hin Hc].
  split; [|by apply list_elem_of_In].
  apply negb_true_iff in Hc. intros Hn. apply is_canonical_true in Hn. congruence.
Qed.

Lemma sum_of_foldr (f : record → Z) (l : list record) :
  sum_of f l = foldr (λ r acc, (f r + acc)%Z) 0%Z l.
Proof.
  unfold sum_of.
  enough (H : ∀ a, fold_left (λ acc r, (acc + f r)%Z) l a
                   = (a + foldr (λ r acc, (f r + acc)%Z) 0%Z l)%Z).
  { rewrite H. lia. }
  induction l as [|x l IH]; intros a; simpl; [lia|]. rewrite IH. lia.
Qed.

Section Rows.
Variable float_repr : pyfloat → str.


Lemma read_rows_subs col rs subs0 tot0 subs tot :
  read_rows float_repr col rs subs0 tot0 = Ok (subs, tot) →
  subs = subs0 ++ omap (row_record float_repr col) rs.
Proof.
  revert subs0 tot0. induction rs as [|r rs IH]; intros subs0 tot0; simpl.
  - intros [= <- <-]. by rewrite app_nil_r.
  - intros Hb. apply bind_Ok in Hb as (x & Hx & Hk).
    unfold row_record at 1. rewrite Hx.
    destruct x as [[key rec]|]; [|by apply IH in Hk].
    destruct (str_eqb key (L "total")); [by apply IH in Hk|].
    apply IH in Hk. by rewrite <- app_assoc in Hk.
Qed.

Lemma read_rows_no_total col rs subs0 subs tot :
  (∀ r key rec, r ∈ rs → read_row float_repr col r = Ok (Some (key, rec)) →
     key ≠ L "total") →
  read_rows float_repr col rs subs0 None = Ok (subs, tot) → tot = None.
Proof.
  revert subs0. induction rs as [|r rs IH]; intros subs0 Hno; simpl.
  - by intros [= <- <-].
  - intros Hb. apply bind_Ok in Hb as (x & Hx & Hk).
    assert (Hno' : ∀ r key rec, r ∈ rs →
      read_row float_repr col r = Ok (Some (key, rec)) → key ≠ L "total").
    { intros r' key rec Hin. apply Hno. by right. }
    destruct x as [[key rec]|]; [|by apply IH in Hk].
    destruct (str_eqb key (L "total")) eqn:E.
    + apply bool_decide_eq_true in E. exfalso.
      apply (Hno r key rec); [left|done|done].
    + by apply IH in Hk.
Qed.

Lemma read_excel_data_inv rows out :
  read_excel_data float_repr rows = Ok out →
  ∃ header_idx header_row col subs tot,
    detect_header_row float_repr rows = Ok header_idx
    ∧ row_get rows header_idx = Ok header_row
    ∧ map_columns float_repr header_row = Ok col
    ∧ read_rows float_repr col (drop (S header_idx) rows) [] None = Ok (subs, tot)
    ∧ subs ≠ []
    ∧ subdivisions out = ordered_part subs ++ extras_part subs
    ∧ match tot with
      | Some t => totals out = t
      | None => compute_totals (subdivisions out) = Ok (totals out)
      end.
Proof.
  unfold read_excel_data. intros H.
  apply bind_Ok in H as (header_idx & Hh & H).
  apply bind_Ok in H as (header_row & Hr & H).
  apply bind_Ok in H as (col & Hc & H).
  apply bind_Ok in H as (d & Hd & H).
  apply bind_Ok in H as ([subs tot] & Hs & H).
  exists header_idx, header_row, col, subs, tot.
  destruct subs as [|s subs]; [done|].
  apply bind_Ok in H as (t & Ht & H). injection H as <-. simpl.
  repeat split; try done.
  destruct tot as [t'|]; [by injection Ht|done].
Qed.

End Rows.

Lemma filter_all {A} (P : A → Prop) `{∀ x, Decision (P x)} (l : list A) :
  (∀ x, x ∈ l → P x) → filter P l = l.
Proof.
  induction l as [|x l IH]; intros Hall; [done|].
  rewrite filter_cons_True by (apply Hall; left).
  f_equal. apply IH. intros y Hy. apply Hall. by right.
Qed.

Lemma filter_none {A} (P : A → Prop) `{∀ x, Decision (P x)} (l : list A) :
  (∀ x, x ∈ l → ¬ P x) → filter P l = [].
Proof.
  induction l as [|x l IH]; intros Hall; [done|].
  rewrite filter_cons_False by (apply Hall; left).
  apply IH. intros y Hy. apply Hall. by right.
Qed.

Lemma arranged_names (subs : list record) (n : str) :
  n ∈ List.map name (ordered_part subs ++ extras_part subs)
  ↔ n ∈ List.map name subs.
Proof.
  rewrite !list_elem_of_In, !in_map_iff. split.
  - intros (r & Hr & Hin). exists r. split; [done|].
    apply list_elem_of_In in Hin. apply list_elem_of_In.
    apply elem_of_app in Hin as [Hin|Hin].
    + by apply ordered_part_canonical in Hin as [_ ?].
    + by apply extras_part_not_canonical in Hin as [_ ?].
  - intros (r & Hr & Hin).
    destruct (decide (n ∈ CANONICAL_ORDER)) as [Hc|Hc].
    + destruct (index_by_name subs !! n) as [r'|] eqn:E.
      * destruct (index_by_name_Some _ _ _ E) as [Hn' _].
        exists r'. split; [done|].
        apply list_elem_of_In, elem_of_app. left. unfold ordered_part.
        apply list_elem_of_omap. by exists n.
      * apply index_by_name_None in E. exfalso. apply E.
        rewrite <- Hr. apply list_elem_of_In, in_map. done.
    + exists r. split; [done|].
      apply list_elem_of_In, elem_of_app. right.
      rewrite extras_part_perm.
      apply list_elem_of_In, filter_In. split; [done|].
      apply negb_true_iff. destruct (is_canonical (name r)) eqn:E; [|done].
      apply is_canonical_true in E. congruence.
Qed.

(** The subdivisions, as [read_excel_data] arranges the records [subs] read in
    row order. *)
Lemma arranged_split (subs : list record) :
  let out := ordered_part subs ++ extras_part subs in
  filter (λ r, name r ∈ CANONICAL_ORDER) out = ordered_part subs
  ∧ filter (λ r, name r ∉ CANONICAL_ORDER) out = extras_part subs.
Proof.
  simpl. rewrite !filter_app. split.
  - rewrite filter_all, filter_none.
    + apply app_nil_r.
    + intros r Hr Hc. by apply extras_part_not_canonical in Hr as [Hn _].
    + intros r Hr. by apply ordered_part_canonical in Hr as [Hn _].
  - rewrite filter_none, filter_all.
    + done.
    + intros r Hr. by apply extras_part_not_canonical in Hr as [Hn _].
    + intros r Hr Hc. by apply ordered_part_canonical in Hr as [Hn _].
Qed.

Lemma space_not_alnum (c : ascii) :
  is_space c = true → is_lower (lower_char c) || is_digit (lower_char c) = false.
Proof. destruct c as [[] [] [] [] [] [] [] []]; vm_compute; congruence. Qed.

Lemma normalize_name_lstrip (s : str) :
  normalize_name (lstrip s) = normalize_name s.
Proof.
  unfold normalize_name, lower. induction s as [|c s IH]; [done|].
  simpl. destruct (is_space c) eqn:E; [|done].
  by rewrite (space_not_alnum c E).
Qed.

Lemma normalize_name_strip (s : str) :
  normalize_name (strip s) = normalize_name s.
Proof.
  unfold strip, rstrip. rewrite <- (normalize_name_lstrip s).
  generalize (lstrip s). intros t.
  unfold normalize_name, lower.
  rewrite List.map_rev, List.filter_rev.
  fold (lower (lstrip (rev t))). fold (normalize_name (lstrip (rev t))).
  rewrite normalize_name_lstrip. unfold normalize_name, lower.
  by rewrite List.map_rev, List.filter_rev, rev_involutive.
Qed.

Lemma canonical_name_not_total (raw : str) :
  display_name raw ∈ CANONICAL_ORDER → normalize_name raw ≠ L "total".
Proof.
  unfold display_name. intros Hin Hk. rewrite Hk in Hin.
  change (DISPLAY_NAME_MAP !! L "total") with (@None str) in Hin. simpl in Hin.
  rewrite <- normalize_name_strip in Hk.
  unfold CANONICAL_ORDER in Hin.
  repeat (apply elem_of_cons in Hin as [Hin|Hin];
          [rewrite Hin in Hk; vm_compute in Hk; discriminate|]).
  by apply elem_of_nil in Hin.
Qed.

Ltac inv_bind H :=
  repeat match type of H with
         | _ ≫= _ = Ok _ =>
             let x := fresh "x" in
             let Hx := fresh "Hx" in
             apply bind_Ok in H as (x & Hx & H)
         end.

Lemma percent_of_spec (a b : Z) (p : pyfloat) :
  percent_of a b = Ok p →
  (b = 0%Z → p = Finite 0)
  ∧ (b ≠ 0%Z → ∃ x, true_div a b = Ok x ∧ p = round2 (float_mul_int x 100)).
Proof.
  unfold percent_of. destruct (b =? 0)%Z eqn:E.
  - apply Z.eqb_eq in E. intros [= <-]. split; [done|lia].
  - apply Z.eqb_neq in E. intros Hb. apply bind_Ok in Hb as (x & Hx & [= <-]).
    split; [lia|]. intros _. by exists x.
Qed.

Section Extraction.
Variable float_repr : pyfloat → str.

Lemma read_row_Some col r key rec :
  read_row float_repr col r = Ok (Some (key, rec)) →
  ∃ raw, key = normalize_name raw ∧ name rec = display_name raw.
Proof.
  unfold read_row. intros Hr. apply bind_Ok in Hr as (name_idx & _ & Hr).
  set (name_cell := if name_idx <? length r
                    then default CNone (r !! name_idx) else CNone) in Hr.
  exists (strip (py_str float_repr name_cell)).
  destruct name_cell; [done|..];
    (destruct (str_eqb _ []); [done|]);
    inv_bind Hr; by injection Hr as <- <-.
Qed.


Lemma known_names rows out :
  read_excel_data float_repr rows = Ok out →
  subdivisions out
  = filter (λ r, name r ∈ CANONICAL_ORDER) (subdivisions out)
    ++ filter (λ r, name r ∉ CANONICAL_ORDER) (subdivisions out)
  ∧ List.map name (filter (λ r, name r ∈ CANONICAL_ORDER) (subdivisions out))
    = filter (λ n, n ∈ List.map name (subdivisions out)) CANONICAL_ORDER
  ∧ Sorted name_le
      (filter (λ r, name r ∉ CANONICAL_ORDER) (subdivisions out)).
Proof.
  intros Hout.
  apply read_excel_data_inv in Hout
    as (hi & hr & c & subs & tot & _ & _ & _ & _ & _ & Hsubs & _).
  rewrite Hsubs.
  destruct (arranged_split subs) as [-> ->].
  split; [done|]. split.
  - unfold ordered_part at 1. rewrite ordered_names_gen.
    apply list_filter_iff. intros n. by rewrite arranged_names.
  - apply sort_by_name_spec.
Qed.

(** C5.  In the extracted records those with a canonical name come first,
    one for each canonical name that occurs and in the canonical order; the
    others follow, in ascending order of their names.  The names of the first
    part are fixed by the set of names that occur, whatever the order of the
    rows: another sheet with the same names gives the same ones. *)
Theorem canonical_ordering rows out :
  read_excel_data float_repr rows = Ok out →
  let known := filter (λ r, name r ∈ CANONICAL_ORDER) (subdivisions out) in
  let others := filter (λ r, name r ∉ CANONICAL_ORDER) (subdivisions out) in
  subdivisions out = known ++ others
  ∧ List.map name known
    = filter (λ n, n ∈ List.map name (subdivisions out)) CANONICAL_ORDER
  ∧ Sorted name_le others
  ∧ ∀ rows' out',
      read_excel_data float_repr rows' = Ok out' →
      (∀ n, n ∈ List.map name (subdivisions out')
            ↔ n ∈ List.map name (subdivisions out)) →
      List.map name
        (filter (λ r, name r ∈ CANONICAL_ORDER) (subdivisions out'))
      = List.map name known.
Proof.
  intros Hout. simpl.
  destruct (known_names rows out Hout) as (Hsplit & Hnames & Hsorted).
  split; [done|]. split; [done|]. split; [done|].
  intros rows' out' Hout' Hsame.
  destruct (known_names rows' out' Hout') as (_ & -> & _).
  rewrite Hnames. by apply list_filter_iff.
Qed.

(** C9.  Of the data rows whose name is one canonical name, the last gives
    the record of that subdivision, and the extracted records hold exactly
    one record of that name. *)
Theorem last_row_wins rows header_idx header_row col out before r after key rec :
  detect_header_row float_repr rows = Ok header_idx →
  row_get rows header_idx = Ok header_row →
  map_columns float_repr header_row = Ok col →
  drop (S header_idx) rows = before ++ r :: after →
  read_row float_repr col r = Ok (Some (key, rec)) →
  name rec ∈ CANONICAL_ORDER →
  (∀ r' key' rec', r' ∈ after →
     read_row float_repr col r' = Ok (Some (key', rec')) →
     name rec' ≠ name rec) →
  read_excel_data float_repr rows = Ok out →
  filter (λ x, name x = name rec) (subdivisions out) = [rec].
Proof.
  intros Hh Hr Hc Hsplit Hrow Hcanon Hlast Hout.
  apply read_excel_data_inv in Hout
    as (hi & hr & c & subs & tot & Hh' & Hr' & Hc' & Hrows & _ & Hsubs & _).
  rewrite Hh in Hh'. injection Hh' as <-.
  rewrite Hr in Hr'. injection Hr' as <-.
  rewrite Hc in Hc'. injection Hc' as <-.
  apply read_rows_subs in Hrows. rewrite app_nil_l in Hrows.
  change (r :: after) with ([r] ++ after) in Hsplit.
  rewrite Hsplit, !omap_app in Hrows.
  assert (Hrec : row_record float_repr col r = Some rec).
  { unfold row_record. rewrite Hrow.
    destruct (read_row_Some _ _ _ _ Hrow) as (raw & -> & Hn).
    rewrite Hn in Hcanon. apply canonical_name_not_total in Hcanon.
    destruct (str_eqb _ _) eqn:E; [|done].
    by apply bool_decide_eq_true in E. }
  assert (Hafter : filter (λ x, name x = name rec)
                     (omap (row_record float_repr col) after) = []).
  { apply filter_none. intros x Hx Hname.
    apply list_elem_of_omap in Hx as (r' & Hin & Hx).
    unfold row_record in Hx.
    destruct (read_row float_repr col r') as [[[key' rec']|]|] eqn:E; try done.
    destruct (str_eqb key' (L "total")); [done|]. injection Hx as ->.
    by apply (Hlast r' key' x Hin). }
  assert (Hidx : index_by_name subs !! name rec = Some rec).
  { assert (Hone : omap (row_record float_repr col) [r] = [rec]).
    { simpl. by rewrite Hrec. }
    rewrite index_by_name_lookup, Hrows, Hone.
    rewrite !filter_app, Hafter, app_nil_r.
    rewrite filter_cons_True, filter_nil by done.
    by rewrite last_snoc. }
  rewrite Hsubs, filter_app.
  unfold ordered_part.
  rewrite (ordered_filter_gen subs _ _ CANONICAL_ORDER_NoDup Hcanon), Hidx.
  rewrite filter_none; [done|].
  intros x Hx Hname. apply extras_part_not_canonical in Hx as [Hx _].
  by rewrite Hname in Hx.
Qed.

End Extraction.

Lemma sample_sheet_header :
  detect_header_row sample_repr sample_sheet = Ok 1
  ∧ row_get sample_sheet 1 = Ok sample_header
  ∧ map_columns sample_repr sample_header = Ok sample_col.
Proof. repeat split; vm_compute; reflexivity. Qed.


Lemma canonical_ordering_witness :
  ∃ out, read_excel_data sample_repr sample_sheet = Ok out
         ∧ List.map name (subdivisions out) = [L "Raikot"; L "Khanna"; L "Zeta"].
Proof.
  eexists. split; [vm_compute; reflexivity|].
  match goal with
  | |- List.map name (subdivisions ?o) = _ =>
      destruct (canonical_ordering sample_repr sample_sheet o) as (-> & _)
  end.
  - vm_compute. reflexivity.
  - vm_compute. reflexivity.
Defined.

Lemma last_row_wins_witness :
  ∃ out, read_excel_data sample_repr sample_sheet = Ok out
         ∧ filter (λ x, name x = L "Raikot") (subdivisions out)
           = [sample_raikot_record].
Proof.
  destruct sample_sheet_header as (Hh & Hr & Hc).
  eexists. split; [vm_compute; reflexivity|].
  match goal with
  | |- filter _ (subdivisions ?o) = _ =>
      apply (last_row_wins sample_repr sample_sheet 1 sample_header sample_col
               o [sample_zeta; sample_raikot_old; sample_khanna] sample_raikot
               [] (L "raikot") sample_raikot_record Hh Hr Hc)
  end.
  - reflexivity.
  - vm_compute. reflexivity.
  - left.
  - intros r' key' rec' Hin. inversion Hin.
  - vm_compute. reflexivity.
Defined.

(** ** Files *)

(** C2.  [update_html] leaves the files as they were when it raises, and
    otherwise writes the target once, with the text on which every
    substitution succeeded; [main] writes nothing when the extraction or the
    rendering raises. *)
Theorem no_partial_write :
  (∀ path d w,
     match update_html path d w with
     | (Ok _, w') =>
         ∃ html out,
           files w !! path = Some html
           ∧ substitute d html = Ok out
           ∧ files w' = <[path := out]> (files w)
           ∧ written w' = written w ++ [path]
     | (Raise _, w') => w' = w
     end)
  ∧ (∀ float_repr excel_path index_path w,
       match main float_repr excel_path index_path w with
       | (Ok _, w') => written w' = written w ++ [index_path]
       | (Raise _, w') => w' = w
       end).
Proof.
  assert (Hupd : ∀ path d w,
     match update_html path d w with
     | (Ok _, w') =>
         ∃ html out,
           files w !! path = Some html
           ∧ substitute d html = Ok out
           ∧ files w' = <[path := out]> (files w)
           ∧ written w' = written w ++ [path]
     | (Raise _, w') => w' = w
     end).
  { intros path d w. unfold update_html, io_bind, read_text, io_pure, write_text.
    destruct (files w !! path) as [html|] eqn:Hf; [|reflexivity].
    destruct (substitute d html) as [out|e] eqn:Hs; [|reflexivity].
    by exists html, out. }
  split; [exact Hupd|].
  intros float_repr excel_path index_path w.
  unfold main, io_bind, exists_workbook, exists_file, load_rows, io_pure.
  destruct (bool_decide (is_Some (workbooks w !! excel_path)));
    [|exact eq_refl].
  cbv beta iota delta [negb].
  destruct (bool_decide (is_Some (files w !! index_path))); [|exact eq_refl].
  destruct (workbooks w !! excel_path) as [rows|]; [|exact eq_refl].
  destruct (read_excel_data float_repr rows) as [d|e]; [|exact eq_refl].
  specialize (Hupd index_path d w).
  destruct (update_html index_path d w) as [[u|e] w']; [|done].
  by destruct Hupd as (html & out & _ & _ & _ & Hw).
Qed.

(** C1, at an input where it fails: [replace_array_const] raises when its
    array is missing, but the document has none of the three texts that
    [re.sub] is to replace, and [update_html] neither raises nor leaves the
    file alone. *)
Theorem missing_regex_anchors_are_skipped :
  replace_array_const sample_html_bare (L "missing") [] = Raise ValueError
  ∧ search as_of_re sample_html_bare = None
  ∧ search surveyed_header_re sample_html_bare = None
  ∧ search daily_label_re sample_html_bare = None
  ∧ ∃ w', update_html (L "index.html") sample_data
            (sample_world sample_html_bare) = (Ok tt, w')
          ∧ written w' = [L "index.html"].
Proof.
  do 4 (split; [vm_compute; reflexivity|]).
  eexists. split; [vm_compute; reflexivity|]. reflexivity.
Qed.

(** ** Substitution *)

(** *** Searching a text *)

Lemma starts_with_app (m r : str) : starts_with m (m ++ r) = true.
Proof.
  induction m as [|c m IH]; [by destruct r|].
  simpl. by rewrite Ascii.eqb_refl.
Qed.

Lemma starts_with_inv (m s : str) :
  starts_with m s = true → s = m ++ drop (length m) s.
Proof.
  revert s. induction m as [|c m IH]; intros [|d s]; simpl; try done.
  intros Hs. apply andb_true_iff in Hs as [Hc Hs].
  apply Ascii.eqb_eq in Hc as ->. f_equal. by apply IH.
Qed.

Lemma starts_with_long (m s r : str) :
  length m ≤ length s → starts_with m (s ++ r) = starts_with m s.
Proof.
  revert s. induction m as [|c m IH]; intros s Hlen; [done|].
  destruct s as [|d s]; simpl in *; [lia|].
  by rewrite IH by lia.
Qed.

Lemma find_from_Some (m s : str) (i : nat) :
  find_from m s = Some i ↔
  i ≤ length s
  ∧ starts_with m (drop i s) = true
  ∧ ∀ j, j < i → starts_with m (drop j s) = false.
Proof.
  revert i. induction s as [|c s IH]; intros i.
  - cbn [find_from]. destruct (starts_with m []) eqn:E.
    + split.
      * intros [= <-]. split; [done|]. split; [done|]. intros j Hj. lia.
      * intros (Hi & _ & _). simpl in Hi. by replace i with 0 by lia.
    + split; [done|]. intros (Hi & Hs & _). simpl in Hi.
      replace i with 0 in Hs by lia. rewrite drop_0 in Hs. congruence.
  - cbn [find_from]. destruct (starts_with m (c :: s)) eqn:E.
    + split.
      * intros [= <-]. split; [simpl; lia|]. split; [done|]. intros j Hj. lia.
      * intros (_ & _ & Hno). destruct i as [|i]; [done|].
        specialize (Hno 0 ltac:(lia)). rewrite drop_0 in Hno. congruence.
    + destruct i as [|i].
      * split.
        -- destruct (find_from m s); done.
        -- intros (_ & Hs & _). rewrite drop_0 in Hs. congruence.
      * split.
        -- intros Hf. destruct (find_from m s) as [k|] eqn:Ek; [|done].
           injection Hf as ->. destruct (proj1 (IH i) eq_refl) as (Hi & Hs & Hno).
           split; [simpl; lia|]. split; [done|].
           intros [|j] Hj; [done|]. apply Hno. lia.
        -- intros (Hi & Hs & Hno).
           assert (Hk : find_from m s = Some i).
           { apply IH. split; [simpl in Hi; lia|]. split; [done|].
             intros j Hj. apply (Hno (S j)). lia. }
           rewrite Hk. done.
Qed.


Lemma first_at_no_earlier (m pre rest : str) (j : nat) :
  first_at m pre → j < length pre →
  starts_with m (drop j (pre ++ m ++ rest)) = false.
Proof.
  intros Hf Hj. apply find_from_Some in Hf as (_ & _ & Hno).
  rewrite app_assoc, drop_app_le by (rewrite length_app; lia).
  rewrite starts_with_long; [by apply Hno|].
  rewrite length_drop, length_app. lia.
Qed.

Lemma first_at_find (m pre rest : str) :
  first_at m pre → find_from m (pre ++ m ++ rest) = Some (length pre).
Proof.
  intros Hf. apply find_from_Some. split; [|split].
  - rewrite length_app. lia.
  - rewrite drop_app_length. apply starts_with_app.
  - intros j Hj. by apply first_at_no_earlier.
Qed.

(** *** Matching *)

Lemma match_lits_None (m : str) (re : regex) (s : str) :
  starts_with m s = false → match_here (lits m ++ re) s = None.
Proof.
  revert s. induction m as [|c m IH]; intros s; [by destruct s|].
  destruct s as [|d s]; [done|]. simpl.
  unfold run_length. simpl. rewrite (Ascii.eqb_sym c d).
  destruct (Ascii.eqb d c) eqn:E; simpl; [|done].
  intros Hs. fold (lits m). rewrite drop_0. rewrite IH by done. done.
Qed.

Lemma match_lits_Some (m : str) (re : regex) (s : str) :
  match_here (lits m ++ re) (m ++ s)
  = (λ ps, List.map (λ c, [c]) m ++ ps) <$> match_here re s.
Proof.
  induction m as [|c m IH]; simpl.
  - by destruct (match_here re s).
  - unfold run_length. simpl. rewrite Ascii.eqb_refl. simpl.
    fold (lits m). rewrite drop_0, IH.
    by destruct (match_here re s).
Qed.

Lemma concat_singletons (m : str) : concat (List.map (λ c, [c]) m) = m.
Proof. induction m as [|c m IH]; simpl; [done|]. by rewrite IH. Qed.

Lemma match_lits_exact (m s : str) :
  match_here (lits m) (m ++ s) = Some (List.map (λ c, [c]) m).
Proof.
  rewrite <- (app_nil_r (lits m)), match_lits_Some. simpl.
  by rewrite app_nil_r.
Qed.

Lemma search_at (re : regex) (s : str) (i : nat) (ps : list str) :
  i ≤ length s →
  (∀ j, j < i → match_here re (drop j s) = None) →
  match_here re (drop i s) = Some ps →
  search re s = Some (i, ps).
Proof.
  revert s. induction i as [|i IH]; intros s Hi Hno Hm.
  - rewrite drop_0 in Hm. destruct s; simpl; by rewrite Hm.
  - destruct s as [|c s]; [simpl in Hi; lia|].
    pose proof (Hno 0 ltac:(lia)) as H0. rewrite drop_0 in H0.
    cbn [search]. rewrite H0.
    rewrite (IH s); [done | simpl in Hi; lia | | done].
    intros j Hj. apply (Hno (S j)). lia.
Qed.


Lemma run_not_char (e : ascii) (a r : str) :
  e ∉ a → run (not_char e) (a ++ e :: r) = length a.
Proof.
  induction a as [|c a IH]; intros He; simpl.
  - unfold not_char. by rewrite Ascii.eqb_refl.
  - apply not_elem_of_cons in He as [Hc He]. unfold not_char at 1.
    destruct (Ascii.eqb c e) eqn:E; [by apply Ascii.eqb_eq in E|].
    simpl. by rewrite IH.
Qed.

Lemma starts_with_mismatch (e : ascii) (a a' y r : str) :
  e ∉ a → length a' < length a → starts_with (a ++ y) (a' ++ e :: r) = false.
Proof.
  revert a'. induction a as [|c a IH]; intros a' He Hlen; [simpl in Hlen; lia|].
  apply not_elem_of_cons in He as [Hc He].
  destruct a' as [|c' a']; simpl.
  - destruct (Ascii.eqb c e) eqn:E; [|done].
    apply Ascii.eqb_eq in E. congruence.
  - rewrite IH; [by rewrite andb_false_r | done | simpl in Hlen; lia].
Qed.

Lemma backtrack_down (least : nat) (rest : str → option (list str)) (s : str)
    (n d : nat) (ps : list str) :
  least ≤ n →
  rest (drop n s) = Some ps →
  (∀ j, 1 ≤ j ≤ d → rest (drop (n + j) s) = None) →
  backtrack least rest s (n + d) = Some (take n s :: ps).
Proof.
  intros Hn Hok. induction d as [|d IH]; intros Hno.
  - rewrite Nat.add_0_r.
    destruct n as [|n]; cbn [backtrack];
      (destruct (_ <? least) eqn:E; [apply Nat.ltb_lt in E; lia|]);
      by rewrite Hok.
  - rewrite Nat.add_succ_r. cbn [backtrack].
    destruct (S (n + d) <? least) eqn:E; [apply Nat.ltb_lt in E; lia|].
    rewrite <- Nat.add_succ_r, Hno by lia.
    apply IH. intros j Hj. apply Hno. lia.
Qed.

Lemma match_shape (m : str) (e : ascii) (least : nat) (suf x Q : str) :
  e ∉ x → least ≤ length x → e ∈ suf →
  ∃ ps, match_here (shape_re m e least suf) (m ++ x ++ suf ++ Q) = Some ps
        ∧ concat ps = m ++ x ++ suf.
Proof.
  intros Hx Hleast Hsuf.
  apply list_elem_of_split_l in Hsuf as (a & b & Hsuf & Ha).
  exists (List.map (λ c, [c]) m ++ x :: List.map (λ c, [c]) suf).
  split.
  - unfold shape_re. rewrite match_lits_Some.
    cbn [match_here]. unfold run_length. cbn [at_most accepts at_least].
    assert (Hrun : run (not_char e) (x ++ suf ++ Q) = length x + length a).
    { rewrite Hsuf, <- !app_assoc, app_assoc. simpl.
      rewrite run_not_char, length_app; [done|].
      intros Hin. apply elem_of_app in Hin as [?|?]; done. }
    rewrite Hrun.
    rewrite (backtrack_down _ _ _ _ _ (List.map (λ c, [c]) suf)).
    + simpl. by rewrite take_app_length.
    + done.
    + rewrite drop_app_length. apply match_lits_exact.
    + intros j Hj. rewrite drop_app_add'; [|done].
      rewrite <- (app_nil_r (lits suf)). apply match_lits_None.
      rewrite Hsuf at 2. rewrite <- app_assoc. simpl.
      rewrite drop_app_le by lia. rewrite Hsuf.
      apply starts_with_mismatch; [done|]. rewrite length_drop. lia.
  - rewrite concat_app. simpl. by rewrite !concat_singletons.
Qed.

Lemma parse_template_plain (s : str) (fuel : nat) :
  backslash ∉ s → length s ≤ fuel →
  parse_template fuel s = Ok (List.map PChar s).
Proof.
  revert fuel. induction s as [|c s IH]; intros fuel Hb Hlen.
  - by destruct fuel.
  - destruct fuel as [|fuel]; [simpl in Hlen; lia|].
    apply not_elem_of_cons in Hb as [Hc Hb]. cbn [parse_template].
    destruct (Ascii.eqb c backslash) eqn:E; [by apply Ascii.eqb_eq in E|].
    simpl. rewrite IH; [done | done | simpl in Hlen; lia].
Qed.

Lemma expand_plain (s m : str) : expand (List.map PChar s) m = s.
Proof.
  unfold expand. induction s as [|c s IH]; simpl; [done|]. by rewrite IH.
Qed.

Lemma search_shape (m : str) (e : ascii) (least : nat) (suf x P Q : str) :
  first_at m P → e ∉ x → least ≤ length x → e ∈ suf →
  ∃ ps, search (shape_re m e least suf) (P ++ (m ++ x ++ suf) ++ Q)
        = Some (length P, ps)
        ∧ concat ps = m ++ x ++ suf.
Proof.
  intros HP Hx Hleast Hsuf.
  destruct (match_shape m e least suf x Q Hx Hleast Hsuf) as (ps & Hm & Hc).
  exists ps. split; [|done].
  apply search_at.
  - rewrite length_app. lia.
  - intros j Hj. apply match_lits_None.
    rewrite <- !app_assoc. by apply first_at_no_earlier.
  - rewrite drop_app_length. by rewrite <- !app_assoc.
Qed.

Lemma drop_splice (P c Q : str) :
  drop (length P + length c) (P ++ c ++ Q) = Q.
Proof. by rewrite <- length_app, app_assoc, drop_app_length. Qed.

Lemma re_sub_first_splice (m : str) (e : ascii) (least : nat)
    (suf x v P Q : str) :
  first_at m P → e ∉ x → least ≤ length x → e ∈ suf →
  backslash ∉ m ++ v ++ suf →
  re_sub_first (shape_re m e least suf) (m ++ v ++ suf)
    (P ++ (m ++ x ++ suf) ++ Q)
  = Ok (P ++ (m ++ v ++ suf) ++ Q).
Proof.
  intros HP Hx Hleast Hsuf Hplain.
  unfold re_sub_first. rewrite parse_template_plain by done. simpl.
  destruct (search_shape m e least suf x P Q HP Hx Hleast Hsuf)
    as (ps & -> & Hc).
  by rewrite Hc, expand_plain, take_app_length, drop_splice.
Qed.

Lemma find_start (m P rest : str) :
  first_at m P → find m (P ++ m ++ rest) 0 = Some (length P).
Proof. intros HP. unfold find. by rewrite drop_0, first_at_find. Qed.

Lemma find_after (m pre P rest : str) :
  first_at m P →
  find m (pre ++ P ++ m ++ rest) (length pre) = Some (length pre + length P).
Proof.
  intros HP. unfold find. by rewrite drop_app_length, first_at_find.
Qed.

Lemma replace_between_splice (s e x R P Q : str) :
  first_at s P → first_at e (s ++ x) →
  replace_between (P ++ (s ++ x) ++ e ++ Q) s e R = Ok (P ++ R ++ e ++ Q).
Proof.
  intros HP He. unfold replace_between.
  assert (H1 : find s (P ++ (s ++ x) ++ e ++ Q) 0 = Some (length P)).
  { rewrite <- (app_assoc s). by apply find_start. }
  assert (H2 : find e (P ++ (s ++ x) ++ e ++ Q) (length P)
               = Some (length P + length (s ++ x))).
  { by apply find_after. }
  by rewrite H1, H2, take_app_length, drop_splice.
Qed.

Lemma replace_tbody_splice (x R P Q : str) :
  first_at tbody_open P → first_at tbody_close (tbody_open ++ x) →
  replace_tbody (P ++ (tbody_open ++ x ++ tbody_close) ++ Q) R
  = Ok (P ++ R ++ Q).
Proof.
  intros HP Hc. unfold replace_tbody.
  set (text := P ++ (tbody_open ++ x ++ tbody_close) ++ Q).
  assert (H1 : find tbody_open text 0 = Some (length P)).
  { unfold text. rewrite <- (app_assoc tbody_open). by apply find_start. }
  assert (H2 : find tbody_close text (length P)
               = Some (length P + length (tbody_open ++ x))).
  { unfold text. rewrite (app_assoc tbody_open), <- (app_assoc (_ ++ x)).
    by apply find_after. }
  rewrite H1, H2. unfold text. rewrite take_app_length.
  rewrite <- Nat.add_assoc, <- length_app, <- app_assoc.
  by rewrite drop_splice.
Qed.

Lemma substitute_run_ops (d : data) (html : str) :
  substitute d html = run_ops (ops d) html.
Proof.
  unfold substitute, ops. cbn [run_ops apply_op].
  rewrite List.map_map.
  repeat match goal with
         | |- (?m ≫= _) = (?m' ≫= _) =>
             change m' with m;
             destruct m as [?|?]; [cbn [mbind result_bind]|reflexivity]
         end.
  match goal with
  | |- ?m = ?m' ≫= _ => change m' with m; by destruct m
  end.
Qed.

Lemma first_atb_true (m P : str) : first_atb m P = true → first_at m P.
Proof. apply bool_decide_eq_true. Qed.

Lemma forallb_not_char (e : ascii) (x : str) :
  forallb (not_char e) x = true → e ∉ x.
Proof.
  induction x as [|c x IH]; simpl; intros Hx; [apply not_elem_of_nil|].
  apply andb_true_iff in Hx as [Hc Hx]. apply not_elem_of_cons.
  split; [|by apply IH].
  intros ->. unfold not_char in Hc. by rewrite Ascii.eqb_refl in Hc.
Qed.

Lemma shaped_spec (m : str) (e : ascii) (least : nat) (suf c : str) :
  shaped m e least suf c = true →
  ∃ x, c = m ++ x ++ suf ∧ (e ∉ x) ∧ least ≤ length x.
Proof.
  unfold shaped. intros Hs.
  apply andb_true_iff in Hs as [Hs Hl]. apply andb_true_iff in Hs as [Hc Hx].
  exists (inner m suf c). split; [by apply bool_decide_eq_true in Hc|].
  split; [by apply forallb_not_char|by apply Nat.leb_le].
Qed.

Lemma array_re_shape (n : str) :
  array_re n = shape_re (array_open n) "]"%char 0 (L "];").
Proof. reflexivity. Qed.

Lemma starts_with_split (m s : str) :
  starts_with m s = true → ∃ x, s = m ++ x.
Proof. intros Hs. exists (drop (length m) s). by apply starts_with_inv. Qed.

Lemma apply_op_splice (o : op) (P c g Q : str) :
  fits o P c g = true → plain o = true →
  apply_op o (P ++ c ++ g ++ Q) = Ok (P ++ new_region o ++ g ++ Q).
Proof.
  destruct o as [m e least suf v|n v|s e r|r];
    cbn [fits plain apply_op new_region]; intros Hf Hp.
  - apply andb_true_iff in Hf as [HP Hc]. apply first_atb_true in HP.
    apply shaped_spec in Hc as (x & -> & Hx & Hl).
    apply andb_true_iff in Hp as [Hb He].
    apply bool_decide_eq_true in Hb, He.
    by apply re_sub_first_splice.
  - apply andb_true_iff in Hf as [HP Hc]. apply first_atb_true in HP.
    apply shaped_spec in Hc as (x & -> & Hx & Hl).
    apply bool_decide_eq_true in Hp.
    assert (He : "]"%char ∈ L "];") by (vm_compute; left).
    unfold replace_array_const. rewrite array_re_shape.
    destruct (search_shape (array_open n) "]"%char 0 (L "];") x P (g ++ Q)
                HP Hx Hl He) as (ps & -> & _).
    replace (L "const " ++ n ++ L " = [" ++ v ++ L "];")
      with (array_open n ++ v ++ L "];")
      by (unfold array_open; by rewrite <- !app_assoc).
    by apply re_sub_first_splice.
  - apply andb_true_iff in Hf as [Hf Hg]. apply andb_true_iff in Hf as [Hf He].
    apply andb_true_iff in Hf as [HP Hc].
    apply first_atb_true in HP, He.
    apply starts_with_split in Hc as [x ->].
    apply starts_with_split in Hg as [g' ->].
    rewrite <- !(app_assoc e g' Q).
    by apply replace_between_splice.
  - apply andb_true_iff in Hf as [Hf Hx]. apply andb_true_iff in Hf as [HP Hc].
    apply first_atb_true in HP, Hx. apply bool_decide_eq_true in Hc.
    remember (inner tbody_open tbody_close c) as x eqn:Ex. clear Ex. subst c.
    by apply replace_tbody_splice.
Qed.

Lemma find_region_split (k : nat) (rs before after : list placed) (c g : str) :
  find_region k rs = Some (before, (c, g), after) →
  rs = before ++ (k, (c, g)) :: after ∧ k ∉ List.map fst before.
Proof.
  revert before. induction rs as [|[k' cg] rs IH]; intros before; [done|].
  cbn [find_region]. destruct (Nat.eqb_spec k' k) as [->|Hne].
  - intros [= <- <- <-]. split; [done|]. simpl. apply not_elem_of_nil.
  - destruct (find_region k rs) as [[[b x] a]|]; [|done].
    cbn [fmap option_fmap option_map]. intros [= <- -> <-].
    destruct (IH b eq_refl) as [-> Hb]. split; [done|].
    cbn [List.map fst]. apply not_elem_of_cons. split; [congruence|done].
Qed.

Lemma layout_text_app (os : list op) (done : nat) (a b : list placed) :
  layout_text os done (a ++ b) = layout_text os done a ++ layout_text os done b.
Proof. unfold layout_text. by rewrite List.map_app, concat_app. Qed.

Lemma layout_text_next (os : list op) (done : nat) (rs : list placed) :
  done ∉ List.map fst rs →
  layout_text os (S done) rs = layout_text os done rs.
Proof.
  unfold layout_text. induction rs as [|[k [c g]] rs IH]; [done|].
  cbn [List.map fst concat]. intros Hk.
  apply not_elem_of_cons in Hk as [Hk Hrs]. rewrite IH by done. f_equal.
  unfold region_text.
  destruct (Nat.ltb_spec k (S done)), (Nat.ltb_spec k done); try done; lia.
Qed.

Lemma layout_text_one (os : list op) (done k : nat) (c g : str) :
  layout_text os done [(k, (c, g))]
  = (if (k <? done)%nat then from_option new_region c (os !! k) else c) ++ g.
Proof. unfold layout_text. cbn [List.map concat region_text]. apply app_nil_r. Qed.

Lemma document_layout (os : list op) (g0 : str) (rs : list placed) :
  document g0 rs = g0 ++ layout_text os 0 rs.
Proof.
  unfold document, layout_text. reflexivity.
Qed.

Section Layout.

Variables (os : list op) (g0 : str) (rs : list placed).
Hypothesis Hnodup : NoDup (List.map fst rs).

Lemma fits_at_split (done k : nat) :
  fits_at os g0 rs done k = true →
  ∃ o before c g after,
    os !! k = Some o
    ∧ rs = before ++ (k, (c, g)) :: after
    ∧ (k ∉ List.map fst before) ∧ (k ∉ List.map fst after)
    ∧ fits o (g0 ++ layout_text os done before)
        (if (k <? done)%nat then new_region o else c) g = true
    ∧ plain o = true.
Proof.
  unfold fits_at. intros Hf.
  destruct (os !! k) as [o|] eqn:Ho; [|done].
  destruct (find_region k rs) as [[[before [c g]] after]|] eqn:Hr; [|done].
  apply andb_true_iff in Hf as [Hf Hp].
  apply find_region_split in Hr as [Hrs Hb].
  exists o, before, c, g, after. repeat split; try done.
  rewrite Hrs, List.map_app in Hnodup.
  apply NoDup_app in Hnodup as (_ & _ & Ha).
  cbn [List.map fst] in Ha. by apply NoDup_cons in Ha as [Ha _].
Qed.

(** An operation in its turn replaces its region. *)
Lemma apply_op_in_turn (k : nat) (o : op) :
  os !! k = Some o → fits_at os g0 rs k k = true →
  apply_op o (g0 ++ layout_text os k rs)
  = Ok (g0 ++ layout_text os (S k) rs).
Proof.
  intros Ho Hf.
  destruct (fits_at_split k k Hf)
    as (o' & before & c & g & after & Ho' & Hrs & Hb & Ha & Hfit & Hp).
  rewrite Ho in Ho'. injection Ho' as <-.
  rewrite Nat.ltb_irrefl in Hfit.
  rewrite Hrs, !layout_text_app.
  change ((k, (c, g)) :: after) with ([(k, (c, g))] ++ after).
  rewrite !layout_text_app, (layout_text_next os k before Hb),
    (layout_text_next os k after Ha), !layout_text_one.
  rewrite Nat.ltb_irrefl, (proj2 (Nat.ltb_lt k (S k))) by lia.
  rewrite Ho. cbn [from_option]. rewrite <- !app_assoc.
  rewrite !(app_assoc g0).
  by apply apply_op_splice.
Qed.

Lemma run_ops_in_turn (j : nat) :
  (∀ k, j ≤ k < length os → fits_at os g0 rs k k = true) →
  run_ops (drop j os) (g0 ++ layout_text os j rs)
  = Ok (g0 ++ layout_text os (length os) rs).
Proof.
  remember (length os - j) as m eqn:Hm. revert j Hm.
  induction m as [|m IH]; intros j Hm Hall.
  - destruct (Nat.le_gt_cases (length os) j) as [Hge|Hlt]; [|lia].
    rewrite drop_ge by done. cbn [run_ops]. do 2 f_equal.
    assert (Hj : ∃ extra, j = length os + extra) by (exists (j - length os); lia).
    destruct Hj as [extra ->]. clear. induction extra as [|e IHe].
    + by rewrite Nat.add_0_r.
    + rewrite Nat.add_succ_r.
      unfold layout_text in *. rewrite <- IHe. f_equal.
      apply List.map_ext. intros [k [c g]]. unfold region_text.
      destruct (Nat.ltb_spec k (S (length os + e))),
        (Nat.ltb_spec k (length os + e)); try done; try lia.
      destruct (os !! k) eqn:E; [|done].
      apply lookup_lt_Some in E. lia.
  - assert (Hj : j < length os) by lia.
    destruct (lookup_lt_is_Some_2 os j Hj) as [o Ho].
    rewrite (drop_S _ _ _ Ho). cbn [run_ops].
    rewrite (apply_op_in_turn j o Ho) by (apply Hall; lia).
    cbn [mbind result_bind]. apply IH; [lia|].
    intros k Hk. apply Hall. lia.
Qed.

(** An operation leaves what all have written as it is. *)
Lemma apply_op_again (k : nat) (o : op) :
  os !! k = Some o → fits_at os g0 rs (length os) k = true →
  apply_op o (g0 ++ layout_text os (length os) rs)
  = Ok (g0 ++ layout_text os (length os) rs).
Proof.
  intros Ho Hf.
  destruct (fits_at_split (length os) k Hf)
    as (o' & before & c & g & after & Ho' & Hrs & Hb & Ha & Hfit & Hp).
  rewrite Ho in Ho'. injection Ho' as <-.
  assert (Hk : (k <? length os) = true).
  { apply Nat.ltb_lt. by apply lookup_lt_Some in Ho. }
  rewrite Hk in Hfit.
  rewrite Hrs, !layout_text_app.
  change ((k, (c, g)) :: after) with ([(k, (c, g))] ++ after).
  rewrite !layout_text_app, !layout_text_one.
  rewrite Hk, Ho. cbn [from_option]. rewrite <- !app_assoc.
  rewrite !(app_assoc g0).
  by apply apply_op_splice.
Qed.

End Layout.

Lemma run_ops_fixed (os : list op) (t : str) :
  Forall (λ o, apply_op o t = Ok t) os → run_ops os t = Ok t.
Proof.
  induction 1 as [|o os Ho Hos IH]; [done|].
  cbn [run_ops]. by rewrite Ho.
Qed.




(** ** Further properties of the code *)

(** *** The order of names *)

Lemma str_ltb_irrefl (a : str) : str_ltb a a = false.
Proof.
  induction a as [|x a IH]; [done|]. simpl.
  by rewrite N.ltb_irrefl.
Qed.

Lemma str_ltb_cotrans (a b c : str) :
  str_ltb c a = true → str_ltb b a = true ∨ str_ltb c b = true.
Proof.
  revert b c. induction a as [|x a IH]; intros b c.
  - by destruct c.
  - destruct c as [|z c], b as [|y b]; simpl; try (by auto).
    destruct (code z <? code x)%N eqn:Ezx, (code x <? code z)%N eqn:Exz,
      (code y <? code x)%N eqn:Eyx, (code x <? code y)%N eqn:Exy,
      (code z <? code y)%N eqn:Ezy, (code y <? code z)%N eqn:Eyz;
      rewrite ?N.ltb_lt, ?N.ltb_ge in *; try lia; auto.
Qed.

Lemma name_le_trans (a b c : record) : name_le a b → name_le b c → name_le a c.
Proof.
  unfold name_le, str_leb. rewrite !negb_true_iff. intros Hab Hbc.
  destruct (str_ltb (name c) (name a)) eqn:E; [|done].
  destruct (str_ltb_cotrans _ (name b) _ E); congruence.
Qed.

Lemma sort_by_name_strongly (l : list record) :
  StronglySorted name_le (sort_by_name l).
Proof.
  apply Sorted_StronglySorted; [|apply sort_by_name_spec].
  intros a b c. apply name_le_trans.
Qed.

Lemma insert_sorted_filter (n : str) (x : record) (l : list record) :
  StronglySorted name_le l →
  filter (λ r, name r = n) (insert_sorted x l)
  = filter (λ r, name r = n) l ++ (if decide (name x = n) then [x] else []).
Proof.
  induction l as [|y l IH]; intros Hs.
  - simpl. rewrite filter_cons, filter_nil. by destruct (decide (name x = n)).
  - apply StronglySorted_inv in Hs as [Hs Hy]. simpl.
    destruct (str_ltb (name x) (name y)) eqn:E.
    + rewrite filter_cons. destruct (decide (name x = n)) as [Hx|Hx].
      * rewrite (filter_none (λ r, name r = n) (y :: l)); [done|].
        intros z Hz Hn.
        assert (Hle : name_le y z).
        { apply elem_of_cons in Hz as [->|Hz].
          - unfold name_le, str_leb. by rewrite str_ltb_irrefl.
          - rewrite Forall_forall in Hy. by apply Hy. }
        unfold name_le, str_leb in Hle. apply negb_true_iff in Hle.
        rewrite Hn, <- Hx in Hle. congruence.
      * by rewrite app_nil_r.
    + rewrite !(filter_cons _ y), IH by done.
      by destruct (decide (name y = n)).
Qed.

Lemma insert_sorted_strongly (x : record) (l : list record) :
  StronglySorted name_le l → StronglySorted name_le (insert_sorted x l).
Proof.
  intros Hs. apply Sorted_StronglySorted; [intros a b c; apply name_le_trans|].
  apply insert_sorted_sorted. by apply StronglySorted_Sorted.
Qed.

(** The sort is stable: the records of one name keep their order. *)
Lemma sort_by_name_stable (n : str) (l : list record) :
  filter (λ r, name r = n) (sort_by_name l) = filter (λ r, name r = n) l.
Proof.
  unfold sort_by_name.
  enough (Hgen : ∀ acc, StronglySorted name_le acc →
    filter (λ r, name r = n) (fold_left (λ acc x, insert_sorted x acc) l acc)
    = filter (λ r, name r = n) acc ++ filter (λ r, name r = n) l).
  { by rewrite (Hgen [] (SSorted_nil _)). }
  induction l as [|x l IH]; intros acc Hacc; simpl.
  - by rewrite app_nil_r.
  - rewrite IH by (by apply insert_sorted_strongly).
    rewrite insert_sorted_filter, filter_cons, <- app_assoc by done.
    by destruct (decide (name x = n)).
Qed.

Section TotalsRow.
Variable float_repr : pyfloat → str.

Lemma read_rows_tot col rs subs0 tot0 subs tot :
  read_rows float_repr col rs subs0 tot0 = Ok (subs, tot) →
  tot = match last (omap (row_total float_repr col) rs) with
        | Some t => Some t
        | None => tot0
        end.
Proof.
  revert subs0 tot0. induction rs as [|r rs IH]; intros subs0 tot0.
  - by intros [= <- <-].
  - cbn [read_rows]. intros Hb. apply bind_Ok in Hb as (x & Hx & Hk).
    cbn [omap list_omap]. unfold row_total at 1. rewrite Hx.
    destruct x as [[key rec]|]; [|by apply IH in Hk].
    destruct (str_eqb key (L "total")); [|by apply IH in Hk].
    apply IH in Hk. rewrite Hk.
    change (list_omap _ _ ?f ?l) with (omap f l).
    rewrite last_cons. by destruct (last _).
Qed.

(** X1.  The totals row is kept as it is written: the record of the last row
    whose key is [total] is the totals, whatever the subdivision rows sum
    to. *)
Theorem totals_row_is_kept rows header_idx header_row col out before r after rec :
  detect_header_row float_repr rows = Ok header_idx →
  row_get rows header_idx = Ok header_row →
  map_columns float_repr header_row = Ok col →
  drop (S header_idx) rows = before ++ r :: after →
  read_row float_repr col r = Ok (Some (L "total", rec)) →
  (∀ r' key' rec', r' ∈ after →
     read_row float_repr col r' = Ok (Some (key', rec')) → key' ≠ L "total") →
  read_excel_data float_repr rows = Ok out →
  totals out = rec.
Proof.
  intros Hh Hr Hc Hsplit Hrow Hlast Hout.
  apply read_excel_data_inv in Hout
    as (hi & hr & c & subs & tot & Hh' & Hr' & Hc' & Hrows & _ & _ & Htot).
  rewrite Hh in Hh'. injection Hh' as <-.
  rewrite Hr in Hr'. injection Hr' as <-.
  rewrite Hc in Hc'. injection Hc' as <-.
  apply read_rows_tot in Hrows.
  change (r :: after) with ([r] ++ after) in Hsplit.
  rewrite Hsplit, !omap_app in Hrows.
  assert (Hone : omap (row_total float_repr col) [r] = [rec]).
  { simpl. unfold row_total. by rewrite Hrow. }
  assert (Hafter : omap (row_total float_repr col) after = []).
  { clear Hsplit Hrows. induction after as [|r' after IH]; [done|].
    cbn [omap list_omap]. unfold row_total at 1.
    destruct (read_row float_repr col r') as [[[key' rec']|]|] eqn:E.
    - destruct (str_eqb key' (L "total")) eqn:Ek.
      + apply bool_decide_eq_true in Ek. exfalso.
        apply (Hlast r' key' rec'); [left|done|done].
      + apply IH. intros r'' k'' rec'' Hin. apply Hlast. by right.
    - apply IH. intros r'' k'' rec'' Hin. apply Hlast. by right.
    - apply IH. intros r'' k'' rec'' Hin. apply Hlast. by right. }
  rewrite Hone, Hafter, app_nil_r, last_snoc in Hrows. by subst tot.
Qed.

(** X2.  The records of a name that is not canonical are all kept, in the order
    of their rows. *)
Theorem other_names_keep_their_rows rows header_idx header_row col out n :
  detect_header_row float_repr rows = Ok header_idx →
  row_get rows header_idx = Ok header_row →
  map_columns float_repr header_row = Ok col →
  n ∉ CANONICAL_ORDER →
  read_excel_data float_repr rows = Ok out →
  filter (λ x, name x = n) (subdivisions out)
  = filter (λ x, name x = n)
      (omap (row_record float_repr col) (drop (S header_idx) rows)).
Proof.
  intros Hh Hr Hc Hn Hout.
  apply read_excel_data_inv in Hout
    as (hi & hr & c & subs & tot & Hh' & Hr' & Hc' & Hrows & _ & Hsubs & _).
  rewrite Hh in Hh'. injection Hh' as <-.
  rewrite Hr in Hr'. injection Hr' as <-.
  rewrite Hc in Hc'. injection Hc' as <-.
  apply read_rows_subs in Hrows. rewrite app_nil_l in Hrows. rewrite <- Hrows.
  rewrite Hsubs, filter_app.
  rewrite (filter_none _ (ordered_part subs)).
  - unfold extras_part. rewrite sort_by_name_stable. simpl.
    assert (Hflt : ∀ l : list record,
      filter (λ x, name x = n)
        (List.filter (fun r => negb (is_canonical (name r))) l)
      = filter (λ x, name x = n) l).
    { induction l as [|x l IH]; [done|]. simpl.
      rewrite filter_cons. destruct (is_canonical (name x)) eqn:E; simpl.
      - apply is_canonical_true in E. rewrite IH.
        destruct (decide (name x = n)) as [Hx|]; [|done].
        exfalso. apply Hn. by rewrite <- Hx.
      - by rewrite filter_cons, IH. }
    apply Hflt.
  - intros x Hx Hname. apply ordered_part_canonical in Hx as [Hx _].
    by rewrite Hname in Hx.
Qed.

End TotalsRow.

Lemma NoDup_names (l : list record) : NoDup (List.map name l) → NoDup l.
Proof.
  induction l as [|x l IH]; simpl; intros Hnd; [constructor|].
  apply NoDup_cons in Hnd as [Hx Hnd]. apply NoDup_cons. split; [|by apply IH].
  intros Hin. apply Hx. apply list_elem_of_In, in_map. by apply list_elem_of_In.
Qed.

Lemma filter_own_name (l : list record) (r : record) :
  NoDup (List.map name l) → r ∈ l → filter (λ x, name x = name r) l = [r].
Proof.
  induction l as [|x l IH]; simpl; intros Hnd Hin; [by apply elem_of_nil in Hin|].
  apply NoDup_cons in Hnd as [Hx Hnd].
  apply elem_of_cons in Hin as [->|Hin].
  - rewrite filter_cons_True by done. f_equal.
    apply filter_none. intros y Hy Hname. apply Hx. rewrite <- Hname.
    apply list_elem_of_In, in_map. by apply list_elem_of_In.
  - rewrite filter_cons_False; [by apply IH|].
    intros Hname. apply Hx. rewrite Hname.
    apply list_elem_of_In, in_map. by apply list_elem_of_In.
Qed.

Lemma filter_not_canonical (l : list record) :
  List.filter (fun r => negb (is_canonical (name r))) l
  = filter (λ r, name r ∉ CANONICAL_ORDER) l.
Proof.
  induction l as [|x l IH]; [done|]. simpl. rewrite filter_cons, IH.
  destruct (is_canonical (name x)) eqn:E; simpl.
  - apply is_canonical_true in E. by rewrite decide_False by auto.
  - rewrite decide_True; [done|]. intros Hc. apply is_canonical_true in Hc.
    congruence.
Qed.

Lemma ordered_part_perm (subs : list record) :
  NoDup (List.map name subs) →
  ordered_part subs ≡ₚ filter (λ r, name r ∈ CANONICAL_ORDER) subs.
Proof.
  intros Hnd. apply NoDup_Permutation.
  - apply NoDup_names. unfold ordered_part. rewrite ordered_names_gen.
    apply NoDup_filter, CANONICAL_ORDER_NoDup.
  - apply NoDup_filter. by apply NoDup_names.
  - intros r. rewrite list_elem_of_filter. split.
    + apply ordered_part_canonical.
    + intros [Hc Hin]. unfold ordered_part. apply list_elem_of_omap.
      exists (name r). split; [done|].
      by rewrite index_by_name_lookup, filter_own_name.
Qed.

Lemma arranged_perm (subs : list record) :
  NoDup (List.map name subs) →
  ordered_part subs ++ extras_part subs ≡ₚ subs.
Proof.
  intros Hnd. rewrite ordered_part_perm by done.
  rewrite extras_part_perm, filter_not_canonical.
  apply filter_app_complement.
Qed.

Section Records.
Variable float_repr : pyfloat → str.

(** X3.  When no two rows give records of one name, the extracted records are
    those of the rows, rearranged: none is lost. *)
Theorem distinct_names_lose_nothing rows header_idx header_row col out :
  detect_header_row float_repr rows = Ok header_idx →
  row_get rows header_idx = Ok header_row →
  map_columns float_repr header_row = Ok col →
  NoDup (List.map name
           (omap (row_record float_repr col) (drop (S header_idx) rows))) →
  read_excel_data float_repr rows = Ok out →
  subdivisions out
  ≡ₚ omap (row_record float_repr col) (drop (S header_idx) rows).
Proof.
  intros Hh Hr Hc Hnd Hout.
  apply read_excel_data_inv in Hout
    as (hi & hr & c & subs & tot & Hh' & Hr' & Hc' & Hrows & _ & Hsubs & _).
  rewrite Hh in Hh'. injection Hh' as <-.
  rewrite Hr in Hr'. injection Hr' as <-.
  rewrite Hc in Hc'. injection Hc' as <-.
  apply read_rows_subs in Hrows. rewrite app_nil_l in Hrows.
  rewrite <- Hrows in *. rewrite Hsubs. by apply arranged_perm.
Qed.

(** X4.  The extracted records are never empty, and each of them is the record
    of a data row below the header, read with the columns of the header. *)
Theorem extracted_records_come_from_rows rows out :
  read_excel_data float_repr rows = Ok out →
  subdivisions out ≠ []
  ∧ ∃ header_idx header_row col,
      detect_header_row float_repr rows = Ok header_idx
      ∧ row_get rows header_idx = Ok header_row
      ∧ map_columns float_repr header_row = Ok col
      ∧ ∀ rec, rec ∈ subdivisions out →
          ∃ r, r ∈ drop (S header_idx) rows
               ∧ row_record float_repr col r = Some rec.
Proof.
  intros Hout.
  apply read_excel_data_inv in Hout
    as (hi & hr & c & subs & tot & Hh & Hr & Hc & Hrows & Hne & Hsubs & _).
  apply read_rows_subs in Hrows. rewrite app_nil_l in Hrows.
  split.
  - destruct subs as [|s subs]; [done|].
    assert (Hin : name s ∈ List.map name (ordered_part (s :: subs)
                                           ++ extras_part (s :: subs))).
    { apply arranged_names. simpl. left. }
    rewrite <- Hsubs in Hin. intros Hnil. rewrite Hnil in Hin.
    by apply elem_of_nil in Hin.
  - exists hi, hr, c. do 3 (split; [done|]). intros rec Hin.
    rewrite Hsubs in Hin.
    assert (Hs : rec ∈ subs).
    { apply elem_of_app in Hin as [Hin|Hin].
      - by apply ordered_part_canonical in Hin as [_ ?].
      - by apply extras_part_not_canonical in Hin as [_ ?]. }
    rewrite Hrows in Hs. apply list_elem_of_omap in Hs as (r & Hr' & Hrec).
    by exists r.
Qed.

End Records.

Lemma L_inj (a b : string) : L a = L b → a = b.
Proof.
  unfold L. intros Hab.
  rewrite <- (string_of_list_ascii_of_string a),
    <- (string_of_list_ascii_of_string b). by rewrite Hab.
Qed.

Section Header.
Variable float_repr : pyfloat → str.

Lemma detect_header_from_cons (i : nat) (r : row) (rows : list row) :
  detect_header_from float_repr i (r :: rows)
  = if is_header (header_text float_repr r) then Ok i
    else detect_header_from float_repr (S i) rows.
Proof.
  cbn [detect_header_from]. unfold header_text.
  destruct (List.filter _ _) as [|c cs] eqn:E; [|done].
  assert (Hempty : is_header (join (L " | ") []) = false)
    by (vm_compute; reflexivity).
  by rewrite Hempty.
Qed.

Lemma detect_header_from_spec (k : nat) (rows : list row) :
  match detect_header_from float_repr k rows with
  | Ok i =>
      ∃ j r, i = k + j ∧ rows !! j = Some r
             ∧ is_header (header_text float_repr r) = true
             ∧ ∀ j' r', j' < j → rows !! j' = Some r' →
                 is_header (header_text float_repr r') = false
  | Raise e =>
      e = ValueError
      ∧ ∀ r, r ∈ rows → is_header (header_text float_repr r) = false
  end.
Proof.
  revert k. induction rows as [|r rows IH]; intros k.
  - simpl. split; [done|]. intros r Hr. by apply elem_of_nil in Hr.
  - rewrite detect_header_from_cons.
    destruct (is_header (header_text float_repr r)) eqn:E.
    + exists 0, r. split; [lia|]. split; [done|]. split; [done|].
      intros j' r' Hj. lia.
    + specialize (IH (S k)).
      destruct (detect_header_from float_repr (S k) rows) as [i|e].
      * destruct IH as (j & r0 & -> & Hr0 & Hq & Hno).
        exists (S j), r0. split; [lia|]. split; [done|]. split; [done|].
        intros [|j'] r' Hj Hr'.
        -- by injection Hr' as <-.
        -- apply (Hno j' r'); [lia|done].
      * destruct IH as [-> Hno]. split; [done|].
        intros r' Hr'. apply elem_of_cons in Hr' as [->|Hr']; [done|].
        by apply Hno.
Qed.

(** X5.  [detect_header_row] gives the index of the first row that has the
    header words, and raises [ValueError] exactly when no row has them. *)
Theorem header_is_first_match (rows : list row) :
  match detect_header_row float_repr rows with
  | Ok i =>
      (∃ r, rows !! i = Some r ∧ is_header (header_text float_repr r) = true)
      ∧ ∀ j r, j < i → rows !! j = Some r →
          is_header (header_text float_repr r) = false
  | Raise e =>
      e = ValueError
      ∧ ∀ r, r ∈ rows → is_header (header_text float_repr r) = false
  end.
Proof.
  unfold detect_header_row.
  pose proof (detect_header_from_spec 0 rows) as Hs.
  destruct (detect_header_from float_repr 0 rows) as [i|e]; [|done].
  destruct Hs as (j & r & -> & Hr & Hq & Hno). simpl.
  split; [by exists r|done].
Qed.

Lemma map_columns_from_cons (idx : nat) (c : cell) (cells : row)
    (col : gmap str nat) :
  map_columns_from float_repr idx (c :: cells) col
  = map_columns_from float_repr (S idx) cells
      match column_key (normalize_text float_repr c) with
      | Some k => <[L k := idx]> col
      | None => col
      end.
Proof.
  cbn [map_columns_from].
  destruct (str_eqb (normalize_text float_repr c) []) eqn:E; [|done].
  apply bool_decide_eq_true in E. rewrite E.
  assert (Hk : column_key [] = None) by (vm_compute; reflexivity).
  by rewrite Hk.
Qed.

Lemma map_columns_from_lookup (k : string) (idx : nat) (cells : row)
    (col : gmap str nat) (i : nat) :
  map_columns_from float_repr idx cells col !! L k = Some i ↔
  (∃ j c, i = idx + j ∧ cells !! j = Some c
          ∧ column_key (normalize_text float_repr c) = Some k
          ∧ ∀ j' c', j < j' → cells !! j' = Some c' →
              column_key (normalize_text float_repr c') ≠ Some k)
  ∨ (col !! L k = Some i
     ∧ ∀ j c, cells !! j = Some c →
         column_key (normalize_text float_repr c) ≠ Some k).
Proof.
  revert idx col. induction cells as [|c cells IH]; intros idx col.
  - simpl. split.
    + intros Hc. right. split; [done|]. intros j c Hj. done.
    + intros [(j & c & _ & Hj & _)|[Hc _]]; done.
  - rewrite map_columns_from_cons, IH. split.
    + intros [(j & c' & -> & Hj & Hk & Hno)|[Hc Hno]].
      * left. exists (S j), c'. split; [lia|]. split; [done|]. split; [done|].
        intros [|j'] c'' Hlt Hj'; [lia|]. apply (Hno j'); [lia|done].
      * destruct (column_key (normalize_text float_repr c)) as [k0|] eqn:E.
        -- destruct (decide (k0 = k)) as [->|Hne].
           ++ rewrite lookup_insert_eq in Hc. injection Hc as <-.
              left. exists 0, c. split; [lia|]. split; [done|]. split; [done|].
              intros [|j'] c'' Hlt Hj'; [lia|]. by apply (Hno j').
           ++ rewrite lookup_insert_ne in Hc
                by (intros Heq; apply Hne; by apply L_inj).
              right. split; [done|]. intros [|j] c'' Hj.
              ** injection Hj as <-. rewrite E. congruence.
              ** by apply (Hno j).
        -- right. split; [done|]. intros [|j] c'' Hj.
           ** injection Hj as <-. by rewrite E.
           ** by apply (Hno j).
    + intros [(j & c' & -> & Hj & Hk & Hno)|[Hc Hno]].
      * destruct j as [|j].
        -- injection Hj as <-. right. rewrite Hk, lookup_insert_eq.
           split; [f_equal; lia|]. intros j c'' Hj.
           apply (Hno (S j)); [lia|done].
        -- left. exists j, c'. split; [lia|]. split; [done|]. split; [done|].
           intros j' c'' Hlt Hj'. apply (Hno (S j')); [lia|done].
      * right. pose proof (Hno 0 c eq_refl) as Hc0. split.
        -- destruct (column_key (normalize_text float_repr c)) as [k0|];
             [|done].
           rewrite lookup_insert_ne; [done|].
           intros Heq. apply L_inj in Heq. congruence.
        -- intros j c'' Hj. by apply (Hno (S j)).
Qed.

Lemma map_columns_from_keeps (k : string) (idx : nat) (cells : row)
    (col : gmap str nat) :
  is_Some (col !! L k) →
  is_Some (map_columns_from float_repr idx cells col !! L k).
Proof.
  revert idx col. induction cells as [|c cells IH]; intros idx col Hk; [done|].
  rewrite map_columns_from_cons. apply IH.
  destruct (column_key (normalize_text float_repr c)) as [k0|]; [|done].
  rewrite lookup_insert. by destruct (decide (L k0 = L k)).
Qed.

Lemma map_columns_from_named (k : string) (idx : nat) (cells : row)
    (col : gmap str nat) (c : cell) :
  c ∈ cells → column_key (normalize_text float_repr c) = Some k →
  is_Some (map_columns_from float_repr idx cells col !! L k).
Proof.
  revert idx col. induction cells as [|c0 cells IH]; intros idx col Hin Hk;
    [by apply elem_of_nil in Hin|].
  rewrite map_columns_from_cons.
  apply elem_of_cons in Hin as [<-|Hin]; [|by apply IH].
  rewrite Hk. apply map_columns_from_keeps. by rewrite lookup_insert_eq.
Qed.

(** X6.  On success [map_columns] knows every required field, and the column of
    a field is the last header cell that names it; it raises [ValueError]
    exactly when no cell names some required field. *)
Theorem columns_are_last_named (header_row : row) :
  match map_columns float_repr header_row with
  | Ok col =>
      (∀ k, k ∈ required_columns → is_Some (col !! L k))
      ∧ ∀ k i, col !! L k = Some i →
          ∃ c, header_row !! i = Some c
               ∧ column_key (normalize_text float_repr c) = Some k
               ∧ ∀ j c', i < j → header_row !! j = Some c' →
                   column_key (normalize_text float_repr c') ≠ Some k
  | Raise e =>
      e = ValueError
      ∧ ∃ k, k ∈ required_columns
             ∧ ∀ c, c ∈ header_row →
                 column_key (normalize_text float_repr c) ≠ Some k
  end.
Proof.
  unfold map_columns.
  set (col := map_columns_from float_repr 0 header_row ∅).
  destruct (List.filter _ required_columns) as [|k ks] eqn:E.
  - split.
    + intros k Hk. destruct (col !! L k) as [i|] eqn:Ek; [by exists i|].
      assert (Hin : In k (List.filter
                (fun k => bool_decide (col !! L k = None)) required_columns)).
      { apply filter_In. split; [by apply list_elem_of_In|].
        by apply bool_decide_eq_true. }
      rewrite E in Hin. destruct Hin.
    + intros k i Hk. apply map_columns_from_lookup in Hk
        as [(j & c & -> & Hj & Hc & Hno)|[Hk _]];
        [|by rewrite lookup_empty in Hk].
      by exists c.
  - split; [done|]. exists k.
    assert (Hin : In k (k :: ks)) by (by left). rewrite <- E in Hin.
    apply filter_In in Hin as [Hin Hk]. apply bool_decide_eq_true in Hk.
    split; [by apply list_elem_of_In|].
    intros c Hc Hname.
    pose proof (map_columns_from_named k 0 header_row ∅ c Hc Hname) as [i Hi].
    fold col in Hi. congruence.
Qed.

End Header.

(** *** Names *)

Ltac by_decide :=
  match goal with
  | |- ?P => apply (bool_decide_unpack P); vm_compute; exact I
  end.

Lemma lower_char_alnum (c : ascii) : is_alnum c = true → lower_char c = c.
Proof. destruct c as [[] [] [] [] [] [] [] []]; vm_compute; congruence. Qed.

Lemma lower_char_idem (c : ascii) : lower_char (lower_char c) = lower_char c.
Proof. destruct c as [[] [] [] [] [] [] [] []]; vm_compute; congruence. Qed.

Lemma normalize_name_alnum (s : str) :
  Forall (λ c, is_alnum c = true) (normalize_name s).
Proof.
  unfold normalize_name. apply Forall_forall. intros c Hc.
  by apply list_elem_of_In, filter_In in Hc as [_ Hc].
Qed.

Lemma normalize_name_fixed (s : str) :
  Forall (λ c, is_alnum c = true) s → normalize_name s = s.
Proof.
  unfold normalize_name, lower.
  induction 1 as [|c s Hc Hs IH]; [done|]. simpl.
  rewrite (lower_char_alnum c Hc). unfold is_alnum in Hc. rewrite Hc.
  by rewrite IH.
Qed.

Lemma normalize_name_app (s t : str) :
  normalize_name (s ++ t) = normalize_name s ++ normalize_name t.
Proof. unfold normalize_name, lower. by rewrite List.map_app, List.filter_app. Qed.

(** X7.  The key of a name is made of lower-case letters and digits only;
    taking the key again changes nothing; and the key does not change with the
    case of the letters or with characters that are neither letters nor
    digits. *)
Theorem normalize_name_is_a_key :
  (∀ s, Forall (λ c, is_lower c || is_digit c = true) (normalize_name s))
  ∧ (∀ s, normalize_name (normalize_name s) = normalize_name s)
  ∧ (∀ s, normalize_name (lower s) = normalize_name s)
  ∧ (∀ s, normalize_name (strip s) = normalize_name s)
  ∧ (∀ s c t, is_lower (lower_char c) || is_digit c = false →
       normalize_name (s ++ c :: t) = normalize_name (s ++ t)).
Proof.
  split; [exact normalize_name_alnum|].
  split; [intros s; apply normalize_name_fixed, normalize_name_alnum|].
  split.
  { intros s. unfold normalize_name, lower. rewrite List.map_map.
    f_equal. apply List.map_ext. intros c. apply lower_char_idem. }
  split; [exact normalize_name_strip|].
  intros s c t Hc. rewrite !normalize_name_app. f_equal.
  unfold normalize_name, lower. simpl.
  assert (Hd : is_lower (lower_char c) || is_digit (lower_char c) = false).
  { revert Hc. destruct c as [[] [] [] [] [] [] [] []]; vm_compute; congruence. }
  by rewrite Hd.
Qed.

Lemma normalize_name_is_a_key_witness :
  normalize_name (L "Ludhiana" ++ " "%char :: L "East")
  = normalize_name (L "Ludhiana" ++ L "East").
Proof.
  destruct normalize_name_is_a_key as (_ & _ & _ & _ & Hdrop).
  apply Hdrop. reflexivity.
Defined.

(** *** [strip] *)

Lemma lstrip_idem (s : str) : lstrip (lstrip s) = lstrip s.
Proof.
  induction s as [|c s IH]; [done|]. simpl.
  destruct (is_space c) eqn:E; [done|]. simpl. by rewrite E.
Qed.

Lemma lstrip_snoc (u : str) (c : ascii) :
  is_space c = false → ∃ v, lstrip (u ++ [c]) = v ++ [c].
Proof.
  intros Hc. induction u as [|x u IH]; simpl.
  - rewrite Hc. by exists [].
  - destruct (is_space x); [done|]. by exists (x :: u).
Qed.

Lemma rstrip_idem (s : str) : rstrip (rstrip s) = rstrip s.
Proof. unfold rstrip. by rewrite rev_involutive, lstrip_idem. Qed.

Lemma lstrip_rstrip (t : str) : lstrip t = t → lstrip (rstrip t) = rstrip t.
Proof.
  destruct t as [|c r]; [done|]. simpl.
  destruct (is_space c) eqn:E.
  - intros Heq. exfalso.
    assert (Hlen : length (lstrip r) ≤ length r).
    { clear. induction r as [|x r IH]; simpl; [lia|].
      destruct (is_space x); simpl; lia. }
    rewrite Heq in Hlen. simpl in Hlen. lia.
  - intros _. unfold rstrip. simpl.
    destruct (lstrip_snoc (rev r) c E) as [v ->].
    rewrite rev_app_distr. simpl. by rewrite E.
Qed.

Lemma strip_idem (s : str) : strip (strip s) = strip s.
Proof.
  unfold strip. rewrite (lstrip_rstrip (lstrip s)) by apply lstrip_idem.
  apply rstrip_idem.
Qed.

Lemma display_map_values (key v : str) :
  DISPLAY_NAME_MAP !! key = Some v →
  v ∈ CANONICAL_ORDER ∧ DISPLAY_NAME_MAP !! normalize_name v = Some v.
Proof.
  unfold DISPLAY_NAME_MAP. intros Hk.
  apply elem_of_list_to_map_2 in Hk.
  repeat (apply elem_of_cons in Hk as [Hk|Hk];
          [injection Hk as -> ->; split; [by_decide | vm_compute; reflexivity]|]).
  by apply elem_of_nil in Hk.
Qed.

Lemma canonical_keys (n : str) :
  n ∈ CANONICAL_ORDER → DISPLAY_NAME_MAP !! normalize_name n = Some n.
Proof.
  unfold CANONICAL_ORDER. intros Hn.
  repeat (apply elem_of_cons in Hn as [->|Hn]; [vm_compute; reflexivity|]).
  by apply elem_of_nil in Hn.
Qed.

(** X8.  A name is shown as a canonical name exactly when its key is in the
    table, and every spelling with the key of a canonical name is shown as that
    name; any other name is shown stripped; showing a shown name changes
    nothing. *)
Theorem display_name_is_canonical :
  (∀ raw, display_name raw ∈ CANONICAL_ORDER
          ↔ is_Some (DISPLAY_NAME_MAP !! normalize_name raw))
  ∧ (∀ raw n, n ∈ CANONICAL_ORDER → normalize_name raw = normalize_name n →
       display_name raw = n)
  ∧ (∀ raw, display_name raw ∉ CANONICAL_ORDER → display_name raw = strip raw)
  ∧ (∀ raw, display_name (display_name raw) = display_name raw).
Proof.
  assert (Hiff : ∀ raw, display_name raw ∈ CANONICAL_ORDER
                        ↔ is_Some (DISPLAY_NAME_MAP !! normalize_name raw)).
  { intros raw. unfold display_name. split.
    - intros Hin.
      destruct (DISPLAY_NAME_MAP !! normalize_name raw) as [v|] eqn:E; [done|].
      simpl in Hin. apply canonical_keys in Hin.
      rewrite normalize_name_strip in Hin. congruence.
    - intros [v Hv]. rewrite Hv. simpl.
      by apply display_map_values in Hv as [? _]. }
  split; [exact Hiff|]. split; [|split].
  - intros raw n Hn Hkey. unfold display_name.
    by rewrite Hkey, (canonical_keys n Hn).
  - intros raw Hnot.
    destruct (DISPLAY_NAME_MAP !! normalize_name raw) as [v|] eqn:E.
    + exfalso. apply Hnot, Hiff. by rewrite E.
    + unfold display_name. by rewrite E.
  - intros raw.
    destruct (DISPLAY_NAME_MAP !! normalize_name raw) as [v|] eqn:E.
    + assert (Hd : display_name raw = v)
        by (unfold display_name; by rewrite E).
      rewrite Hd. apply display_map_values in E as [_ Hv].
      unfold display_name. by rewrite Hv.
    + assert (Hd : display_name raw = strip raw)
        by (unfold display_name; by rewrite E).
      rewrite Hd. unfold display_name.
      by rewrite normalize_name_strip, E, strip_idem.
Qed.

Lemma display_name_is_canonical_witness :
  display_name (L "  ludhiana WEST ") = L "Ludhiana (West)".
Proof.
  destruct display_name_is_canonical as (_ & Hsame & _).
  apply Hsame; [|reflexivity].
  apply (bool_decide_unpack (L "Ludhiana (West)" ∈ CANONICAL_ORDER)).
  vm_compute. exact I.
Defined.

(** *** Decimal digits *)

Lemma uint_digits (d : Decimal.uint) :
  Forall (λ c, is_digit c = true) (L (NilEmpty.string_of_uint d)).
Proof.
  unfold L. induction d; simpl; constructor; done.
Qed.

Lemma uint_value_acc (d : Decimal.uint) (acc : positive) :
  fold_left digit_step (L (NilEmpty.string_of_uint d)) (Z.pos acc)
  = Z.pos (Pos.of_uint_acc d acc).
Proof.
  unfold L. revert acc. induction d; intros acc; simpl; [done|..];
    rewrite <- IHd; f_equal; unfold digit_step; vm_compute digit_val; lia.
Qed.

Lemma uint_value (d : Decimal.uint) :
  fold_left digit_step (L (NilEmpty.string_of_uint d)) 0%Z
  = Z.of_N (Pos.of_uint d).
Proof.
  induction d; try done;
    unfold L; simpl; fold (L (NilEmpty.string_of_uint d));
    try (change (digit_step 0 _) with (Z.pos 1); apply uint_value_acc);
    try (change (digit_step 0 _) with (Z.pos 2); apply uint_value_acc);
    try (change (digit_step 0 _) with (Z.pos 3); apply uint_value_acc);
    try (change (digit_step 0 _) with (Z.pos 4); apply uint_value_acc);
    try (change (digit_step 0 _) with (Z.pos 5); apply uint_value_acc);
    try (change (digit_step 0 _) with (Z.pos 6); apply uint_value_acc);
    try (change (digit_step 0 _) with (Z.pos 7); apply uint_value_acc);
    try (change (digit_step 0 _) with (Z.pos 8); apply uint_value_acc);
    try (change (digit_step 0 _) with (Z.pos 9); apply uint_value_acc).
Qed.

Lemma str_of_Z_pos (p : positive) :
  str_of_Z (Z.pos p) = L (NilEmpty.string_of_uint (Pos.to_uint p)).
Proof.
  unfold str_of_Z. simpl. unfold NilZero.string_of_uint.
  pose proof (Unsigned.to_uint_nonnil p) as Hn.
  by destruct (Pos.to_uint p).
Qed.

Lemma str_of_Z_nonneg (n : Z) :
  (0 <= n)%Z →
  Forall (λ c, is_digit c = true) (str_of_Z n)
  ∧ str_of_Z n ≠ []
  ∧ digits_val (str_of_Z n) = n.
Proof.
  intros Hn. destruct n as [|p|p]; [|..|lia].
  - split; [|split]; [|done|done]. repeat constructor.
  - rewrite str_of_Z_pos. split; [apply uint_digits|]. split.
    + pose proof (Unsigned.to_uint_nonnil p) as Hnn.
      by destruct (Pos.to_uint p).
    + unfold digits_val. change (fun acc c => (10 * acc + digit_val c)%Z)
        with digit_step.
      by rewrite uint_value, Unsigned.of_to.
Qed.

Lemma str_of_Z_neg (n : Z) :
  (n < 0)%Z → str_of_Z n = "-"%char :: str_of_Z (- n).
Proof.
  intros Hn. destruct n as [|p|p]; [lia|lia|].
  change (- Z.neg p)%Z with (Z.pos p). rewrite str_of_Z_pos.
  unfold str_of_Z. simpl. unfold NilZero.string_of_uint.
  pose proof (Unsigned.to_uint_nonnil p) as Hnn.
  by destruct (Pos.to_uint p).
Qed.

(** *** Reading a number back *)

Lemma lstrip_no_space (s : str) :
  Forall (λ c, is_space c = false) s → lstrip s = s.
Proof. destruct 1 as [|c s Hc Hs]; [done|]. simpl. by rewrite Hc. Qed.

Lemma strip_no_space (s : str) :
  Forall (λ c, is_space c = false) s → strip s = s.
Proof.
  intros Hs. unfold strip, rstrip. rewrite (lstrip_no_space s Hs).
  rewrite lstrip_no_space; [apply rev_involutive|].
  apply Forall_forall. intros c Hc. rewrite Forall_forall in Hs. apply Hs.
  apply list_elem_of_In. apply list_elem_of_In, in_rev in Hc. done.
Qed.

Lemma digit_not_space (c : ascii) : is_digit c = true → is_space c = false.
Proof. destruct c as [[] [] [] [] [] [] [] []]; vm_compute; congruence. Qed.

Lemma digit_not_comma (c : ascii) :
  is_digit c = true → negb (Ascii.eqb c ","%char) = true.
Proof. destruct c as [[] [] [] [] [] [] [] []]; vm_compute; congruence. Qed.

Lemma digit_not_sign (c : ascii) :
  is_digit c = true →
  Ascii.eqb c "-"%char = false ∧ Ascii.eqb c "+"%char = false
  ∧ lower_char c = c ∧ Ascii.eqb c "_"%char = false
  ∧ Ascii.eqb c "."%char = false.
Proof. destruct c as [[] [] [] [] [] [] [] []]; vm_compute; repeat split; congruence. Qed.

Lemma remove_commas_digits (s : str) :
  Forall (λ c, is_digit c = true) s → remove_char ","%char s = s.
Proof.
  unfold remove_char. induction 1 as [|c s Hc Hs IH]; [done|]. simpl.
  by rewrite (digit_not_comma c Hc), IH.
Qed.

Lemma remove_char_app (c : ascii) (s t : str) :
  remove_char c (s ++ t) = remove_char c s ++ remove_char c t.
Proof. unfold remove_char. apply List.filter_app. Qed.

Lemma remove_commas_join (gs : list str) :
  Forall (λ c, is_digit c = true) (concat gs) →
  remove_char ","%char (join (L ",") gs) = concat gs.
Proof.
  induction gs as [|g gs IH]; [done|]. simpl. intros Hd.
  apply Forall_app in Hd as [Hg Hgs].
  destruct gs as [|g' gs].
  - unfold join. simpl. rewrite app_nil_r. by apply remove_commas_digits.
  - change (join (L ",") (g :: g' :: gs))
      with (g ++ L "," ++ join (L ",") (g' :: gs)).
    rewrite !remove_char_app, IH, remove_commas_digits by done. done.
Qed.

Lemma digitpart_rest_digits (s : str) :
  Forall (λ c, is_digit c = true) s → digitpart_rest s = (s, []).
Proof.
  induction 1 as [|c s Hc Hs IH]; [done|]. simpl. by rewrite Hc, IH.
Qed.

Lemma decimal_digits (ds : str) :
  Forall (λ c, is_digit c = true) ds → ds ≠ [] →
  decimal ds = Some (inject_Z (digits_val ds) * 1)%Q.
Proof.
  intros Hd Hne. unfold decimal, opt_digitpart, digitpart.
  destruct Hd as [|c ds Hc Hds]; [done|].
  rewrite Hc, (digitpart_rest_digits ds Hds). simpl.
  rewrite app_nil_r. reflexivity.
Qed.

Lemma float_strip_no_space (s : str) :
  Forall (λ c, is_space c = false) s → float_strip s = s.
Proof.
  intros Hs.
  assert (Hskip : ∀ t : str, Forall (λ c, is_space c = false) t →
                    skip_float_space t = t).
  { intros t [|c t' Hc _]; [done|]. simpl.
    replace (is_float_space c) with false; [done|].
    revert Hc. destruct c as [[] [] [] [] [] [] [] []]; vm_compute; congruence. }
  unfold float_strip. rewrite (Hskip s Hs).
  rewrite Hskip; [apply rev_involutive|].
  apply Forall_forall. intros c Hc. rewrite Forall_forall in Hs. apply Hs.
  apply list_elem_of_In. apply list_elem_of_In, in_rev in Hc. done.
Qed.

Lemma Qmult_inject_Z_1 (z : Z) : (inject_Z z * 1)%Q = inject_Z z.
Proof. unfold Qmult, inject_Z. simpl. by rewrite Z.mul_1_r. Qed.

Lemma float_of_digits (neg : bool) (ds : str) :
  Forall (λ c, is_digit c = true) ds → ds ≠ [] →
  float_of_str ((if neg then L "-" else []) ++ ds)
  = Ok (b64 neg (inject_Z (digits_val ds))).
Proof.
  intros Hd Hne. unfold float_of_str.
  assert (Hns : Forall (λ c, is_space c = false)
                  ((if neg then L "-" else []) ++ ds)).
  { apply Forall_app. split.
    - destruct neg; repeat constructor.
    - eapply Forall_impl; [exact Hd|]. apply digit_not_space. }
  rewrite (float_strip_no_space _ Hns).
  assert (Hsign : take_sign ((if neg then L "-" else []) ++ ds) = (neg, ds)).
  { destruct neg; [done|]. simpl.
    destruct Hd as [|c ds Hc Hds]; [done|]. simpl.
    destruct (digit_not_sign c Hc) as (-> & -> & _). done. }
  rewrite Hsign.
  assert (Hword : ∀ w, (∃ c r, w = c :: r ∧ is_digit c = false) →
                       str_eqb (lower ds) w = false).
  { intros w (c & r & -> & Hc). apply bool_decide_eq_false. intros Heq.
    destruct Hd as [|d ds Hd Hds]; [done|]. simpl in Heq.
    injection Heq as Heq _. destruct (digit_not_sign d Hd) as (_ & _ & Hl & _).
    rewrite Hl in Heq. congruence. }
  rewrite !Hword by (eexists _, _; split; [reflexivity|done]).
  simpl. by rewrite decimal_digits, Qmult_inject_Z_1.
Qed.

Lemma round_half_even_Z (z : Z) : round_half_even (inject_Z z) = z.
Proof.
  unfold round_half_even. rewrite Qfloor_Z.
  destruct (inject_Z z - inject_Z z ?= 1 # 2)%Q eqn:E; [| done |].
  - apply Qeq_alt in E. lra.
  - apply Qgt_alt in E. lra.
Qed.

Lemma Qred_inject_Z (z : Z) : Qred (inject_Z z) = inject_Z z.
Proof.
  unfold Qred, inject_Z.
  pose proof (Z.ggcd_gcd z 1) as Hg.
  pose proof (Z.ggcd_correct_divisors z 1) as Hd.
  destruct (Z.ggcd z 1) as [g [a b]]. simpl in *.
  rewrite Z.gcd_1_r in Hg. subst g. destruct Hd as [Ha Hb].
  assert (a = z) by lia. assert (b = 1%Z) by lia. subst a b. reflexivity.
Qed.

Lemma round_half_even_comp (q q' : Q) :
  (q == q')%Q → round_half_even q = round_half_even q'.
Proof.
  intros Hq. unfold round_half_even.
  rewrite (Qfloor_comp q q' Hq).
  assert (Hc : (q - inject_Z (Qfloor q') ?= 1 # 2)%Q
               = (q' - inject_Z (Qfloor q') ?= 1 # 2)%Q).
  { apply Qcompare_comp; [|reflexivity].
    apply Qplus_comp; [exact Hq|reflexivity]. }
  by rewrite Hc.
Qed.

Lemma pow2_pos (e : Z) : (0 < pow2 e)%Q.
Proof. apply Qpower_0_lt. reflexivity. Qed.

Lemma pow2_Z (e : Z) : (0 <= e)%Z → (pow2 e == inject_Z (2 ^ e))%Q.
Proof. intros He. unfold pow2. symmetry. by apply (Zpower_Qpower 2). Qed.

Lemma pow2_cancel (e : Z) : (pow2 (- e) * pow2 e == 1)%Q.
Proof.
  unfold pow2. rewrite <- Qpower_plus by discriminate.
  replace (- e + e)%Z with 0%Z by lia. reflexivity.
Qed.

(** A magnitude that is a multiple of its last place is a binary64
    number. *)
Lemma round_b64_fixed (m : Q) (w : Z) :
  (m == inject_Z w * pow2 (ulp_exponent m))%Q → (round_b64 m == m)%Q.
Proof.
  intros Hm. unfold round_b64. cbv zeta.
  set (e := ulp_exponent m) in *.
  pose proof (pow2_pos e) as Hp.
  assert (Hdiv : (m / pow2 e == inject_Z w)%Q).
  { rewrite Hm. apply Qdiv_mult_l. lra. }
  rewrite (round_half_even_comp _ _ Hdiv), round_half_even_Z.
  rewrite Qred_correct. symmetry. exact Hm.
Qed.

Lemma ulp_exponent_Z (z : Z) :
  (0 < z)%Z → ulp_exponent (inject_Z z) = (Z.log2 z - 52)%Z.
Proof.
  intros Hz. unfold ulp_exponent. cbn [Qnum Qden inject_Z].
  change (Z.log2 1) with 0%Z. rewrite Z.sub_0_r.
  pose proof (Z.log2_spec z Hz) as [Hlo Hhi].
  pose proof (Z.log2_nonneg z) as Hk.
  assert (Hle : Qle_bool (pow2 (Z.log2 z)) (inject_Z z) = true).
  { apply Qle_bool_iff. rewrite (pow2_Z _ Hk). by rewrite <- Zle_Qle. }
  rewrite Hle. lia.
Qed.

Lemma round_b64_Z (z : Z) :
  (0 <= z <= 2 ^ 53)%Z → round_b64 (inject_Z z) = inject_Z z.
Proof.
  intros Hz.
  destruct (Z.eq_dec z 0%Z) as [->|Hne]; [vm_compute; reflexivity|].
  destruct (Z.eq_dec z (2 ^ 53)%Z) as [->|Hne']; [vm_compute; reflexivity|].
  assert (Hpos : (0 < z)%Z) by lia.
  assert (Hk : (Z.log2 z < 53)%Z) by (apply Z.log2_lt_pow2; lia).
  pose proof (Z.log2_nonneg z) as Hk0.
  assert (Hfix : (round_b64 (inject_Z z) == inject_Z z)%Q).
  { apply (round_b64_fixed _ (z * 2 ^ (52 - Z.log2 z))).
    rewrite (ulp_exponent_Z z Hpos).
    rewrite inject_Z_mult, <- (pow2_Z (52 - Z.log2 z)) by lia.
    replace (52 - Z.log2 z)%Z with (- (Z.log2 z - 52))%Z by lia.
    rewrite <- Qmult_assoc, pow2_cancel. ring. }
  unfold round_b64 in *. cbv zeta in *. rewrite Qred_correct in Hfix.
  etransitivity; [|apply Qred_inject_Z]. by apply Qred_complete.
Qed.

Lemma exact_range : (2 ^ 53 < float_overflow)%Z.
Proof. vm_compute. reflexivity. Qed.

Lemma small_no_overflow (z : Z) (q : Q) :
  (Z.abs z <= 2 ^ 53)%Z → (q == inject_Z z)%Q → overflows q = false.
Proof.
  intros Hz Hq. unfold overflows.
  destruct (Qle_bool (inject_Z float_overflow) (Qabs q)) eqn:E; [|done].
  apply Qle_bool_iff in E. exfalso.
  assert (Habs : (Qabs q == inject_Z (Z.abs z))%Q).
  { rewrite Hq. unfold Qabs, inject_Z. reflexivity. }
  rewrite Habs in E. rewrite <- Zle_Qle in E.
  pose proof exact_range. lia.
Qed.

(** An integer of at most 53 bits is a float. *)
Lemma b64_Z (neg : bool) (z : Z) :
  (0 < z <= 2 ^ 53)%Z →
  b64 neg (inject_Z z) = Finite (inject_Z (if neg then - z else z)).
Proof.
  intros Hz. unfold b64.
  rewrite (small_no_overflow z) by (lia || reflexivity).
  cbv zeta. rewrite round_b64_Z by lia.
  assert (Hnz : Qeq_bool (inject_Z z) 0 = false).
  { destruct (Qeq_bool (inject_Z z) 0) eqn:E; [|done].
    apply Qeq_bool_iff in E. unfold Qeq in E. simpl in E. lia. }
  rewrite Hnz. by destruct neg.
Qed.

Lemma fl_Z (z : Z) :
  (Z.abs z <= 2 ^ 53)%Z → fl (inject_Z z) = Finite (inject_Z z).
Proof.
  intros Hz. unfold fl.
  destruct (Z.eq_dec z 0%Z) as [->|Hne]; [vm_compute; reflexivity|].
  change (Qabs (inject_Z z)) with (inject_Z (Z.abs z)).
  rewrite b64_Z by lia. f_equal. f_equal.
  destruct (Qle_bool 0 (inject_Z z)) eqn:E; simpl.
  - apply Qle_bool_iff in E. change 0%Q with (inject_Z 0) in E.
    rewrite <- Zle_Qle in E. lia.
  - assert (¬ (0 <= z)%Z).
    { intros Hp. rewrite Zle_Qle in Hp. apply Qle_bool_iff in Hp.
      change (inject_Z 0) with 0%Q in Hp. congruence. }
    lia.
Qed.

Lemma digits_no_space_sign (n : Z) :
  (0 <= n)%Z → str_of_Z n ≠ L "-".
Proof.
  intros Hn Heq. destruct (str_of_Z_nonneg n Hn) as (Hd & _ & _).
  rewrite Heq in Hd. by apply Forall_cons in Hd as [Hd _].
Qed.

Lemma parse_signed_digits (neg : bool) (a : Z) :
  (0 <= a <= 2 ^ 53)%Z → (neg = true → (0 < a)%Z) →
  parse_number_text ((if neg then L "-" else []) ++ str_of_Z a)
  = Ok (Finite (inject_Z (if neg then - a else a))).
Proof.
  intros Ha Hneg. destruct (str_of_Z_nonneg a) as (Hd & Hne & Hval); [lia|].
  unfold parse_number_text. cbv zeta.
  assert (Hns : Forall (λ c, is_space c = false)
                  ((if neg then L "-" else []) ++ str_of_Z a)).
  { apply Forall_app. split.
    - destruct neg; repeat constructor.
    - eapply Forall_impl; [exact Hd|]. apply digit_not_space. }
  rewrite (strip_no_space _ Hns), remove_char_app, (remove_commas_digits _ Hd).
  assert (Hsg : ∀ sg : list ascii, sg = L "-" ∨ sg = [] →
                 remove_char ","%char sg = sg) by (by intros sg [-> | ->]).
  rewrite Hsg by (destruct neg; auto).
  assert (Hne1 : str_eqb ((if neg then L "-" else []) ++ str_of_Z a) [] = false).
  { apply bool_decide_eq_false. intros Heq. apply app_eq_nil in Heq as [_ ?].
    done. }
  assert (Hne2 : str_eqb ((if neg then L "-" else []) ++ str_of_Z a) (L "-")
                 = false).
  { apply bool_decide_eq_false. destruct neg; simpl.
    - intros Heq. change (L "-") with ("-"%char :: []) in Heq.
      injection Heq as Heq. done.
    - apply digits_no_space_sign. lia. }
  rewrite Hne1, Hne2. simpl.
  rewrite float_of_digits by done. rewrite Hval.
  destruct (Z.eq_dec a 0%Z) as [->|Hnz].
  - destruct neg; [by specialize (Hneg eq_refl)|]. vm_compute. reflexivity.
  - by rewrite b64_Z by lia.
Qed.

(** X9.  An integer of at most 53 bits comes back from its text: [to_int] reads
    [format_indian_number n] and [str(n)] as [n], and leaves an [int] cell [n]
    as it is. *)
Theorem indian_number_reads_back (n : Z) :
  (Z.abs n <= 2 ^ 53)%Z →
  to_int (CStr (format_indian_number n)) = Ok n
  ∧ to_int (CStr (str_of_Z n)) = Ok n
  ∧ to_int (CInt n) = Ok n.
Proof.
  intros Hn.
  assert (Hstr : str_of_Z n
                 = (if (n <? 0)%Z then L "-" else []) ++ str_of_Z (Z.abs n)).
  { destruct (n <? 0)%Z eqn:E.
    - apply Z.ltb_lt in E. rewrite str_of_Z_neg by done.
      by rewrite Z.abs_neq by lia.
    - apply Z.ltb_ge in E. by rewrite Z.abs_eq by lia. }
  assert (Hparse : parse_number_text (str_of_Z n) = Ok (Finite (inject_Z n))).
  { rewrite Hstr, parse_signed_digits by (intros; lia).
    destruct (n <? 0)%Z eqn:E; do 3 f_equal; lia. }
  split; [|split].
  - destruct (format_indian_number_groups n)
      as (front & last3 & Hfmt & Hcat & _).
    destruct (str_of_Z_nonneg (Z.abs n)) as (Hd & _ & _); [lia|].
    unfold to_int. cbn [parse_number].
    assert (Hsame : parse_number_text (format_indian_number n)
                    = parse_number_text (str_of_Z n)).
    { unfold parse_number_text. cbv zeta.
      assert (Hdg : Forall (λ c, is_digit c = true) (concat (front ++ [last3]))).
      { rewrite concat_app. simpl. by rewrite app_nil_r, Hcat. }
      assert (Hns : ∀ s : str,
                Forall (λ c, is_digit c = true ∨ c = ","%char ∨ c = "-"%char) s →
                strip s = s).
      { intros s Hs. apply strip_no_space. eapply Forall_impl; [exact Hs|].
        intros c [Hc|[->| ->]]; [by apply digit_not_space|done|done]. }
      rewrite Hfmt, Hstr.
      rewrite !Hns.
      - rewrite !remove_char_app, remove_commas_join by done.
        rewrite concat_app. simpl. rewrite app_nil_r, Hcat.
        by rewrite (remove_commas_digits _ Hd).
      - apply Forall_app. split; [destruct (n <? 0)%Z; [constructor; [auto|constructor] | constructor]|].
        eapply Forall_impl; [exact Hd|]. auto.
      - apply Forall_app. split; [destruct (n <? 0)%Z; [constructor; [auto|constructor] | constructor]|].
        clear Hfmt Hcat. induction (front ++ [last3]) as [|g gs IH]; [constructor|].
        simpl in Hdg. apply Forall_app in Hdg as [Hg Hgs].
        destruct gs as [|g' gs].
        + unfold join. eapply Forall_impl; [exact Hg|]. auto.
        + change (join (L ",") (g :: g' :: gs))
            with (g ++ L "," ++ join (L ",") (g' :: gs)).
          apply Forall_app. split; [eapply Forall_impl; [exact Hg|]; auto|].
          apply Forall_app. split; [constructor; [auto|constructor]|by apply IH]. }
    rewrite Hsame, Hparse. simpl. by rewrite round_half_even_Z.
  - unfold to_int. cbn [parse_number]. rewrite Hparse. simpl.
    by rewrite round_half_even_Z.
  - unfold to_int. cbn [parse_number]. unfold float_of_int.
    rewrite (small_no_overflow n) by done. rewrite fl_Z by done. simpl.
    by rewrite round_half_even_Z.
Qed.

Lemma indian_number_reads_back_witness :
  to_int (CStr (format_indian_number (-1234567))) = Ok (-1234567)%Z.
Proof.
  apply (indian_number_reads_back (-1234567)%Z).
  vm_compute. discriminate.
Defined.

(** *** Coercion of text *)

(** X21.  [None] and a text that is blank, a lone [-] or rejected by [float]
    once its commas are removed are coerced to 0 and to 0.0; any other text is
    coerced as the float that [float] reads in it: rounded half to even for
    an integer field, by [round(., 2)] for a percentage.  A finite value is
    rounded to an integer within a half of it, and to the float of the
    hundredth within half a hundredth of it. *)
Theorem coercion_of_text :
  (to_int CNone = Ok 0%Z ∧ to_percent CNone = Ok (Finite 0))
  ∧ (∀ s,
       remove_char ","%char (strip s) = []
       ∨ remove_char ","%char (strip s) = L "-"
       ∨ float_of_str (remove_char ","%char (strip s)) = Raise ValueError →
       to_int (CStr s) = Ok 0%Z ∧ to_percent (CStr s) = Ok (Finite 0))
  ∧ (∀ s x,
       float_of_str (remove_char ","%char (strip s)) = Ok x →
       to_int (CStr s) = int_round x ∧ to_percent (CStr s) = Ok (round2 x))
  ∧ (∀ q, ∃ z : Z,
       int_round (Finite q) = Ok z ∧ (Qabs (q - inject_Z z) <= 1 # 2)%Q)
  ∧ (∀ q, ∃ h : Z,
       round2 (Finite q) = b64 (is_negative (Finite q)) (Qabs (round2_q q))
       ∧ (round2_q q == h # 100)%Q
       ∧ (Qabs (q * 100 - inject_Z h) <= 1 # 2)%Q).
Proof.
  split; [split; reflexivity|].
  split.
  { intros s Hs.
    assert (Hp : parse_number_text s = Ok (Finite 0)).
    { unfold parse_number_text. cbv zeta. destruct Hs as [Hs|[Hs|Hs]].
      - by rewrite Hs.
      - by rewrite Hs.
      - destruct (_ || _); [done|]. by rewrite Hs. }
    unfold to_int, to_percent. cbn [parse_number]. rewrite Hp.
    split; reflexivity. }
  split.
  { intros s x Hx. unfold to_int, to_percent. cbn [parse_number].
    rewrite (parse_number_text_numeric s _ Hx). split; reflexivity. }
  split.
  { intros q. exists (round_half_even q). split; [reflexivity|].
    apply round_half_even_close. }
  intros q. destruct (round2_q_hundredths q) as (h & Hh & Hclose).
  exists h. split; [reflexivity|]. by split.
Qed.

Lemma coercion_of_text_witness :
  to_int (CStr (L "n/a")) = Ok 0%Z
  ∧ to_int (CStr (L "1,234.567")) = Ok 1235%Z
  ∧ to_percent (CStr (L "2.675"))
    = Ok (Finite (1503076375634903 # 562949953421312)).
Proof.
  destruct coercion_of_text as (_ & Hzero & Hnum & _).
  split; [|split].
  - apply Hzero. right. right. reflexivity.
  - destruct (Hnum (L "1,234.567") (fl (1234567 # 1000))) as [-> _];
      [vm_compute; reflexivity|]. vm_compute. reflexivity.
  - destruct (Hnum (L "2.675") (fl (2675 # 1000))) as [_ ->];
      [vm_compute; reflexivity|]. vm_compute. reflexivity.
Defined.

(** *** Dates *)

Lemma Z_range_check (P : Z → bool) (lo n : Z) :
  forallb P (List.map (λ i, (lo + Z.of_nat i)%Z) (seq 0 (Z.to_nat n))) = true →
  ∀ z, (lo <= z < lo + n)%Z → P z = true.
Proof.
  intros Hall z Hz. rewrite forallb_forall in Hall. apply Hall.
  apply in_map_iff. exists (Z.to_nat (z - lo)). split; [lia|].
  apply in_seq. lia.
Qed.

Lemma forallb_Forall_true {A} (p : A → bool) (l : list A) :
  forallb p l = true → Forall (λ c, p c = true) l.
Proof. intros Hl. apply Forall_forall. intros x Hx.
  rewrite forallb_forall in Hl. apply Hl. by apply list_elem_of_In. Qed.

Lemma short_numbers (n : Z) :
  (0 <= n < 100)%Z →
  1 ≤ length (str_of_Z n) ≤ 2
  ∧ Forall (λ c, is_digit c = true) (str_of_Z n)
  ∧ digits_val (str_of_Z n) = n.
Proof.
  intros Hn.
  assert (Hc : short_number n = true).
  { apply (Z_range_check short_number 0 100); [|lia]. vm_compute. reflexivity. }
  unfold short_number in Hc. cbv zeta in Hc.
  apply andb_true_iff in Hc as [Hc Hv]. apply andb_true_iff in Hc as [Hc Hd].
  apply andb_true_iff in Hc as [Hlo Hhi].
  apply Nat.leb_le in Hlo, Hhi. apply Z.eqb_eq in Hv.
  split; [lia|]. split; [by apply forallb_Forall_true|done].
Qed.

Lemma short_years (y : Z) :
  (10 <= y < 10000)%Z →
  let s := str_of_Z y in
  length (drop (length s - 2) s) = 2
  ∧ Forall (λ c, is_digit c = true) (drop (length s - 2) s)
  ∧ digits_val (drop (length s - 2) s) = (y mod 100)%Z.
Proof.
  intros Hy.
  assert (Hc : short_year y = true).
  { apply (Z_range_check short_year 10 9990); [|lia]. vm_compute. reflexivity. }
  unfold short_year in Hc. cbv zeta in *.
  apply andb_true_iff in Hc as [Hc Hv]. apply andb_true_iff in Hc as [Hl Hd].
  apply Nat.eqb_eq in Hl. apply Z.eqb_eq in Hv.
  split; [done|]. split; [by apply forallb_Forall_true|done].
Qed.

Lemma run_stops (p : ascii → bool) (a r : str) :
  Forall (λ c, p c = true) a →
  match r with [] => True | c :: _ => p c = false end →
  run p (a ++ r) = length a.
Proof.
  intros Ha Hr. induction Ha as [|c a Hc Ha IH]; simpl.
  - destruct r as [|c r]; [done|]. simpl. by rewrite Hr.
  - by rewrite Hc, IH.
Qed.

Lemma backtrack_first (least : nat) (rest : str → option (list str))
    (s : str) (k : nat) (ps : list str) :
  least ≤ k → rest (drop k s) = Some ps →
  backtrack least rest s k = Some (take k s :: ps).
Proof.
  intros Hk Hr. rewrite <- (Nat.add_0_r k) at 1.
  apply backtrack_down; [done|done|]. intros j Hj. lia.
Qed.

Lemma match_atom_step (a : atom) (re : regex) (p r : str) (ps : list str) :
  Forall (λ c, accepts a c = true) p →
  at_least a ≤ length p →
  match at_most a with Some m => length p ≤ m | None => True end →
  match r with [] => True | c :: _ => accepts a c = false end →
  match_here re r = Some ps →
  match_here (a :: re) (p ++ r) = Some (p :: ps).
Proof.
  intros Hp Hlo Hhi Hr Hrest. cbn [match_here].
  assert (Hrun : run_length a (p ++ r) = length p).
  { unfold run_length. rewrite (run_stops _ p r Hp Hr).
    destruct (at_most a); lia. }
  rewrite Hrun.
  rewrite (backtrack_first _ _ _ _ ps); [by rewrite take_app_length|done|].
  by rewrite drop_app_length.
Qed.

Lemma digit_not_sep (c : ascii) :
  is_digit c = true →
  Ascii.eqb c "-"%char || Ascii.eqb c "/"%char = false.
Proof. destruct c as [[] [] [] [] [] [] [] []]; vm_compute; congruence. Qed.

Lemma match_date_text (dd mm yy : str) :
  Forall (λ c, is_digit c = true) dd → 1 ≤ length dd ≤ 2 →
  Forall (λ c, is_digit c = true) mm → 1 ≤ length mm ≤ 2 →
  Forall (λ c, is_digit c = true) yy → length yy = 2 →
  search date_re (dd ++ L "-" ++ mm ++ L "-" ++ yy)
  = Some (0, [dd; L "-"; mm; L "-"; yy]).
Proof.
  intros Hd Hdl Hm Hml Hy Hyl.
  change (L "-") with ["-"%char].
  apply search_at; [lia|intros j Hj; lia|]. rewrite drop_0.
  unfold date_re. cbv zeta.
  apply (match_atom_step _ _ dd); [exact Hd|simpl; lia|simpl; lia|done|].
  apply (match_atom_step _ _ ["-"%char]); [by repeat constructor|simpl; lia|simpl; lia| |].
  { destruct Hm as [|c mm' Hc _]; [simpl in Hml; lia|].
    simpl. by apply digit_not_sep. }
  apply (match_atom_step _ _ mm); [exact Hm|simpl; lia|simpl; lia|done|].
  apply (match_atom_step _ _ ["-"%char]); [by repeat constructor|simpl; lia|simpl; lia| |].
  { destruct Hy as [|c yy' Hc _]; [simpl in Hyl; lia|].
    simpl. by apply digit_not_sep. }
  rewrite <- (app_nil_r yy) at 1.
  apply (match_atom_step _ _ yy []); [exact Hy|simpl; lia|simpl; lia|done|done].
Qed.

Lemma make_date_Ok (y m d : Z) (dt : date) :
  make_date y m d = Ok dt →
  dt = Date y m d
  ∧ (1 <= y <= 9999)%Z ∧ (1 <= m <= 12)%Z ∧ (1 <= d <= days_in_month y m)%Z.
Proof.
  unfold make_date. intros Hm.
  destruct (_ && _) eqn:E in Hm; [|done].
  injection Hm as <-.
  repeat (apply andb_true_iff in E as [E ?]).
  split; [done|]. lia.
Qed.

Lemma make_date_valid (y m d : Z) :
  (1 <= y <= 9999)%Z → (1 <= m <= 12)%Z → (1 <= d <= days_in_month y m)%Z →
  make_date y m d = Ok (Date y m d).
Proof.
  intros Hy Hm Hd. unfold make_date.
  replace (_ && _) with true; [done|]. symmetry.
  repeat (apply andb_true_iff; split); lia.
Qed.

Lemma days_in_month_le (y m : Z) : (28 <= days_in_month y m <= 31)%Z.
Proof.
  unfold days_in_month.
  destruct (m =? 2)%Z; [destruct (is_leap y); lia|].
  destruct (_ || _); lia.
Qed.

Lemma is_leap_century (y : Z) :
  is_leap y = true → is_leap (2000 + y mod 100) = true.
Proof.
  unfold is_leap. intros Hl.
  apply andb_true_iff in Hl as [H4 Hl]. apply Z.eqb_eq in H4.
  apply andb_true_iff. split.
  - apply Z.eqb_eq. Z.div_mod_to_equations. lia.
  - apply orb_true_iff in Hl as [Hl|Hl].
    + destruct ((2000 + y mod 100) mod 100 =? 0)%Z eqn:E; [|done]. simpl.
      apply Z.eqb_eq in E. apply Z.eqb_eq.
      apply negb_true_iff, Z.eqb_neq in Hl.
      Z.div_mod_to_equations. lia.
    + apply Z.eqb_eq in Hl. apply orb_true_iff. right.
      apply Z.eqb_eq. Z.div_mod_to_equations. lia.
Qed.

Lemma days_in_month_century (y m : Z) :
  (days_in_month y m <= days_in_month (2000 + y mod 100) m)%Z.
Proof.
  unfold days_in_month. destruct (m =? 2)%Z; [|lia].
  destruct (is_leap y) eqn:E; [by rewrite (is_leap_century y E)|].
  destruct (is_leap (2000 + y mod 100)); simpl; lia.
Qed.

(** X10.  The date of the column header, [D-M-YY], is read back by
    [parse_date_tokens] with the year taken between 2000 and 2099: as the same
    date when its year is one of these, else as the same day and month of the
    year with the same two last digits. *)
Theorem header_date_reads_back (d : date) :
  make_date (year d) (month d) (day d) = Ok d →
  (10 <= year d)%Z →
  parse_date_tokens (format_surveyed_header_date d)
  = Some (Date (2000 + year d mod 100) (month d) (day d))
  ∧ ((2000 <= year d <= 2099)%Z →
     parse_date_tokens (format_surveyed_header_date d) = Some d).
Proof.
  intros Hvalid Hy.
  apply make_date_Ok in Hvalid as (_ & Hyr & Hmo & Hda).
  pose proof (days_in_month_le (year d) (month d)) as Hdim.
  destruct (short_numbers (day d)) as (Hdl & Hdd & Hdv); [lia|].
  destruct (short_numbers (month d)) as (Hml & Hmd & Hmv); [lia|].
  destruct (short_years (year d)) as (Hyl & Hyd & Hyv); [lia|].
  assert (Hparse : parse_date_tokens (format_surveyed_header_date d)
                   = Some (Date (2000 + year d mod 100) (month d) (day d))).
  { unfold parse_date_tokens, format_surveyed_header_date. cbv zeta.
    rewrite match_date_text by done.
    rewrite Hyv, Hmv, Hdv.
    assert (Hlt : (year d mod 100 <? 100)%Z = true)
      by (apply Z.ltb_lt; Z.div_mod_to_equations; lia).
    rewrite Hlt, (Z.add_comm _ 2000).
    rewrite make_date_valid; [done| |done|].
    + Z.div_mod_to_equations. lia.
    + pose proof (days_in_month_century (year d) (month d)). lia. }
  split; [done|]. intros Hcent. rewrite Hparse.
  destruct d as [y m dd]. simpl in *. do 2 f_equal.
  Z.div_mod_to_equations. lia.
Qed.

Lemma header_date_reads_back_witness :
  parse_date_tokens (format_surveyed_header_date (Date 2024 2 29))
  = Some (Date 2024 2 29).
Proof.
  apply (header_date_reads_back (Date 2024 2 29)).
  - reflexivity.
  - simpl. lia.
  - simpl. lia.
Defined.

(** *** The report date *)

Lemma digits_val_nonneg (s : str) : (0 <= digits_val s)%Z.
Proof.
  unfold digits_val.
  assert (Hacc : ∀ acc, (0 <= acc)%Z →
            (0 <= fold_left (λ acc c, 10 * acc + digit_val c) s acc)%Z).
  { induction s as [|c s IH]; intros acc Hacc; [done|]. simpl. apply IH.
    unfold digit_val. lia. }
  by apply Hacc.
Qed.

Lemma parse_date_tokens_valid (text : str) (d : date) :
  parse_date_tokens text = Some d →
  make_date (year d) (month d) (day d) = Ok d ∧ (100 <= year d)%Z.
Proof.
  unfold parse_date_tokens. intros Hp.
  destruct (search date_re text) as [[i ps]|]; [|done].
  destruct ps as [|dd [|s1 [|mm [|s2 [|yy [|]]]]]]; try done.
  cbv zeta in Hp.
  destruct (make_date _ _ _) as [dt|] eqn:Hm in Hp; [|done].
  injection Hp as ->.
  pose proof Hm as Hm'. apply make_date_Ok in Hm' as (-> & _).
  split; [exact Hm|]. simpl.
  pose proof (digits_val_nonneg yy).
  destruct (Z.ltb_spec (digits_val yy) 100); lia.
Qed.

Section ReportDate.

Variable float_repr : pyfloat → str.

Lemma first_date_in_row_spec (r : row) (d : date) :
  first_date_in_row float_repr r = Some d →
  ∃ c, c ∈ r
       ∧ (c = CDate d ∨ (∃ t, c = CDateTime d t)
          ∨ parse_date_tokens (py_str float_repr c) = Some d).
Proof.
  induction r as [|c r IH]; [done|]. cbn [first_date_in_row]. intros Hf.
  assert (Hhere : ∀ found, found = Some d →
            (found = match c with
                     | CDateTime d _ => Some d
                     | CDate d => Some d
                     | CNone => None
                     | _ => parse_date_tokens (py_str float_repr c)
                     end) →
            c = CDate d ∨ (∃ t, c = CDateTime d t)
            ∨ parse_date_tokens (py_str float_repr c) = Some d).
  { intros found -> Hc. destruct c; try (right; right; done); try done.
    - injection Hc as ->. right. left. by eexists.
    - injection Hc as ->. by left. }
  destruct (match c with
            | CDateTime d _ => Some d
            | CDate d => Some d
            | CNone => None
            | _ => parse_date_tokens (py_str float_repr c)
            end) as [d'|] eqn:E.
  - injection Hf as ->. exists c. split; [left|]. by eapply Hhere.
  - destruct (IH Hf) as (c' & Hin & Hc'). exists c'. split; [by right|done].
Qed.

Lemma first_date_in_rows_spec (rows : list row) (d : date) :
  first_date_in_rows float_repr rows = Some d →
  ∃ r, r ∈ rows ∧ first_date_in_row float_repr r = Some d.
Proof.
  induction rows as [|r rows IH]; [done|]. cbn [first_date_in_rows].
  destruct (first_date_in_row float_repr r) as [d'|] eqn:E.
  - intros [= ->]. exists r. split; [left|done].
  - intros Hf. destruct (IH Hf) as (r' & Hin & Hr'). exists r'.
    split; [by right|done].
Qed.

(** X11.  The report date is carried by a cell: a date or a time stamp of the
    first five rows, or a text of these rows or of the header of the
    surveyed-today column in which [parse_date_tokens] finds it; and a date
    found in a text is a date of the calendar from the year 100 on. *)
Theorem report_date_comes_from_a_cell (rows : list row) (header_row : row)
    (col : gmap str nat) (d : date) :
  extract_report_date float_repr rows header_row col = Ok d →
  ∃ c,
    ((∃ r, r ∈ take 5 rows ∧ c ∈ r)
     ∨ (∃ i, col !! L "surveyed_today" = Some i ∧ header_row !! i = Some c))
    ∧ (c = CDate d ∨ (∃ t, c = CDateTime d t)
       ∨ (parse_date_tokens (py_str float_repr c) = Some d
          ∧ make_date (year d) (month d) (day d) = Ok d
          ∧ (100 <= year d)%Z)).
Proof.
  unfold extract_report_date. intros He.
  destruct (first_date_in_rows float_repr (take 5 rows)) as [d'|] eqn:E.
  - injection He as ->.
    apply first_date_in_rows_spec in E as (r & Hr & E).
    apply first_date_in_row_spec in E as (c & Hc & Hd).
    exists c. split; [left; by exists r|].
    destruct Hd as [Hd|[Hd|Hd]]; [by left|by right; left|].
    right. right. split; [done|]. by eapply parse_date_tokens_valid.
  - unfold col_get, mbind, result_bind in He.
    destruct (col !! L "surveyed_today") as [i|] eqn:Hi;
      cbv beta iota in He; [|discriminate He].
    destruct (row_get header_row i) as [c|] eqn:Hc;
      cbv beta iota in He; [|discriminate He].
    unfold row_get in Hc.
    destruct (_ !! _) as [c'|] eqn:Hl in Hc; [|discriminate Hc].
    injection Hc as ->.
    destruct (parse_date_tokens (py_str float_repr c)) as [d'|] eqn:Hp; [|done].
    injection He as ->.
    exists c. split; [right; exists i; split; [done|exact Hl]|].
    right. right. split; [done|]. by eapply parse_date_tokens_valid.
Qed.

End ReportDate.

(** *** What the substitutions write *)

Lemma plain_char_safe (c : ascii) :
  is_plain_char c = true →
  c ≠ "<"%char ∧ c ≠ ")"%char ∧ c ≠ "'"%char ∧ c ≠ "]"%char ∧ c ≠ backslash.
Proof.
  destruct c as [[] [] [] [] [] [] [] []]; vm_compute; intros Hc;
    repeat split; congruence.
Qed.

Lemma plain_text_safe (s : str) :
  plain_text s →
  ("<"%char ∉ s) ∧ (")"%char ∉ s) ∧ ("'"%char ∉ s) ∧ ("]"%char ∉ s)
  ∧ (backslash ∉ s).
Proof.
  intros Hs.
  assert (Hc : ∀ e, (∀ c, is_plain_char c = true → c ≠ e) → e ∉ s).
  { intros e He Hin. unfold plain_text in Hs. rewrite Forall_forall in Hs.
    by apply (He e (Hs e Hin)). }
  repeat split; apply Hc; intros c Hp;
    destruct (plain_char_safe c Hp) as (? & ? & ? & ? & ?); done.
Qed.

Lemma plain_text_app (s t : str) :
  plain_text s → plain_text t → plain_text (s ++ t).
Proof. intros. by apply Forall_app. Qed.

Lemma plain_text_literal (s : str) :
  forallb is_plain_char s = true → plain_text s.
Proof. apply forallb_Forall_true. Qed.

Lemma digit_plain (c : ascii) : is_digit c = true → is_plain_char c = true.
Proof. destruct c as [[] [] [] [] [] [] [] []]; vm_compute; congruence. Qed.

Lemma str_of_Z_plain (n : Z) : plain_text (str_of_Z n) ∧ str_of_Z n ≠ [].
Proof.
  destruct (Z.lt_ge_cases n 0) as [Hn|Hn].
  - rewrite str_of_Z_neg by done.
    destruct (str_of_Z_nonneg (- n)) as (Hd & _ & _); [lia|].
    split; [|done]. apply Forall_cons. split; [done|].
    eapply Forall_impl; [exact Hd|]. apply digit_plain.
  - destruct (str_of_Z_nonneg n Hn) as (Hd & Hne & _).
    split; [|done]. eapply Forall_impl; [exact Hd|]. apply digit_plain.
Qed.

Lemma ordinal_plain (n : Z) : plain_text (ordinal n) ∧ ordinal n ≠ [].
Proof.
  destruct (str_of_Z_plain n) as [Hp Hne]. unfold ordinal. split.
  - apply plain_text_app; [done|]. unfold ordinal_suffix.
    repeat match goal with
           |- context [if ?b then _ else _] => destruct b
           end; apply plain_text_literal; reflexivity.
  - intros Heq. by apply app_eq_nil in Heq as [? _].
Qed.

Lemma month_name_plain (m : Z) : plain_text (month_name m).
Proof.
  unfold month_name.
  assert (Hall : forallb (λ s, forallb is_plain_char (L s)) (""%string :: month_names)
                 = true) by (vm_compute; reflexivity).
  rewrite forallb_forall in Hall. apply plain_text_literal, Hall.
  destruct (nth_in_or_default (Z.to_nat (m - 1)) month_names ""%string)
    as [Hin| ->]; [by right|by left].
Qed.

Lemma format_as_of_date_plain (d : date) :
  plain_text (format_as_of_date d) ∧ 1 ≤ length (format_as_of_date d).
Proof.
  unfold format_as_of_date. destruct (ordinal_plain (day d)) as [Ho Hne].
  split.
  - apply plain_text_app; [exact Ho|].
    apply plain_text_app; [apply plain_text_literal; reflexivity|].
    apply plain_text_app; [apply month_name_plain|].
    apply plain_text_app; [apply plain_text_literal; reflexivity|].
    apply str_of_Z_plain.
  - rewrite length_app. destruct (ordinal (day d)); [done|]. simpl. lia.
Qed.

Lemma format_daily_chart_label_plain (d : date) :
  plain_text (format_daily_chart_label d)
  ∧ 1 ≤ length (format_daily_chart_label d).
Proof.
  unfold format_daily_chart_label. destruct (ordinal_plain (day d)) as [Ho Hne].
  split.
  - apply plain_text_app; [exact Ho|].
    apply plain_text_app; [apply plain_text_literal; reflexivity|].
    unfold month_abbr. apply Forall_take, month_name_plain.
  - rewrite length_app. destruct (ordinal (day d)); [done|]. simpl. lia.
Qed.

Lemma format_surveyed_header_date_plain (d : date) :
  plain_text (format_surveyed_header_date d)
  ∧ 1 ≤ length (format_surveyed_header_date d).
Proof.
  unfold format_surveyed_header_date. cbv zeta.
  destruct (str_of_Z_plain (day d)) as [Hd Hne].
  split.
  - apply plain_text_app; [exact Hd|].
    apply plain_text_app; [apply plain_text_literal; reflexivity|].
    apply plain_text_app; [apply str_of_Z_plain|].
    apply plain_text_app; [apply plain_text_literal; reflexivity|].
    apply Forall_drop, str_of_Z_plain.
  - rewrite length_app. destruct (str_of_Z (day d)); [done|]. simpl. lia.
Qed.

Lemma sub_plain (m : str) (e : ascii) (suf x v P Q : str) :
  first_at m P → plain_text x → 1 ≤ length x → plain_text v →
  (is_plain_char e = false) → e ∈ suf → backslash ∉ m → backslash ∉ suf →
  re_sub_first (shape_re m e 1 suf) (m ++ v ++ suf) (P ++ (m ++ x ++ suf) ++ Q)
  = Ok (P ++ (m ++ v ++ suf) ++ Q).
Proof.
  intros HP Hx Hlen Hv He Hsuf Hm Hs.
  apply re_sub_first_splice; try done.
  - intros Hin. unfold plain_text in Hx. rewrite Forall_forall in Hx.
    specialize (Hx e Hin). congruence.
  - apply plain_text_safe in Hv as (_ & _ & _ & _ & Hv).
    rewrite !elem_of_app. tauto.
Qed.

(** X12.  The three date texts are replaced whatever the dates: where the first
    as-of line, surveyed header or chart label of the document holds the text
    of one date, the substitution for any other date puts its own text in that
    place and changes nothing else. *)
Theorem dates_replace_cleanly (old new : date) (P Q : str) :
  (first_at (L "<p>Ludhiana District | Data as of ") P →
   re_sub_first as_of_re
     (L "<p>Ludhiana District | Data as of " ++ format_as_of_date new ++ L "</p>")
     (P ++ (L "<p>Ludhiana District | Data as of " ++ format_as_of_date old
            ++ L "</p>") ++ Q)
   = Ok (P ++ (L "<p>Ludhiana District | Data as of " ++ format_as_of_date new
               ++ L "</p>") ++ Q))
  ∧ (first_at (L "<th>Surveyed (") P →
     re_sub_first surveyed_header_re
       (L "<th>Surveyed (" ++ format_surveyed_header_date new ++ L ")</th>")
       (P ++ (L "<th>Surveyed (" ++ format_surveyed_header_date old
              ++ L ")</th>") ++ Q)
     = Ok (P ++ (L "<th>Surveyed (" ++ format_surveyed_header_date new
                 ++ L ")</th>") ++ Q))
  ∧ (first_at (L "label: 'Plots Surveyed (") P →
     re_sub_first daily_label_re
       (L "label: 'Plots Surveyed (" ++ format_daily_chart_label new ++ L ")'")
       (P ++ (L "label: 'Plots Surveyed (" ++ format_daily_chart_label old
              ++ L ")'") ++ Q)
     = Ok (P ++ (L "label: 'Plots Surveyed (" ++ format_daily_chart_label new
                 ++ L ")'") ++ Q)).
Proof.
  assert (Hlit : ∀ e (s : str), negb (bool_decide (e ∈ s)) = true → e ∉ s).
  { intros e s Hs. by apply negb_true_iff, bool_decide_eq_false in Hs. }
  assert (Hmem : ∀ e (s : str), bool_decide (e ∈ s) = true → e ∈ s).
  { intros e s Hs. by apply bool_decide_eq_true in Hs. }
  split; [|split]; intros HP.
  - apply (sub_plain _ "<"%char); try done;
      try apply format_as_of_date_plain;
      try (apply Hlit; vm_compute; reflexivity).
    apply Hmem. vm_compute. reflexivity.
  - apply (sub_plain _ ")"%char); try done;
      try apply format_surveyed_header_date_plain;
      try (apply Hlit; vm_compute; reflexivity).
    apply Hmem. vm_compute. reflexivity.
  - apply (sub_plain _ "'"%char); try done;
      try apply format_daily_chart_label_plain;
      try (apply Hlit; vm_compute; reflexivity).
    apply Hmem. vm_compute. reflexivity.
Qed.

Lemma dates_replace_cleanly_witness :
  re_sub_first as_of_re
    (L "<p>Ludhiana District | Data as of "
     ++ format_as_of_date (Date 2024 2 29) ++ L "</p>")
    ([] ++ (L "<p>Ludhiana District | Data as of "
            ++ format_as_of_date (Date 2023 12 31) ++ L "</p>") ++ [])
  = Ok ([] ++ (L "<p>Ludhiana District | Data as of "
               ++ format_as_of_date (Date 2024 2 29) ++ L "</p>") ++ []).
Proof.
  apply (dates_replace_cleanly (Date 2023 12 31) (Date 2024 2 29) [] []).
  vm_compute. reflexivity.
Defined.

(** *** Arrays of numbers *)

Lemma elem_of_checked (e : ascii) (s : str) :
  bool_decide (e ∈ s) = true → e ∈ s.
Proof. intros Hs. by apply bool_decide_eq_true in Hs. Qed.

Lemma not_elem_of_checked (e : ascii) (s : str) :
  bool_decide (e ∈ s) = false → e ∉ s.
Proof. intros Hs. by apply bool_decide_eq_false in Hs. Qed.

Lemma format_2f_plain (x : pyfloat) : plain_text (format_2f x).
Proof.
  destruct x as [q| |[]|]; try (apply plain_text_literal; reflexivity).
  unfold format_2f. cbv zeta.
  apply plain_text_app;
    [destruct (is_negative _); apply plain_text_literal; reflexivity|].
  apply plain_text_app; [apply str_of_Z_plain|].
  apply plain_text_app; [apply plain_text_literal; reflexivity|].
  apply plain_text_app; apply str_of_Z_plain.
Qed.

Lemma join_plain (parts : list str) :
  Forall plain_text parts → plain_text (join (L ", ") parts).
Proof.
  induction 1 as [|p ps Hp Hps IH]; [constructor|].
  destruct ps as [|p' ps]; [exact Hp|].
  change (join (L ", ") (p :: p' :: ps))
    with (p ++ L ", " ++ join (L ", ") (p' :: ps)).
  apply plain_text_app; [done|].
  apply plain_text_app; [apply plain_text_literal; reflexivity|done].
Qed.

Lemma array_plain (n old new P Q : str) :
  backslash ∉ n → first_at (array_open n) P →
  plain_text old → plain_text new →
  replace_array_const (P ++ (array_open n ++ old ++ L "];") ++ Q) n new
  = Ok (P ++ (array_open n ++ new ++ L "];") ++ Q).
Proof.
  intros Hn HP Hold Hnew. unfold replace_array_const.
  rewrite array_re_shape.
  apply plain_text_safe in Hold as (_ & _ & _ & Hold & _).
  apply plain_text_safe in Hnew as (_ & _ & _ & _ & Hnew).
  assert (Hsuf : "]"%char ∈ L "];") by (apply elem_of_checked; vm_compute; reflexivity).
  destruct (search_shape (array_open n) "]"%char 0 (L "];") old P Q)
    as (ps & Hs & _); [done|done|lia|done|].
  rewrite Hs.
  replace (L "const " ++ n ++ L " = [" ++ new ++ L "];")
    with (array_open n ++ new ++ L "];")
    by (unfold array_open; by rewrite <- !app_assoc).
  apply re_sub_first_splice; [done|done|lia|done|].
  unfold array_open. rewrite !elem_of_app.
  pose proof (not_elem_of_checked backslash (L "const ")
                ltac:(vm_compute; reflexivity)).
  pose proof (not_elem_of_checked backslash (L " = [")
                ltac:(vm_compute; reflexivity)).
  pose proof (not_elem_of_checked backslash (L "];")
                ltac:(vm_compute; reflexivity)).
  tauto.
Qed.

(** X13.  An array of numbers is replaced whatever the numbers: where the first
    array of the name holds the integers or the percentages of one run,
    [replace_array_const] puts those of the next in their place and changes
    nothing else. *)
Theorem number_arrays_replace_cleanly (n P Q : str) :
  backslash ∉ n → first_at (array_open n) P →
  (∀ old new : list Z,
     replace_array_const
       (P ++ (array_open n ++ join (L ", ") (List.map str_of_Z old) ++ L "];")
        ++ Q)
       n (join (L ", ") (List.map str_of_Z new))
     = Ok (P ++ (array_open n ++ join (L ", ") (List.map str_of_Z new)
                 ++ L "];") ++ Q))
  ∧ (∀ old new : list pyfloat,
       replace_array_const
         (P ++ (array_open n ++ join (L ", ") (List.map format_2f old)
                ++ L "];") ++ Q)
         n (join (L ", ") (List.map format_2f new))
       = Ok (P ++ (array_open n ++ join (L ", ") (List.map format_2f new)
                   ++ L "];") ++ Q)).
Proof.
  intros Hn HP.
  assert (HZ : ∀ l : list Z, plain_text (join (L ", ") (List.map str_of_Z l))).
  { intros l. apply join_plain, Forall_forall. intros s Hs.
    apply list_elem_of_In, in_map_iff in Hs as (z & <- & _).
    apply str_of_Z_plain. }
  assert (HF : ∀ l : list pyfloat,
            plain_text (join (L ", ") (List.map format_2f l))).
  { intros l. apply join_plain, Forall_forall. intros s Hs.
    apply list_elem_of_In, in_map_iff in Hs as (z & <- & _).
    apply format_2f_plain. }
  split; intros old new; by apply array_plain.
Qed.

Lemma number_arrays_replace_cleanly_witness :
  replace_array_const
    ([] ++ (array_open (L "inField")
            ++ join (L ", ") (List.map str_of_Z [3; 14]%Z) ++ L "];") ++ [])
    (L "inField") (join (L ", ") (List.map str_of_Z [15; 9; 26]%Z))
  = Ok ([] ++ (array_open (L "inField")
               ++ join (L ", ") (List.map str_of_Z [15; 9; 26]%Z) ++ L "];")
        ++ []).
Proof.
  apply (number_arrays_replace_cleanly (L "inField") [] []).
  - apply not_elem_of_checked. vm_compute. reflexivity.
  - vm_compute. reflexivity.
Defined.

(** *** Replacing between two markers *)

Lemma find_from_first_at (m t : str) (i : nat) :
  find_from m t = Some i →
  ∃ P rest, t = P ++ m ++ rest ∧ length P = i ∧ first_at m P.
Proof.
  intros Hf. pose proof Hf as Hf'.
  apply find_from_Some in Hf' as (Hi & Hst & Hno).
  apply starts_with_split in Hst as [rest Hrest].
  exists (take i t), rest.
  assert (Hlen : length (take i t) = i) by (rewrite length_take; lia).
  assert (Ht : t = take i t ++ m ++ rest) by (by rewrite <- Hrest, take_drop).
  split; [done|]. split; [done|].
  unfold first_at. apply find_from_Some. rewrite Hlen. split; [|split].
  - rewrite length_app. lia.
  - rewrite <- Hlen at 1. rewrite drop_app_length.
    rewrite <- (app_nil_r m) at 2. apply starts_with_app.
  - intros j Hj. specialize (Hno j Hj). rewrite Ht in Hno.
    rewrite app_assoc, drop_app_le in Hno by (rewrite length_app; lia).
    rewrite starts_with_long in Hno; [done|].
    rewrite length_drop, length_app. lia.
Qed.

Lemma replace_between_Ok (text s e r out : str) :
  replace_between text s e r = Ok out →
  ∃ P M Q,
    text = P ++ M ++ e ++ Q
    ∧ out = P ++ r ++ e ++ Q
    ∧ first_at s P ∧ starts_with s (M ++ e ++ Q) = true ∧ first_at e M.
Proof.
  unfold replace_between, find. rewrite drop_0.
  destruct (find_from s text) as [i|] eqn:Hs; cbn [fmap option_fmap option_map];
    [|done].
  destruct (find_from e (drop (0 + i) text)) as [k|] eqn:He;
    cbn [fmap option_fmap option_map]; [|done].
  simpl in He. intros [= <-].
  destruct (find_from_first_at s text i Hs) as (P & rest & Ht & HP & Hfs).
  destruct (find_from_first_at e (drop i text) k He) as (M & Q & Hd & HM & Hfe).
  assert (Hdrop : drop i text = s ++ rest).
  { rewrite Ht, <- HP. apply drop_app_length. }
  exists P, M, Q. simpl.
  assert (Htake : take i text = P).
  { rewrite Ht, <- HP. apply take_app_length. }
  assert (Htext : text = P ++ M ++ e ++ Q).
  { by rewrite <- (take_drop i text), Htake, Hd. }
  split; [done|]. split.
  - rewrite Htake. do 2 f_equal.
    rewrite <- drop_drop, Hd, <- HM. apply drop_app_length.
  - split; [done|]. split; [|done].
    rewrite <- Hd, Hdrop. apply starts_with_app.
Qed.

(** X14.  [replace_between] keeps what is before the first start marker and
    what is from the first end marker at or after it on, the end marker with
    it, and puts the replacement between them; it raises [ValueError] when the
    start marker is missing or no end marker follows its first occurrence. *)
Theorem replace_between_keeps_the_rest (text s e r : str) :
  match replace_between text s e r with
  | Ok out =>
      ∃ P M Q,
        text = P ++ M ++ e ++ Q
        ∧ out = P ++ r ++ e ++ Q
        ∧ first_at s P ∧ starts_with s (M ++ e ++ Q) = true ∧ first_at e M
  | Raise err =>
      err = ValueError
      ∧ (find_from s text = None
         ∨ ∃ i, find_from s text = Some i ∧ find_from e (drop i text) = None)
  end.
Proof.
  destruct (replace_between text s e r) as [out|err] eqn:Hrun.
  - by apply replace_between_Ok.
  - unfold replace_between, find in Hrun. rewrite drop_0 in Hrun.
    destruct (find_from s text) as [i|] eqn:Hs;
      cbn [fmap option_fmap option_map] in Hrun;
      [|injection Hrun as <-; by split; [|left]].
    destruct (find_from e (drop (0 + i) text)) as [k|] eqn:He;
      cbn [fmap option_fmap option_map] in Hrun; [done|].
    injection Hrun as <-. split; [done|]. right. by exists i.
Qed.

(** X15.  A replacement that starts with the start marker and holds no end
    marker settles: once [replace_between] has put it in, doing so again
    changes nothing. *)
Theorem replace_between_settles (text s e r out : str) :
  replace_between text s e r = Ok out →
  starts_with s r = true → first_at e r →
  replace_between out s e r = Ok out.
Proof.
  intros Hrun Hs He.
  destruct (replace_between_Ok text s e r out Hrun)
    as (P & M & Q & _ & -> & HP & _ & _).
  apply starts_with_split in Hs as [x ->].
  by apply replace_between_splice.
Qed.

Lemma replace_between_settles_witness :
  replace_between (L "a [old] b") (L "[") (L "]") (L "[new")
  = Ok (L "a [new] b")
  ∧ replace_between (L "a [new] b") (L "[") (L "]") (L "[new")
    = Ok (L "a [new] b").
Proof.
  split; [reflexivity|].
  apply (replace_between_settles (L "a [old] b") (L "[") (L "]") (L "[new"));
    reflexivity.
Defined.

(** *** Classes of the bars and badges *)

Lemma float_ge_mono (p : pyfloat) (a b : Z) :
  (a <= b)%Z → float_ge p b = true → float_ge p a = true.
Proof.
  intros Hab. destruct p as [q| |neg|]; [|simpl; lia|done|done]. simpl.
  rewrite !Qle_bool_iff. intros Hb.
  apply Qle_trans with (inject_Z b); [|done]. by rewrite <- Zle_Qle.
Qed.

(** X16.  The bar and the badge of a survey percentage always show the same of
    the three levels. Those of an approval percentage agree except from 15 up
    to 20, where the bar is [high] and the badge [warning]. *)
Theorem bar_and_badge_classes (p : pyfloat) :
  (survey_bar_class p, survey_badge_class p)
    ∈ [(L "high", L "success"); (L "medium", L "warning");
       (L "low", L "danger")]
  ∧ (approval_bar_class p, approval_badge_class p)
      ∈ [(L "high", L "success"); (L "high", L "warning");
         (L "medium", L "warning"); (L "low", L "danger")]
  ∧ ((approval_bar_class p, approval_badge_class p) = (L "high", L "warning")
     ↔ float_ge p 15 = true ∧ float_ge p 20 = false).
Proof.
  unfold survey_bar_class, survey_badge_class, approval_bar_class,
    approval_badge_class.
  pose proof (float_ge_mono p 7 10 ltac:(lia)) as H7.
  pose proof (float_ge_mono p 10 15 ltac:(lia)) as H10.
  pose proof (float_ge_mono p 15 20 ltac:(lia)) as H15.
  destruct (float_ge p 7), (float_ge p 10), (float_ge p 15), (float_ge p 20);
    try (discriminate (H7 eq_refl)); try (discriminate (H10 eq_refl));
    try (discriminate (H15 eq_refl));
    (split; [repeat (constructor; fail) || (apply elem_of_list_further)
            |split; [repeat (constructor; fail) || (apply elem_of_list_further)|]]);
    try (repeat (first [left | right]); fail);
    (split; [intros Heq; first [by split | by inversion Heq]
            | intros [? ?]; first [done | reflexivity]]).
Qed.

(** *** The whole run *)

(** X17.  [main] stops with [SystemExit] when the workbook or the document is
    missing; else it extracts, substitutes and writes the document, and the
    workbooks and every other file stay as they were; when the extraction or a
    substitution raises, nothing is written. *)
Theorem main_composes (float_repr : pyfloat → str) (excel_path index_path : str)
    (w : world) :
  match workbooks w !! excel_path, files w !! index_path with
  | Some rows, Some html =>
      main float_repr excel_path index_path w
      = match read_excel_data float_repr rows ≫= (λ d, substitute d html) with
        | Ok out =>
            (Ok tt, World (workbooks w) (<[index_path := out]> (files w))
                      (written w ++ [index_path]))
        | Raise err => (Raise err, w)
        end
  | _, _ => main float_repr excel_path index_path w = (Raise SystemExit, w)
  end.
Proof.
  unfold main, io_bind, exists_workbook, exists_file, load_rows, io_pure,
    update_html, read_text, write_text, io_bind.
  destruct (workbooks w !! excel_path) as [rows|] eqn:Hw.
  - rewrite bool_decide_eq_true_2 by (by eexists). cbn [negb].
    destruct (files w !! index_path) as [html|] eqn:Hf.
    + rewrite bool_decide_eq_true_2 by (by eexists). cbn [negb].
      rewrite Hw.
      destruct (read_excel_data float_repr rows) as [d|err]; [|done].
      rewrite Hf. cbn [mbind result_bind].
      by destruct (substitute d html).
    + rewrite bool_decide_eq_false_2; [done|]. by intros [? ?].
  - rewrite bool_decide_eq_false_2; [|by intros [? ?]]. cbn [negb].
    by destruct (files w !! index_path).
Qed.

(** *** Blocks of markup *)

Lemma scan_app (p : bool) (a b : str) :
  scan p (a ++ b) = scan p a ≫= λ q, scan q b.
Proof.
  revert p. induction a as [|c a IH]; intros p; [done|]. simpl.
  destruct (is_nl c); [destruct p; [done|]|]; apply IH.
Qed.

Lemma scan_lit_app (p : bool) (l rest : str) :
  scan p l = Some false → scan p (l ++ rest) = scan false rest.
Proof. intros Hl. by rewrite scan_app, Hl. Qed.

Lemma scan_one_line (p : bool) (x : str) :
  Forall (λ c, is_nl c = false) x → scan p x = Some (match x with [] => p | _ => false end).
Proof.
  intros Hx. revert p. induction Hx as [|c x Hc Hx IH]; intros p; [done|].
  simpl. rewrite Hc, IH. by destruct x.
Qed.

Lemma scan_line_app (x rest : str) :
  Forall (λ c, is_nl c = false) x → scan false (x ++ rest) = scan false rest.
Proof.
  intros Hx. rewrite scan_app, (scan_one_line _ _ Hx). by destruct x.
Qed.

Lemma plain_one_line (s : str) :
  plain_text s → Forall (λ c, is_nl c = false) s.
Proof.
  intros Hs. eapply Forall_impl; [exact Hs|]. intros c.
  destruct c as [[] [] [] [] [] [] [] []]; vm_compute; congruence.
Qed.

Lemma scan_no_blank (a b e : str) (p : bool) :
  scan p a = Some false →
  ∀ j, j < length a →
    starts_with (ascii_of_nat 10 :: ascii_of_nat 10 :: e) (drop j (a ++ b))
    = false.
Proof.
  revert p. induction a as [|c a IH]; intros p Hs j Hj; [simpl in Hj; lia|].
  simpl in Hs. destruct j as [|j].
  - rewrite drop_0. cbn [app starts_with].
    destruct (Ascii.eqb_spec (ascii_of_nat 10) c) as [<-|Hc]; [|done].
    change (is_nl (ascii_of_nat 10)) with true in Hs. cbv iota in Hs.
    destruct p; [done|]. destruct a as [|c' a]; [done|].
    simpl in Hs. cbn [app starts_with andb].
    destruct (Ascii.eqb_spec (ascii_of_nat 10) c') as [<-|Hc']; [|done].
    change (is_nl (ascii_of_nat 10)) with true in Hs. done.
  - cbn [app drop]. simpl in Hj.
    destruct (is_nl c); [destruct p; [done|]|]; eapply IH; try done; lia.
Qed.

Lemma no_blank_first_at (a e : str) :
  scan false a = Some false →
  first_at (ascii_of_nat 10 :: ascii_of_nat 10 :: e) a.
Proof.
  intros Hs. unfold first_at. apply find_from_Some. split; [|split].
  - rewrite length_app. lia.
  - rewrite drop_app_length.
    rewrite <- (app_nil_r (_ :: _ :: e)) at 2. apply starts_with_app.
  - intros j Hj. by eapply scan_no_blank.
Qed.

Lemma join_Forall (P : ascii → Prop) (sep : str) (parts : list str) :
  Forall P sep → Forall P (concat parts) → Forall P (join sep parts).
Proof.
  intros Hsep. induction parts as [|g gs IH]; [done|]. simpl. intros Hc.
  apply Forall_app in Hc as [Hg Hgs].
  destruct gs as [|g' gs]; [done|].
  change (join sep (g :: g' :: gs)) with (g ++ sep ++ join sep (g' :: gs)).
  apply Forall_app. split; [done|]. apply Forall_app. split; [done|by apply IH].
Qed.

Lemma format_indian_number_plain (n : Z) : plain_text (format_indian_number n).
Proof.
  destruct (format_indian_number_groups n) as (front & last3 & -> & Hcat & _).
  apply plain_text_app;
    [destruct (_ <? _)%Z; apply plain_text_literal; reflexivity|].
  apply join_Forall; [apply plain_text_literal; reflexivity|].
  rewrite concat_app. simpl. rewrite app_nil_r, Hcat. apply str_of_Z_plain.
Qed.

Lemma bar_class_plain (x : pyfloat) :
  plain_text (survey_bar_class x) ∧ plain_text (approval_bar_class x).
Proof.
  unfold survey_bar_class, approval_bar_class.
  split;
    repeat match goal with
           |- context [if ?b then _ else _] => destruct b
           end; apply plain_text_literal; reflexivity.
Qed.

Ltac one_line :=
  apply plain_one_line;
  first [ apply format_indian_number_plain | apply format_2f_plain
        | apply str_of_Z_plain | apply bar_class_plain ].

Ltac scan_pieces :=
  repeat first
    [ rewrite scan_lit_app by (vm_compute; reflexivity)
    | rewrite scan_line_app by (assumption || one_line) ].

Lemma build_stats_html_scan (t : record) :
  scan false (build_stats_html t) = Some false.
Proof. unfold build_stats_html. scan_pieces. vm_compute. reflexivity. Qed.

Lemma subdivision_card_scan (r : record) (p : bool) :
  Forall (λ c, is_nl c = false) (name r) →
  scan p (subdivision_card r) = Some false.
Proof.
  intros Hname. unfold subdivision_card. cbv zeta.
  destruct p; scan_pieces; vm_compute; reflexivity.
Qed.

Lemma scan_join (ps : list str) (p : bool) :
  Forall (λ s, ∀ q, scan q s = Some false) ps → ps ≠ [] →
  scan p (join nl ps) = Some false.
Proof.
  intros Hps. revert p. induction Hps as [|s ps Hs Hps IH]; intros p Hne; [done|].
  destruct ps as [|s' ps]; [apply Hs|].
  change (join nl (s :: s' :: ps)) with (s ++ nl ++ join nl (s' :: ps)).
  rewrite scan_lit_app by apply Hs.
  rewrite scan_app. change (scan false nl) with (Some true).
  cbn [mbind option_bind]. by apply IH.
Qed.

Lemma build_subdivision_cards_html_scan (rows : list record) :
  Forall (λ r, Forall (λ c, is_nl c = false) (name r)) rows →
  scan false (build_subdivision_cards_html rows) = Some false.
Proof.
  intros Hrows. unfold build_subdivision_cards_html.
  apply scan_join; [|done].
  apply Forall_app. split; [|apply Forall_app; split].
  - apply Forall_cons. split; [|constructor].
    intros []; vm_compute; reflexivity.
  - apply Forall_forall. intros s Hs.
    apply list_elem_of_In, in_map_iff in Hs as (r & <- & Hr). intros q.
    apply subdivision_card_scan.
    rewrite Forall_forall in Hrows. apply Hrows. by apply list_elem_of_In.
  - apply Forall_cons. split; [|constructor].
    intros []; vm_compute; reflexivity.
Qed.

(** X18.  The stat cards and the subdivision cards are replaced whatever the
    numbers: where the document holds the block of one run after its first
    start marker, with the end marker behind it, [replace_between] puts the
    block of the next run in its place and changes nothing else. For the
    subdivision cards the names of the old block must hold no line feed. *)
Theorem blocks_replace_cleanly (P Q : str) :
  (first_at stats_start P →
   ∀ old new : record,
     replace_between (P ++ build_stats_html old ++ stats_end ++ Q)
       stats_start stats_end (build_stats_html new)
     = Ok (P ++ build_stats_html new ++ stats_end ++ Q))
  ∧ (first_at cards_start P →
     ∀ old new : list record,
       Forall (λ r, Forall (λ c, is_nl c = false) (name r)) old →
       replace_between (P ++ build_subdivision_cards_html old ++ cards_end ++ Q)
         cards_start cards_end (build_subdivision_cards_html new)
       = Ok (P ++ build_subdivision_cards_html new ++ cards_end ++ Q)).
Proof.
  split.
  - intros HP old new.
    assert (Hst : starts_with stats_start (build_stats_html old) = true).
    { unfold build_stats_html. rewrite starts_with_long; [|vm_compute; lia].
      vm_compute. reflexivity. }
    apply starts_with_split in Hst as [x Hx]. rewrite Hx.
    apply replace_between_splice; [done|]. rewrite <- Hx.
    destruct (ltac:(eexists; vm_compute; reflexivity)
              : ∃ e, stats_end = ascii_of_nat 10 :: ascii_of_nat 10 :: e)
      as [e ->].
    apply no_blank_first_at, build_stats_html_scan.
  - intros HP old new Hold.
    assert (Hst : ∃ x, build_subdivision_cards_html old = cards_start ++ x).
    { unfold build_subdivision_cards_html.
      destruct (List.map subdivision_card old ++ [L "    </div>"])
        as [|s ps] eqn:E; [by destruct (List.map subdivision_card old)|].
      eexists. reflexivity. }
    destruct Hst as [x Hx]. rewrite Hx.
    apply replace_between_splice; [done|]. rewrite <- Hx.
    destruct (ltac:(eexists; vm_compute; reflexivity)
              : ∃ e, cards_end = ascii_of_nat 10 :: ascii_of_nat 10 :: e)
      as [e ->].
    by apply no_blank_first_at, build_subdivision_cards_html_scan.
Qed.

Lemma blocks_replace_cleanly_witness :
  replace_between
    ([] ++ build_stats_html sample_raikot_record ++ stats_end ++ [])
    stats_start stats_end (build_stats_html sample_raikot_record)
  = Ok ([] ++ build_stats_html sample_raikot_record ++ stats_end ++ []).
Proof.
  apply (blocks_replace_cleanly [] []).
  vm_compute. reflexivity.
Defined.

(** *** The table body *)

Lemma starts_with_cons (a : ascii) (p : str) (b : ascii) (s : str) :
  starts_with (a :: p) (b :: s) = Ascii.eqb a b && starts_with p s.
Proof. reflexivity. Qed.

Lemma scan_tag_app (s : nat) (a b : str) :
  scan_tag s (a ++ b) = scan_tag s a ≫= λ s', scan_tag s' b.
Proof.
  revert s. induction a as [|c a IH]; intros s; [done|]. simpl.
  destruct (step_tag s c) as [s'|]; [|done]. apply IH.
Qed.

Lemma step_tag_bound (s s' : nat) (c : ascii) :
  step_tag s c = Some s' → s' ≤ 3.
Proof.
  unfold step_tag. destruct s as [|[|[|s]]];
    repeat match goal with
           | |- context [if ?b then _ else _] => destruct b
           end; intros [= <-]; lia.
Qed.

Lemma scan_tag_sound (t : str) (s s' : nat) :
  s ≤ 3 → scan_tag s t = Some s' →
  starts_with (drop s (L "</tb")) t = false
  ∧ ∀ k, starts_with (L "</tb") (drop k t) = false.
Proof.
  revert s. induction t as [|c t IH]; intros s Hs Hscan.
  - split; [|intros k; by rewrite drop_nil].
    destruct s as [|[|[|[|s]]]]; [done..|lia].
  - simpl in Hscan. destruct (step_tag s c) as [s1|] eqn:Hstep; [|done].
    cbn [mbind option_bind] in Hscan.
    pose proof (step_tag_bound _ _ _ Hstep) as Hs1.
    destruct (IH s1 Hs1 Hscan) as [Hpart Hfull].
    assert (Hrestart : Ascii.eqb "<"%char c = true → s1 = 1).
    { intros Hc. apply Ascii.eqb_eq in Hc as <-. unfold step_tag in Hstep.
      destruct s as [|[|[|s]]]; simpl in Hstep; by injection Hstep as <-. }
    change (L "</tb") with ["<"; "/"; "t"; "b"]%char in *.
    split.
    + unfold step_tag in Hstep.
      destruct s as [|[|[|s]]]; [| | |destruct s; [|lia]];
        cbn [drop]; rewrite starts_with_cons.
      * destruct (Ascii.eqb_spec "<"%char c) as [<-|Hc]; [|done].
        simpl in Hstep. injection Hstep as <-. cbn [drop] in Hpart.
        by rewrite Hpart.
      * destruct (Ascii.eqb_spec "/"%char c) as [<-|Hc]; [|done].
        simpl in Hstep. injection Hstep as <-. cbn [drop] in Hpart.
        by rewrite Hpart.
      * destruct (Ascii.eqb_spec "t"%char c) as [<-|Hc]; [|done].
        simpl in Hstep. injection Hstep as <-. cbn [drop] in Hpart.
        by rewrite Hpart.
      * destruct (Ascii.eqb_spec "b"%char c) as [<-|Hc]; [|done].
        simpl in Hstep. discriminate Hstep.
    + intros [|k]; [|apply Hfull]. rewrite drop_0, starts_with_cons.
      destruct (Ascii.eqb "<"%char c) eqn:Hc; [|done].
      rewrite (Hrestart eq_refl) in Hpart. cbn [drop] in Hpart.
      by rewrite Hpart.
Qed.

Lemma scan_tag_free (x : str) :
  "<"%char ∉ x → scan_tag 0 x = Some 0.
Proof.
  induction x as [|c x IH]; [done|]. intros Hx.
  apply not_elem_of_cons in Hx as [Hc Hx]. simpl.
  destruct (Ascii.eqb_spec c "<"%char) as [->|_]; [done|]. by apply IH.
Qed.

Lemma scan_tag_lit_app (l rest : str) :
  scan_tag 0 l = Some 0 → scan_tag 0 (l ++ rest) = scan_tag 0 rest.
Proof. intros Hl. by rewrite scan_tag_app, Hl. Qed.

Lemma plain_no_tag (s : str) : plain_text s → "<"%char ∉ s.
Proof. intros Hs. by apply plain_text_safe in Hs as (? & _). Qed.

Lemma badge_class_plain (x : pyfloat) :
  plain_text (survey_badge_class x) ∧ plain_text (approval_badge_class x).
Proof.
  unfold survey_badge_class, approval_badge_class.
  split;
    repeat match goal with
           |- context [if ?b then _ else _] => destruct b
           end; apply plain_text_literal; reflexivity.
Qed.

Ltac no_tag :=
  first [ assumption
        | apply plain_no_tag;
          first [ apply format_indian_number_plain | apply format_2f_plain
                | apply str_of_Z_plain | apply badge_class_plain ] ].

Ltac scan_tag_pieces :=
  repeat first
    [ rewrite scan_tag_lit_app by (vm_compute; reflexivity)
    | rewrite scan_tag_lit_app by (apply scan_tag_free; no_tag) ].

Lemma table_row_scan (r : record) :
  "<"%char ∉ name r → scan_tag 0 (table_row r) = Some 0.
Proof.
  intros Hname. unfold table_row. cbv zeta.
  scan_tag_pieces. vm_compute. reflexivity.
Qed.

Lemma table_total_row_scan (t : record) :
  scan_tag 0 (table_total_row t) = Some 0.
Proof. unfold table_total_row. scan_tag_pieces. vm_compute. reflexivity. Qed.

Lemma scan_tag_lines (ps : list str) :
  Forall (λ s, scan_tag 0 s = Some 0) ps →
  scan_tag 0 (join nl ps ++ nl) = Some 0.
Proof.
  induction 1 as [|s ps Hs Hps IH]; [done|].
  destruct ps as [|s' ps].
  - change (join nl [s]) with s. by rewrite scan_tag_lit_app.
  - change (join nl (s :: s' :: ps)) with (s ++ nl ++ join nl (s' :: ps)).
    rewrite <- !app_assoc. rewrite scan_tag_lit_app by done.
    rewrite scan_tag_lit_app by done. apply IH.
Qed.

Lemma no_tag_first_at (a : str) :
  scan_tag 0 a = Some 0 → first_at tbody_close a.
Proof.
  intros Hs. unfold first_at. apply find_from_Some. split; [|split].
  - rewrite length_app. lia.
  - rewrite drop_app_length.
    rewrite <- (app_nil_r tbody_close) at 2. apply starts_with_app.
  - intros j Hj.
    destruct (starts_with tbody_close (drop j (a ++ tbody_close))) eqn:E;
      [exfalso|done].
    apply starts_with_inv in E.
    assert (Htag : starts_with (L "</tb") (drop (j + 12) (a ++ tbody_close))
                   = true).
    { rewrite <- drop_drop, E. reflexivity. }
    set (sp := L "            </t").
    assert (Hclose : tbody_close = sp ++ L "body>") by reflexivity.
    assert (Hscan : scan_tag 0 (a ++ sp) = Some 3).
    { by rewrite scan_tag_app, Hs. }
    destruct (scan_tag_sound (a ++ sp) 0 3 ltac:(lia) Hscan) as [_ Hno].
    specialize (Hno (j + 12)).
    rewrite Hclose, app_assoc in Htag.
    rewrite drop_app_le in Htag by (rewrite length_app; simpl; lia).
    rewrite starts_with_long in Htag; [congruence|].
    rewrite length_drop, length_app. simpl. lia.
Qed.

(** X19.  The table body is replaced whatever the numbers: where the document
    holds the body of one run after its first [<tbody>] line, and no name of
    that body holds a [<], the replacement of [update_html] puts the body of
    the next run in its place and changes nothing else. *)
Theorem table_body_replaces_cleanly (P Q : str) (old new : list record)
    (old_totals new_totals : record) :
  first_at tbody_open P →
  Forall (λ r, "<"%char ∉ name r) old →
  replace_tbody (P ++ build_table_body_html old old_totals ++ Q)
    (build_table_body_html new new_totals)
  = Ok (P ++ build_table_body_html new new_totals ++ Q).
Proof.
  intros HP Hold.
  set (lines := List.map table_row old ++ [table_total_row old_totals]).
  assert (Hbody : build_table_body_html old old_totals
                  = tbody_open ++ (nl ++ join nl lines ++ nl) ++ tbody_close).
  { unfold build_table_body_html.
    replace ([L "            <tbody>"] ++ List.map table_row old
             ++ [table_total_row old_totals; L "            </tbody>"])
      with ((tbody_open :: lines) ++ [tbody_close])
      by (unfold lines; cbn [app]; by rewrite <- app_assoc).
    rewrite join_snoc by done.
    destruct lines as [|l ls] eqn:E;
      [by destruct (List.map table_row old)|].
    change (join nl (tbody_open :: l :: ls))
      with (tbody_open ++ nl ++ join nl (l :: ls)).
    by rewrite <- !app_assoc. }
  rewrite Hbody.
  apply replace_tbody_splice; [done|].
  apply no_tag_first_at.
  rewrite scan_tag_lit_app by (vm_compute; reflexivity).
  rewrite scan_tag_lit_app by (vm_compute; reflexivity).
  apply scan_tag_lines. unfold lines. apply Forall_app. split.
  - apply Forall_forall. intros s Hs.
    apply list_elem_of_In, in_map_iff in Hs as (r & <- & Hr).
    apply table_row_scan. rewrite Forall_forall in Hold.
    apply Hold. by apply list_elem_of_In.
  - apply Forall_cons. split; [apply table_total_row_scan|constructor].
Qed.

Lemma table_body_replaces_cleanly_witness :
  replace_tbody
    ([] ++ build_table_body_html [sample_raikot_record] sample_raikot_record
     ++ [])
    (build_table_body_html [] sample_raikot_record)
  = Ok ([] ++ build_table_body_html [] sample_raikot_record ++ []).
Proof.
  apply (table_body_replaces_cleanly [] [] [sample_raikot_record] []).
  - vm_compute. reflexivity.
  - apply Forall_cons. split; [|constructor].
    apply not_elem_of_checked. vm_compute. reflexivity.
Defined.

(** *** The array of names *)

(** X20.  The array of names is replaced when no name of the old array holds a
    [\]] and no name of the new one a backslash, which [re.sub] would read as
    an escape. *)
Theorem names_array_replaces_cleanly (P Q : str) (old new : list str) :
  first_at (array_open (L "subdivisions")) P →
  Forall (λ n, "]"%char ∉ n) old →
  Forall (λ n, backslash ∉ n) new →
  replace_array_const
    (P ++ (array_open (L "subdivisions")
           ++ join (L ", ") (List.map quoted old) ++ L "];") ++ Q)
    (L "subdivisions") (join (L ", ") (List.map quoted new))
  = Ok (P ++ (array_open (L "subdivisions")
              ++ join (L ", ") (List.map quoted new) ++ L "];") ++ Q).
Proof.
  intros HP Hold Hnew.
  assert (Hjoin : ∀ (e : ascii) (l : list str),
            e ∉ L ", " → e ∉ L "'" → Forall (λ n, e ∉ n) l →
            e ∉ join (L ", ") (List.map quoted l)).
  { intros e l He1 He2 Hl.
    assert (HF : Forall (λ c, c ≠ e) (join (L ", ") (List.map quoted l))).
    { apply join_Forall.
      - apply Forall_forall. intros c Hc ->. done.
      - induction Hl as [|n l Hn Hl IH]; [constructor|].
        cbn [List.map concat]. apply Forall_app. split; [|exact IH].
        unfold quoted.
        repeat (apply Forall_app; split);
          apply Forall_forall; intros c Hc ->; done. }
    rewrite Forall_forall in HF. intros Hin. by apply (HF e Hin). }
  unfold replace_array_const. rewrite array_re_shape.
  assert (Hsuf : "]"%char ∈ L "];")
    by (apply elem_of_checked; vm_compute; reflexivity).
  assert (Ho : "]"%char ∉ join (L ", ") (List.map quoted old)).
  { apply Hjoin; [apply not_elem_of_checked; vm_compute; reflexivity..|done]. }
  assert (Hn : backslash ∉ join (L ", ") (List.map quoted new)).
  { apply Hjoin; [apply not_elem_of_checked; vm_compute; reflexivity..|done]. }
  destruct (search_shape (array_open (L "subdivisions")) "]"%char 0 (L "];")
              (join (L ", ") (List.map quoted old)) P Q)
    as (ps & Hs & _); [done|done|lia|done|].
  rewrite Hs.
  replace (L "const " ++ L "subdivisions" ++ L " = ["
           ++ join (L ", ") (List.map quoted new) ++ L "];")
    with (array_open (L "subdivisions")
          ++ join (L ", ") (List.map quoted new) ++ L "];")
    by (unfold array_open; by rewrite <- !app_assoc).
  apply re_sub_first_splice; [done|done|lia|done|].
  rewrite !elem_of_app.
  pose proof (not_elem_of_checked backslash (array_open (L "subdivisions"))
                ltac:(vm_compute; reflexivity)).
  pose proof (not_elem_of_checked backslash (L "];")
                ltac:(vm_compute; reflexivity)).
  tauto.
Qed.

Lemma names_array_replaces_cleanly_witness :
  replace_array_const
    ([] ++ (array_open (L "subdivisions")
            ++ join (L ", ") (List.map quoted [L "Raikot"]) ++ L "];") ++ [])
    (L "subdivisions") (join (L ", ") (List.map quoted [L "Khanna"; L "Payal"]))
  = Ok ([] ++ (array_open (L "subdivisions")
               ++ join (L ", ") (List.map quoted [L "Khanna"; L "Payal"])
               ++ L "];") ++ []).
Proof.
  apply (names_array_replaces_cleanly [] [] [L "Raikot"] [L "Khanna"; L "Payal"]).
  - vm_compute. reflexivity.
  - apply Forall_cons. split; [|constructor].
    apply not_elem_of_checked. vm_compute. reflexivity.
  - repeat (apply Forall_cons; split;
            [apply not_elem_of_checked; vm_compute; reflexivity|]).
    constructor.
Defined.

(** *** The extraction on the sample sheets *)

Lemma sample_header_first (rows : list row) :
  detect_header_row sample_repr (sample_header :: rows) = Ok 0
  ∧ row_get (sample_header :: rows) 0 = Ok sample_header
  ∧ map_columns sample_repr sample_header = Ok sample_col.
Proof. repeat split; vm_compute; reflexivity. Qed.

Lemma totals_row_is_kept_witness :
  ∃ out, read_excel_data sample_repr sample_sheet_stale_total = Ok out
         ∧ uploaded_plots (totals out) = 500%Z
         ∧ sum_of uploaded_plots (subdivisions out) = 1200%Z.
Proof.
  destruct (sample_header_first [sample_raikot; sample_khanna; sample_total])
    as (Hh & Hr & Hc).
  eexists. split; [vm_compute; reflexivity|].
  split; [|vm_compute; reflexivity].
  match goal with
  | |- uploaded_plots (totals ?o) = _ =>
      rewrite (totals_row_is_kept sample_repr sample_sheet_stale_total 0
                 sample_header sample_col o [sample_raikot; sample_khanna]
                 sample_total []
                 (Record_ (L "Total") 2 500 50 10 100 (Finite 20) 50
                    (Finite 10) 5 3) Hh Hr Hc)
  end.
  - reflexivity.
  - reflexivity.
  - vm_compute. reflexivity.
  - intros r' key' rec' Hin. inversion Hin.
  - vm_compute. reflexivity.
Defined.

Lemma other_names_keep_their_rows_witness :
  ∃ out, read_excel_data sample_repr sample_sheet_twice = Ok out
         ∧ List.map uploaded_plots
             (filter (λ x, name x = L "Zeta") (subdivisions out))
           = [1500%Z; 1600%Z].
Proof.
  destruct (sample_header_first [sample_zeta; sample_raikot; sample_zeta_late])
    as (Hh & Hr & Hc).
  eexists. split; [vm_compute; reflexivity|].
  match goal with
  | |- List.map _ (filter _ (subdivisions ?o)) = _ =>
      rewrite (other_names_keep_their_rows sample_repr sample_sheet_twice 0
                 sample_header sample_col o (L "Zeta") Hh Hr Hc)
  end.
  - vm_compute. reflexivity.
  - intros Hin. vm_compute in Hin.
    repeat (apply elem_of_cons in Hin as [Hin|Hin]; [discriminate Hin|]).
    inversion Hin.
  - vm_compute. reflexivity.
Defined.

Lemma distinct_names_lose_nothing_witness :
  ∃ out, read_excel_data sample_repr sample_sheet_stale_total = Ok out
         ∧ subdivisions out
           ≡ₚ omap (row_record sample_repr sample_col)
                [sample_raikot; sample_khanna; sample_total].
Proof.
  destruct (sample_header_first [sample_raikot; sample_khanna; sample_total])
    as (Hh & Hr & Hc).
  eexists. split; [vm_compute; reflexivity|].
  match goal with
  | |- subdivisions ?o ≡ₚ _ =>
      apply (distinct_names_lose_nothing sample_repr sample_sheet_stale_total 0
               sample_header sample_col o Hh Hr Hc)
  end.
  - assert (Hnames :
      List.map name
        (omap (row_record sample_repr sample_col)
           (drop 1 sample_sheet_stale_total))
      = [L "Raikot"; L "Khanna"]) by (vm_compute; reflexivity).
    rewrite Hnames. apply NoDup_cons. split.
    + intros Hin. apply elem_of_cons in Hin as [Hin|Hin];
        [discriminate Hin|inversion Hin].
    + apply NoDup_singleton.
  - vm_compute. reflexivity.
Defined.

Lemma extracted_records_come_from_rows_witness :
  ∃ out, read_excel_data sample_repr sample_sheet = Ok out
         ∧ subdivisions out ≠ [].
Proof.
  eexists. split; [vm_compute; reflexivity|].
  match goal with
  | |- subdivisions ?o ≠ [] =>
      apply (extracted_records_come_from_rows sample_repr sample_sheet o)
  end.
  vm_compute. reflexivity.
Defined.

Lemma report_date_comes_from_a_cell_witness :
  ∃ c,
    ((∃ r, r ∈ take 5 sample_sheet ∧ c ∈ r)
     ∨ (∃ i, sample_col !! L "surveyed_today" = Some i
             ∧ sample_header !! i = Some c))
    ∧ (c = CDate (Date 2025 3 1) ∨ (∃ t, c = CDateTime (Date 2025 3 1) t)
       ∨ (parse_date_tokens (py_str sample_repr c) = Some (Date 2025 3 1)
          ∧ make_date 2025 3 1 = Ok (Date 2025 3 1)
          ∧ (100 <= 2025)%Z)).
Proof.
  apply (report_date_comes_from_a_cell sample_repr sample_sheet sample_header
           sample_col (Date 2025 3 1)).
  vm_compute. reflexivity.
Defined.
